

(** * Community forum: vote ledger, score trigger, cascades, feed ordering, post card

    The backend of the repository is the product-requirements document
    (PostgreSQL schema, trigger functions, endpoint business logic); the
    frontend is a handful of React components.  This development embeds

    - the tables [users], [topics], [posts], [votes], [reports] with their
      constraints and referential actions,
    - the trigger functions [update_updated_at_column] and
      [update_post_vote_count],
    - the business logic of [POST /api/posts/:id/vote] (called [submitVote]),
      of [POST /api/posts], [PUT /api/posts/:id], [DELETE /api/posts/:id]
      and [POST /api/posts/:id/report],
    - the three sort orders of [GET /api/posts],
    - the [PostCard] component,

    and proves the properties of the vote/score model about them.

    Conventions.  A table is the list of its rows, in the order they were
    inserted.  A statement runs against a database and returns the new
    database or the error it raises; constraints are checked where
    PostgreSQL checks them, row triggers and referential actions run inside
    the statement, and an error undoes the statement as a whole.
    [CURRENT_TIMESTAMP] is the argument [now] of a statement.  [INTEGER]
    arithmetic raises outside the 32-bit range.  The hot score is computed in
    an arithmetic of the database, which is a parameter of the model
    ([arithmetic]); the formula over the reals is related to it through the
    relative error of the computation. *)

From Stdlib Require Import ZArith NArith List Bool Lia String.
From Stdlib Require Import Permutation Sorted.
From Stdlib Require Import Reals Lra.
Import ListNotations.
Local Open Scope Z_scope.

(** ** SQL values and statement results *)

(** [UUID]: an opaque identifier with decidable equality. *)
Definition uuid := N.

(** [TIMESTAMP]: microseconds since the epoch, PostgreSQL's resolution. *)
Definition timestamp := Z.

(** The error classes a statement of this schema can raise. *)
Inductive sqlstate :=
| not_null_violation
| check_violation
| unique_violation
| foreign_key_violation
| numeric_value_out_of_range
| division_by_zero
| invalid_argument_for_power_function.

(** A statement either commits a value or raises; a raised error aborts the
    whole statement, triggers and referential actions included. *)
Inductive result (A : Type) :=
| Ok (a : A)
| Err (e : sqlstate).
Arguments Ok {A} a.
Arguments Err {A} e.

Definition bind {A B} (m : result A) (k : A -> result B) : result B :=
  match m with
  | Ok a => k a
  | Err e => Err e
  end.

Notation "x <- m ;; k" := (bind m (fun x => k))
  (at level 61, m at next level, right associativity).

(** [INTEGER] is the 32-bit signed type; arithmetic leaving its range raises
    "integer out of range" instead of wrapping. *)
Definition int4_min : Z := -2147483648.
Definition int4_max : Z := 2147483647.

Definition in_int4 (z : Z) : bool := (int4_min <=? z) && (z <=? int4_max).

Definition int4 (z : Z) : result Z :=
  if in_int4 z then Ok z else Err numeric_value_out_of_range.

Definition int4pl (a b : Z) : result Z := int4 (a + b).
Definition int4mi (a b : Z) : result Z := int4 (a - b).

Fixpoint list_max_N (l : list N) : N :=
  match l with
  | [] => 0%N
  | x :: rest => N.max x (list_max_N rest)
  end.

(** [DEFAULT gen_random_uuid()]: the generator is taken to return an
    identifier not yet used as a key of the table; here, the successor of the
    largest one. *)
Definition gen_random_uuid (used : list uuid) : uuid := N.succ (list_max_N used).

(** [LENGTH(s)] *)
Definition LENGTH (s : string) : Z := Z.of_nat (String.length s).

Definition eq_opt_uuid (a : option uuid) (b : uuid) : bool :=
  match a with
  | Some x => N.eqb x b
  | None => false
  end.

(** ** Tables *)

Module Users.
Record row := mk {
  id : uuid;
  username : string;
  email : string;
  password_hash : string;
  created_at : timestamp
}.
End Users.

Module Topics.
Record row := mk {
  id : uuid;
  name : string;
  description : option string;
  created_at : timestamp
}.
End Topics.

Module Posts.
(** [topic_id] holds an SQL value that may be NULL ([None]); the column is
    declared [NOT NULL], which [not_null] checks whenever a row is written.
    [vote_count] is written by its [DEFAULT 0] and by the vote trigger only,
    and is never NULL. *)
Record row := mk {
  id : uuid;
  user_id : uuid;
  topic_id : option uuid;
  title : string;
  content : string;
  vote_count : Z;
  created_at : timestamp;
  updated_at : timestamp
}.

Definition set_vote_count (c : Z) (r : row) : row :=
  mk (id r) (user_id r) (topic_id r) (title r) (content r) c
     (created_at r) (updated_at r).

Definition set_updated_at (t : timestamp) (r : row) : row :=
  mk (id r) (user_id r) (topic_id r) (title r) (content r) (vote_count r)
     (created_at r) t.

Definition set_topic_id (t : option uuid) (r : row) : row :=
  mk (id r) (user_id r) t (title r) (content r) (vote_count r)
     (created_at r) (updated_at r).

Definition set_title_content (ti co : string) (r : row) : row :=
  mk (id r) (user_id r) (topic_id r) ti co (vote_count r)
     (created_at r) (updated_at r).

(** [topic_id UUID NOT NULL] *)
Definition not_null (r : row) : bool :=
  match topic_id r with
  | Some _ => true
  | None => false
  end.

(** [CONSTRAINT title_length], [CONSTRAINT content_length] *)
Definition title_length (r : row) : bool :=
  (5 <=? LENGTH (title r)) && (LENGTH (title r) <=? 300).
Definition content_length (r : row) : bool :=
  (10 <=? LENGTH (content r)) && (LENGTH (content r) <=? 10000).
End Posts.

Module Votes.
Record row := mk {
  id : uuid;
  user_id : uuid;
  post_id : uuid;
  vote_type : Z;
  created_at : timestamp
}.

Definition set_vote_type (v : Z) (r : row) : row :=
  mk (id r) (user_id r) (post_id r) v (created_at r).

(** [CHECK (vote_type IN (-1, 1))] *)
Definition vote_type_check (v : Z) : bool := (v =? -1) || (v =? 1).

(** The columns of [CONSTRAINT unique_user_post_vote]. *)
Definition key (r : row) : uuid * uuid := (user_id r, post_id r).

Definition by_user_post (u p : uuid) (r : row) : bool :=
  N.eqb (user_id r) u && N.eqb (post_id r) p.
End Votes.

Module Reports.
Record row := mk {
  id : uuid;
  reporter_id : option uuid;
  post_id : uuid;
  reason : string;
  details : option string;
  status : string;
  created_at : timestamp
}.

Definition set_reporter_id (u : option uuid) (r : row) : row :=
  mk (id r) u (post_id r) (reason r) (details r) (status r) (created_at r).

(** [CHECK (reason IN ('spam', 'harassment', ...))] *)
Definition reason_check (s : string) : bool :=
  existsb (String.eqb s)
    ["spam"; "harassment"; "inappropriate"; "misinformation"; "other"]%string.

(** [CHECK (LENGTH(details) <= 500)]; a NULL passes a CHECK. *)
Definition details_check (d : option string) : bool :=
  match d with
  | Some s => LENGTH s <=? 500
  | None => true
  end.
End Reports.

Record db := mkdb {
  users : list Users.row;
  topics : list Topics.row;
  posts : list Posts.row;
  votes : list Votes.row;
  reports : list Reports.row
}.

Definition with_posts (ps : list Posts.row) (d : db) : db :=
  mkdb (users d) (topics d) ps (votes d) (reports d).
Definition with_votes (vs : list Votes.row) (d : db) : db :=
  mkdb (users d) (topics d) (posts d) vs (reports d).
Definition with_reports (rs : list Reports.row) (d : db) : db :=
  mkdb (users d) (topics d) (posts d) (votes d) rs.
Definition with_topics (ts : list Topics.row) (d : db) : db :=
  mkdb (users d) ts (posts d) (votes d) (reports d).
Definition with_users (us : list Users.row) (d : db) : db :=
  mkdb us (topics d) (posts d) (votes d) (reports d).

Definition user_exists (u : uuid) (d : db) : bool :=
  existsb (fun r => N.eqb (Users.id r) u) (users d).
Definition topic_exists (t : uuid) (d : db) : bool :=
  existsb (fun r => N.eqb (Topics.id r) t) (topics d).
Definition post_exists (p : uuid) (d : db) : bool :=
  existsb (fun r => N.eqb (Posts.id r) p) (posts d).

(** [SELECT * FROM posts WHERE id = p] *)
Definition find_post (p : uuid) (d : db) : option Posts.row :=
  find (fun r => N.eqb (Posts.id r) p) (posts d).

(** [SELECT vote_count FROM posts WHERE id = p] *)
Definition score (p : uuid) (d : db) : option Z :=
  option_map Posts.vote_count (find_post p d).

(** [SELECT vote_type FROM votes WHERE user_id = u AND post_id = p] *)
Definition existing_vote (u p : uuid) (d : db) : option Z :=
  option_map Votes.vote_type (find (Votes.by_user_post u p) (votes d)).

(** [SELECT COALESCE(SUM(vote_type), 0) FROM votes WHERE post_id = p]: the sum
    of the live vote rows that reference post [p]. *)
Fixpoint vote_sum (p : uuid) (vs : list Votes.row) : Z :=
  match vs with
  | [] => 0
  | v :: rest =>
      (if N.eqb (Votes.post_id v) p then Votes.vote_type v else 0)
      + vote_sum p rest
  end.

(** ** Trigger functions *)

(** [update_updated_at_column()], fired [BEFORE UPDATE ON posts FOR EACH ROW]. *)
Definition update_updated_at_column (now : timestamp) (NEW : Posts.row)
  : Posts.row :=
  Posts.set_updated_at now NEW.

(** [UPDATE posts SET vote_count = e WHERE id = pid], the row trigger
    [update_posts_updated_at] included. *)
Fixpoint update_posts_set_vote_count (now : timestamp) (e : Z -> result Z)
    (pid : uuid) (rows : list Posts.row) : result (list Posts.row) :=
  match rows with
  | [] => Ok []
  | r :: rest =>
      r' <- (if N.eqb (Posts.id r) pid
             then c <- e (Posts.vote_count r) ;;
                  Ok (update_updated_at_column now (Posts.set_vote_count c r))
             else Ok r) ;;
      rest' <- update_posts_set_vote_count now e pid rest ;;
      Ok (r' :: rest')
  end.

(** The operation a row trigger on [votes] is fired for, with its [OLD] and
    [NEW] rows. *)
Inductive TG_OP :=
| INSERT (NEW : Votes.row)
| DELETE (OLD : Votes.row)
| UPDATE (OLD NEW : Votes.row).

(** [update_post_vote_count()], fired [AFTER INSERT], [AFTER DELETE] and
    [AFTER UPDATE ON votes FOR EACH ROW]. *)
Definition update_post_vote_count (now : timestamp) (op : TG_OP)
    (rows : list Posts.row) : result (list Posts.row) :=
  match op with
  | INSERT NEW =>
      update_posts_set_vote_count now
        (fun vote_count => int4pl vote_count (Votes.vote_type NEW))
        (Votes.post_id NEW) rows
  | DELETE OLD =>
      update_posts_set_vote_count now
        (fun vote_count => int4mi vote_count (Votes.vote_type OLD))
        (Votes.post_id OLD) rows
  | UPDATE OLD NEW =>
      update_posts_set_vote_count now
        (fun vote_count =>
           t <- int4mi vote_count (Votes.vote_type OLD) ;;
           int4pl t (Votes.vote_type NEW))
        (Votes.post_id NEW) rows
  end.

(** The row triggers of one statement, fired row by row. *)
Fixpoint fire (now : timestamp) (ops : list TG_OP) (rows : list Posts.row)
  : result (list Posts.row) :=
  match ops with
  | [] => Ok rows
  | op :: rest =>
      rows' <- update_post_vote_count now op rows ;;
      fire now rest rows'
  end.

(** ** Statements on [votes] *)

(** [INSERT INTO votes (user_id, post_id, vote_type) VALUES (u, p, v)] *)
Definition insert_vote (now : timestamp) (u p : uuid) (v : Z) (d : db)
  : result db :=
  let NEW := Votes.mk (gen_random_uuid (map Votes.id (votes d))) u p v now in
  if negb (Votes.vote_type_check v) then Err check_violation
  else if existsb (fun r => N.eqb (Votes.id r) (Votes.id NEW)) (votes d)
  then Err unique_violation
  else if existsb (Votes.by_user_post u p) (votes d) then Err unique_violation
  else if negb (user_exists u d) then Err foreign_key_violation
  else if negb (post_exists p d) then Err foreign_key_violation
  else
    posts' <- update_post_vote_count now (INSERT NEW) (posts d) ;;
    Ok (with_posts posts' (with_votes (votes d ++ [NEW]) d)).

(** [DELETE FROM votes WHERE cond] *)
Definition delete_votes (now : timestamp) (cond : Votes.row -> bool) (d : db)
  : result db :=
  posts' <- fire now (map DELETE (filter cond (votes d))) (posts d) ;;
  Ok (with_posts posts'
        (with_votes (filter (fun r => negb (cond r)) (votes d)) d)).

(** [UPDATE votes SET vote_type = v WHERE cond] *)
Definition update_votes (now : timestamp) (cond : Votes.row -> bool) (v : Z)
    (d : db) : result db :=
  let changed := filter cond (votes d) in
  if negb (Votes.vote_type_check v) && negb (Nat.eqb (List.length changed) 0)
  then Err check_violation
  else
    posts' <- fire now
                (map (fun OLD => UPDATE OLD (Votes.set_vote_type v OLD)) changed)
                (posts d) ;;
    Ok (with_posts posts'
          (with_votes
             (map (fun r => if cond r then Votes.set_vote_type v r else r)
                  (votes d)) d)).

(** ** Statements on [posts], [reports] and [topics] *)

(** [INSERT INTO posts (user_id, topic_id, title, content) VALUES (...)]; the
    other columns take their defaults. *)
Definition insert_post (now : timestamp) (u : uuid) (t : option uuid)
    (ti co : string) (d : db) : result db :=
  let NEW :=
    Posts.mk (gen_random_uuid (map Posts.id (posts d))) u t ti co 0 now now in
  if negb (Posts.not_null NEW) then Err not_null_violation
  else if negb (Posts.title_length NEW && Posts.content_length NEW)
  then Err check_violation
  else if post_exists (Posts.id NEW) d then Err unique_violation
  else if negb (user_exists u d) then Err foreign_key_violation
  else if negb (existsb (fun r => eq_opt_uuid t (Topics.id r)) (topics d))
  then Err foreign_key_violation
  else Ok (with_posts (posts d ++ [NEW]) d).

(** [UPDATE posts SET title = ti, content = co WHERE id = p] *)
Definition update_post (now : timestamp) (p : uuid) (ti co : string) (d : db)
  : result db :=
  let NEW r := update_updated_at_column now (Posts.set_title_content ti co r) in
  let written := filter (fun r => N.eqb (Posts.id r) p) (posts d) in
  if forallb (fun r => Posts.title_length (NEW r) && Posts.content_length (NEW r))
             written
  then Ok (with_posts
             (map (fun r => if N.eqb (Posts.id r) p then NEW r else r) (posts d))
             d)
  else Err check_violation.

(** [DELETE FROM posts WHERE id = p].  The rows of [votes] and [reports] that
    reference the post go with it ([ON DELETE CASCADE]); the cascaded delete on
    [votes] fires [vote_delete] for each row, when the post row is already
    gone. *)
Definition delete_post (now : timestamp) (p : uuid) (d : db) : result db :=
  let d1 := with_posts (filter (fun r => negb (N.eqb (Posts.id r) p)) (posts d)) d in
  d2 <- delete_votes now (fun r => N.eqb (Votes.post_id r) p) d1 ;;
  Ok (with_reports
        (filter (fun r => negb (N.eqb (Reports.post_id r) p)) (reports d2)) d2).

(** [INSERT INTO reports (reporter_id, post_id, reason, details) VALUES (...)] *)
Definition insert_report (now : timestamp) (u p : uuid) (reason : string)
    (details : option string) (d : db) : result db :=
  let NEW :=
    Reports.mk (gen_random_uuid (map Reports.id (reports d))) (Some u) p reason
      details "pending" now in
  if negb (Reports.reason_check reason && Reports.details_check details)
  then Err check_violation
  else if existsb (fun r => N.eqb (Reports.id r) (Reports.id NEW)) (reports d)
  then Err unique_violation
  else if existsb (fun r => eq_opt_uuid (Reports.reporter_id r) u
                            && N.eqb (Reports.post_id r) p) (reports d)
  then Err unique_violation
  else if negb (user_exists u d) then Err foreign_key_violation
  else if negb (post_exists p d) then Err foreign_key_violation
  else Ok (with_reports (reports d ++ [NEW]) d).

(** The referential action of [posts.topic_id ... ON DELETE SET NULL] on a
    referencing row of [posts], with the [BEFORE UPDATE] row trigger. *)
Definition on_delete_set_null (now : timestamp) (r : Posts.row) : Posts.row :=
  update_updated_at_column now (Posts.set_topic_id None r).

(** [DELETE FROM topics WHERE id = t].  The referential action writes NULL into
    the referencing rows of [posts], and the rows written are checked against
    [topic_id UUID NOT NULL]. *)
Definition delete_topic (now : timestamp) (t : uuid) (d : db) : result db :=
  let referencing r := eq_opt_uuid (Posts.topic_id r) t in
  if forallb (fun r => Posts.not_null (on_delete_set_null now r))
             (filter referencing (posts d))
  then Ok (with_posts
             (map (fun r => if referencing r then on_delete_set_null now r else r)
                  (posts d))
             (with_topics
                (filter (fun r => negb (N.eqb (Topics.id r) t)) (topics d)) d))
  else Err not_null_violation.

(** ** Statements on [users] *)

Fixpoint delete_posts (now : timestamp) (ps : list uuid) (d : db) : result db :=
  match ps with
  | [] => Ok d
  | p :: rest => d' <- delete_post now p d ;; delete_posts now rest d'
  end.

(** [DELETE FROM users WHERE id = u].  The user's posts go ([posts.user_id ...
    ON DELETE CASCADE], each with its own votes and reports), then the user's
    votes ([votes.user_id ... ON DELETE CASCADE], firing [vote_delete]); the
    user's reports stay, with [reporter_id] set to NULL. *)
Definition delete_user (now : timestamp) (u : uuid) (d : db) : result db :=
  let own := filter (fun r => N.eqb (Posts.user_id r) u) (posts d) in
  d1 <- delete_posts now (map Posts.id own) d ;;
  d2 <- delete_votes now (fun r => N.eqb (Votes.user_id r) u) d1 ;;
  Ok (with_users (filter (fun r => negb (N.eqb (Users.id r) u)) (users d2))
        (with_reports
           (map (fun r => if eq_opt_uuid (Reports.reporter_id r) u
                          then Reports.set_reporter_id None r else r)
                (reports d2)) d2)).

(** ** Endpoints *)

(** The error codes of the API (section "Error Handling"). *)
Inductive error_code :=
| UNAUTHORIZED
| FORBIDDEN
| POST_NOT_FOUND
| INVALID_INPUT
| INVALID_TITLE
| INVALID_TOPIC
| DUPLICATE_REPORT
| INTERNAL_SERVER_ERROR.

(** The HTTP status each code is sent with. *)
Definition status_of (e : error_code) : Z :=
  match e with
  | UNAUTHORIZED => 401
  | FORBIDDEN => 403
  | POST_NOT_FOUND => 404
  | INVALID_INPUT | INVALID_TITLE | INVALID_TOPIC | DUPLICATE_REPORT => 400
  | INTERNAL_SERVER_ERROR => 500
  end.

(** The success body of [POST /api/posts/:id/vote]. *)
Record vote_response := mk_vote_response {
  vote_count : Z;
  user_vote : Z
}.

(** A rejected statement of the vote endpoint: a row refused by a CHECK is a
    validation error (400 "Validation errors, invalid input"), anything else
    a server-side error (500). *)
Definition vote_error (e : sqlstate) : error_code :=
  match e with
  | check_violation => INVALID_INPUT
  | _ => INTERNAL_SERVER_ERROR
  end.

(** The business logic of [POST /api/posts/:id/vote]: the statement chosen
    from the user's existing vote.  The "Update post.vote_count" steps of the
    business logic are what the triggers on [votes] carry out. *)
Definition vote_statement (now : timestamp) (u p : uuid) (vote : Z) (d : db)
  : result db :=
  match existing_vote u p d with
  | None =>
      (* user has no existing vote: create new vote with value *)
      insert_vote now u p vote d
  | Some existing =>
      if vote =? existing then
        (* delete vote (toggle off) *)
        delete_votes now (Votes.by_user_post u p) d
      else if vote =? 0 then
        (* delete vote *)
        delete_votes now (Votes.by_user_post u p) d
      else
        (* update vote to new value *)
        update_votes now (Votes.by_user_post u p) vote d
  end.

(** [POST /api/posts/:id/vote] with body [{ "vote": vote }]; [actor] is the
    user the bearer token authenticates, if any.  Returns the response and the
    database after the request; a rejected request commits nothing. *)
Definition submitVote (now : timestamp) (actor : option uuid) (p : uuid)
    (vote : Z) (d : db) : (vote_response + error_code) * db :=
  match actor with
  | None => (inr UNAUTHORIZED, d)
  | Some u =>
      if negb (post_exists p d) then (inr POST_NOT_FOUND, d)
      else
        match vote_statement now u p vote d with
        | Err e => (inr (vote_error e), d)
        | Ok d' =>
            match score p d' with
            | None => (inr POST_NOT_FOUND, d)
            | Some c =>
                (inl (mk_vote_response c
                        (match existing_vote u p d' with
                         | Some v => v
                         | None => 0
                         end)), d')
            end
        end
  end.

(** [POST /api/posts] with body [{ title, content, topic_id }]. *)
Definition createPost (now : timestamp) (actor : option uuid)
    (ti co : string) (t : uuid) (d : db) : (uuid + error_code) * db :=
  match actor with
  | None => (inr UNAUTHORIZED, d)
  | Some u =>
      if negb ((5 <=? LENGTH ti) && (LENGTH ti <=? 300))
      then (inr INVALID_TITLE, d)
      else if negb ((10 <=? LENGTH co) && (LENGTH co <=? 10000))
      then (inr INVALID_INPUT, d)
      else if negb (topic_exists t d) then (inr INVALID_TOPIC, d)
      else
        match insert_post now u (Some t) ti co d with
        | Err _ => (inr INTERNAL_SERVER_ERROR, d)
        | Ok d' => (inl (gen_random_uuid (map Posts.id (posts d))), d')
        end
  end.

(** The owner check shared by [PUT] and [DELETE /api/posts/:id]. *)
Definition owned_post (actor : option uuid) (p : uuid) (d : db)
  : Posts.row + error_code :=
  match actor with
  | None => inr UNAUTHORIZED
  | Some u =>
      match find_post p d with
      | None => inr POST_NOT_FOUND
      | Some r => if N.eqb (Posts.user_id r) u then inl r else inr FORBIDDEN
      end
  end.

(** [PUT /api/posts/:id]; both fields of the body are optional. *)
Definition updatePost (now : timestamp) (actor : option uuid) (p : uuid)
    (ti co : option string) (d : db) : (unit + error_code) * db :=
  match owned_post actor p d with
  | inr e => (inr e, d)
  | inl r =>
      let ti' := match ti with Some s => s | None => Posts.title r end in
      let co' := match co with Some s => s | None => Posts.content r end in
      match update_post now p ti' co' d with
      | Err _ => (inr INVALID_INPUT, d)
      | Ok d' => (inl tt, d')
      end
  end.

(** [DELETE /api/posts/:id] *)
Definition deletePost (now : timestamp) (actor : option uuid) (p : uuid)
    (d : db) : (unit + error_code) * db :=
  match owned_post actor p d with
  | inr e => (inr e, d)
  | inl _ =>
      match delete_post now p d with
      | Err _ => (inr INTERNAL_SERVER_ERROR, d)
      | Ok d' => (inl tt, d')
      end
  end.

(** [POST /api/posts/:id/report] with body [{ reason, details }]. *)
Definition reportPost (now : timestamp) (actor : option uuid) (p : uuid)
    (reason : string) (details : option string) (d : db)
  : (unit + error_code) * db :=
  match actor with
  | None => (inr UNAUTHORIZED, d)
  | Some u =>
      if negb (post_exists p d) then (inr POST_NOT_FOUND, d)
      else if String.eqb reason "other"
              && match details with Some _ => false | None => true end
      then (inr INVALID_INPUT, d)
      else
        match insert_report now u p reason details d with
        | Err unique_violation => (inr DUPLICATE_REPORT, d)
        | Err _ => (inr INVALID_INPUT, d)
        | Ok d' => (inl tt, d')
        end
  end.

(** ** Runs of the API *)

(** What can change the database, with the time it is served at: the
    requests of the API, and the two deletions the cascade rules provide for. *)
Inductive request :=
| Vote (now : timestamp) (actor : option uuid) (p : uuid) (vote : Z)
| CreatePost (now : timestamp) (actor : option uuid) (ti co : string) (t : uuid)
| UpdatePost (now : timestamp) (actor : option uuid) (p : uuid)
    (ti co : option string)
| DeletePost (now : timestamp) (actor : option uuid) (p : uuid)
| ReportPost (now : timestamp) (actor : option uuid) (p : uuid)
    (reason : string) (details : option string)
| DeleteTopic (now : timestamp) (t : uuid)
| DeleteUser (now : timestamp) (u : uuid).

(** The database after a request. *)
Definition serve (r : request) (d : db) : db :=
  match r with
  | Vote now actor p vote => snd (submitVote now actor p vote d)
  | CreatePost now actor ti co t => snd (createPost now actor ti co t d)
  | UpdatePost now actor p ti co => snd (updatePost now actor p ti co d)
  | DeletePost now actor p => snd (deletePost now actor p d)
  | ReportPost now actor p reason details =>
      snd (reportPost now actor p reason details d)
  | DeleteTopic now t =>
      match delete_topic now t d with
      | Ok d' => d'
      | Err _ => d
      end
  | DeleteUser now u =>
      match delete_user now u d with
      | Ok d' => d'
      | Err _ => d
      end
  end.

Definition run (rs : list request) (d : db) : db :=
  fold_left (fun d r => serve r d) rs d.

(** A freshly migrated database: seeded users and topics, no post, vote or
    report yet. *)
Definition fresh (d : db) : Prop :=
  posts d = [] /\ votes d = [] /\ reports d = [].

(** The states the API can drive a fresh database into. *)
Definition reachable (d : db) : Prop :=
  exists d0 rs, fresh d0 /\ d = run rs d0.

(** A run of vote requests only, as [(now, actor, post, value)]. *)
Definition submitVotes (calls : list (timestamp * option uuid * uuid * Z))
    (d : db) : db :=
  run (map (fun '(now, actor, p, vote) => Vote now actor p vote) calls) d.

(** ** Schema invariants *)

(** What the constraints of the schema and the vote trigger maintain. *)
Record consistent (d : db) : Prop := mk_consistent {
  (* CONSTRAINT unique_user_post_vote UNIQUE (user_id, post_id) *)
  votes_unique : NoDup (map Votes.key (votes d));
  (* CHECK (vote_type IN (-1, 1)) *)
  votes_checked :
    Forall (fun v => Votes.vote_type_check (Votes.vote_type v) = true) (votes d);
  (* post_id REFERENCES posts(id) *)
  votes_reference_posts :
    Forall (fun v => post_exists (Votes.post_id v) d = true) (votes d);
  (* vote_count INTEGER *)
  posts_int4 : Forall (fun r => in_int4 (Posts.vote_count r) = true) (posts d);
  (* vote_count is the cached sum of the votes on the post *)
  posts_vote_sum :
    Forall (fun r => Posts.vote_count r = vote_sum (Posts.id r) (votes d))
           (posts d)
}.

(** The change a row trigger event makes to the score of post [p]. *)
Definition delta (p : uuid) (op : TG_OP) : Z :=
  match op with
  | INSERT NEW =>
      if N.eqb (Votes.post_id NEW) p then Votes.vote_type NEW else 0
  | DELETE OLD =>
      if N.eqb (Votes.post_id OLD) p then - Votes.vote_type OLD else 0
  | UPDATE OLD NEW =>
      if N.eqb (Votes.post_id NEW) p
      then Votes.vote_type NEW - Votes.vote_type OLD else 0
  end.

Fixpoint delta_sum (p : uuid) (ops : list TG_OP) : Z :=
  match ops with
  | [] => 0
  | op :: rest => delta p op + delta_sum p rest
  end.

(** How a row of [posts] relates to itself after triggers that changed its
    score by [k]: only [vote_count] and [updated_at] may differ. *)
Definition rescored (k : Z) (r r' : Posts.row) : Prop :=
  Posts.id r' = Posts.id r
  /\ Posts.user_id r' = Posts.user_id r
  /\ Posts.topic_id r' = Posts.topic_id r
  /\ Posts.title r' = Posts.title r
  /\ Posts.content r' = Posts.content r
  /\ Posts.created_at r' = Posts.created_at r
  /\ Posts.vote_count r' = Posts.vote_count r + k
  /\ (in_int4 (Posts.vote_count r) = true -> in_int4 (Posts.vote_count r') = true).

(** Two states of [posts] with the same rows up to the columns the triggers
    do not read. *)
Definition same_scores (a b : list Posts.row) : Prop :=
  Forall2 (fun r1 r2 => Posts.id r1 = Posts.id r2
                        /\ Posts.vote_count r1 = Posts.vote_count r2) a b.

(** Two runs of the triggers that end alike. *)
Definition agree (x y : result (list Posts.row)) : Prop :=
  match x, y with
  | Ok a, Ok b => same_scores a b
  | Err e1, Err e2 => e1 = e2
  | _, _ => False
  end.

(** ** Replaying a vote request *)

(** The ledger and the score of a post: what a vote request is about. *)
Definition ledger_and_score (p : uuid) (d : db) : list Votes.row * option Z :=
  (votes d, score p d).

(** Replay of one request: the ledger and the score after two identical calls
    are those after one. *)
Definition replay_is_idempotent (now1 now2 : timestamp) (actor : option uuid)
    (p : uuid) (x : Z) (d : db) : Prop :=
  let once := snd (submitVote now1 actor p x d) in
  let twice := snd (submitVote now2 actor p x once) in
  ledger_and_score p twice = ledger_and_score p once.

(** ** A small forum *)

(** Two users, one topic, one post by the first user. *)
Definition alice : Users.row :=
  Users.mk 1%N "alice" "alice@example.org" "argon2" 0.
Definition bob : Users.row :=
  Users.mk 2%N "bob_99" "bob@example.org" "argon2" 0.
Definition general : Topics.row :=
  Topics.mk 1%N "General" (Some "General discussions about anything"%string) 0.
Definition seeded : db := mkdb [alice; bob] [general] [] [] [].
Definition first_post : request :=
  CreatePost 100 (Some 1%N) "Hello forum" "A first post for everyone" 1%N.
Definition forum : db := run [first_post] seeded.

(** The same forum after bob's upvote of the post. *)
Definition forum_upvoted : db :=
  run [first_post; Vote 200 (Some 2%N) 1%N 1] seeded.

(** ** The sort orders of [GET /api/posts] *)

(** The query parameter [sort]. *)
Inductive sort := hot | new | top.

Definition usec_per_hour : Z := 3600000000.

(** The base of the power in the hot score,
    [EXTRACT(EPOCH FROM (now - created_at)) / 3600 + 2], counted in
    microseconds (that is, times [usec_per_hour]). *)
Definition hot_base (now : timestamp) (r : Posts.row) : Z :=
  now - Posts.created_at r + 2 * usec_per_hour.

(** [POWER(b, 1.5)] raises on a negative base, and the division raises on
    the zero it returns for base 0. *)
Definition hot_defined (now : timestamp) (r : Posts.row) : result unit :=
  if hot_base now r <? 0 then Err invalid_argument_for_power_function
  else if hot_base now r =? 0 then Err division_by_zero
  else Ok tt.

Fixpoint all_defined (now : timestamp) (rows : list Posts.row) : result unit :=
  match rows with
  | [] => Ok tt
  | r :: rest => _ <- hot_defined now r ;; all_defined now rest
  end.

(** [hours_since_posted], fractional. *)
Definition hours_since_posted (now : timestamp) (r : Posts.row) : R :=
  (IZR (now - Posts.created_at r) / 1000000 / 3600)%R.

(** [score = (upvotes - downvotes) / (hours_since_posted + 2)^1.5], the
    formula as a real number, without rounding. *)
Definition hot_score (now : timestamp) (r : Posts.row) : R :=
  (IZR (Posts.vote_count r) / Rpower (hours_since_posted now r + 2) (3 / 2))%R.

(** The arithmetic the database evaluates the score expression in (double
    precision, or [numeric]): its values, its operations with the rounding
    they have there, the order [ORDER BY] compares values with, and the
    number a value stands for.  What an operation raises is in
    [hot_defined]. *)
Record arithmetic := mk_arithmetic {
  num : Type;
  (* an INTEGER operand *)
  num_of_integer : Z -> num;
  (* a decimal literal: digits and number of decimals, 1.5 is (15, 1) *)
  num_literal : Z -> nat -> num;
  (* EXTRACT(EPOCH FROM i), the seconds of an interval of so many microseconds *)
  EXTRACT_EPOCH : Z -> num;
  num_add : num -> num -> num;
  num_div : num -> num -> num;
  POWER : num -> num -> num;
  num_le : num -> num -> bool;
  num_real : num -> R
}.

(** [vote_count / POWER(EXTRACT(EPOCH FROM (now - created_at)) / 3600 + 2, 1.5)]
    as the database computes it: the key the hot feed is sorted by. *)
Definition hot_key (A : arithmetic) (now : timestamp) (r : Posts.row) : num A :=
  num_div A
    (num_of_integer A (Posts.vote_count r))
    (POWER A
       (num_add A
          (num_div A (EXTRACT_EPOCH A (now - Posts.created_at r))
                     (num_of_integer A 3600))
          (num_of_integer A 2))
       (num_literal A 15 1)).

(** The arithmetic without rounding: the real numbers. *)
Definition exact : arithmetic :=
  mk_arithmetic R IZR
    (fun digits decimals => (IZR digits / 10 ^ decimals)%R)
    (fun usec => (IZR usec / 1000000)%R)
    Rplus Rdiv Rpower
    (fun x y => if Rle_dec x y then true else false)
    (fun x => x).

(** [ORDER BY ... DESC]: whether row [a] may stand before row [b]. *)
Definition precedes (A : arithmetic) (m : sort) (now : timestamp)
    (a b : Posts.row) : bool :=
  match m with
  | hot => num_le A (hot_key A now b) (hot_key A now a)
  | new => Posts.created_at b <=? Posts.created_at a
  | top => Posts.vote_count b <=? Posts.vote_count a
  end.

Section OrderBy.
Context {A : Type} (before : A -> A -> bool).

Fixpoint insert_by (x : A) (l : list A) : list A :=
  match l with
  | [] => [x]
  | y :: rest => if before x y then x :: l else y :: insert_by x rest
  end.

(** The rows in order.  [ORDER BY] leaves the order of rows with equal keys
    open; this is the execution that keeps them in the order they were read
    in, one of those [ORDER BY] allows ([ranking] below has them all). *)
Definition order_by (l : list A) : list A := fold_right insert_by [] l.
End OrderBy.

(** The feed in the order of [sort], evaluated at time [now], in one
    execution of the query. *)
Definition rank (A : arithmetic) (m : sort) (now : timestamp)
    (rows : list Posts.row) : result (list Posts.row) :=
  match m with
  | hot => _ <- all_defined now rows ;; Ok (order_by (precedes A hot now) rows)
  | _ => Ok (order_by (precedes A m now) rows)
  end.

(** What each sort order asks of a row [a] standing before a row [b]; for
    [hot], of the keys as computed. *)
Definition descending (A : arithmetic) (m : sort) (now : timestamp)
    (a b : Posts.row) : Prop :=
  match m with
  | hot => num_le A (hot_key A now b) (hot_key A now a) = true
  | new => Posts.created_at b <= Posts.created_at a
  | top => Posts.vote_count b <= Posts.vote_count a
  end.

(** The orderings [ORDER BY] allows for the rows, whatever it does with rows
    of equal keys. *)
Definition ranking (A : arithmetic) (m : sort) (now : timestamp)
    (rows out : list Posts.row) : Prop :=
  Permutation rows out /\ StronglySorted (descending A m now) out.

(** The order of the arithmetic is a total preorder, as the order of a
    data type that [ORDER BY] sorts by is. *)
Record total_preorder (A : arithmetic) : Prop := mk_total_preorder {
  num_le_total : forall x y, num_le A x y = false -> num_le A y x = true;
  num_le_trans :
    forall x y z, num_le A x y = true -> num_le A y z = true ->
                  num_le A x z = true
}.

(** The arithmetic computes the hot score within the relative error [eps],
    and orders computed scores as the numbers they stand for. *)
Record accurate (eps : R) (A : arithmetic) : Prop := mk_accurate {
  order_of_the_reals :
    forall now a b,
      0 < hot_base now a -> 0 < hot_base now b ->
      (num_le A (hot_key A now b) (hot_key A now a) = true
       <-> (num_real A (hot_key A now b) <= num_real A (hot_key A now a))%R);
  relative_error :
    forall now r,
      0 < hot_base now r ->
      (Rabs (num_real A (hot_key A now r) - hot_score now r)
       <= eps * Rabs (hot_score now r))%R
}.

(** Descending hot scores, up to the relative error [eps] of each. *)
Definition descending_within (eps : R) (now : timestamp) (a b : Posts.row)
  : Prop :=
  (hot_score now b - eps * Rabs (hot_score now b)
   <= hot_score now a + eps * Rabs (hot_score now a))%R.



(** A post created at [now] with score 10 and one created 48 hours before
    with score 12. *)
Definition fresh_ten : Posts.row :=
  Posts.mk 1%N 1%N (Some 1%N) "Fresh post" "Ten votes, just posted" 10
           (48 * usec_per_hour) (48 * usec_per_hour).
Definition old_twelve : Posts.row :=
  Posts.mk 2%N 1%N (Some 1%N) "Older post" "Twelve votes, two days old" 12 0 0.

(** ** The [PostCard] component *)

Module PostCard.
(** The JavaScript values the props carry. *)
Inductive js :=
| undefined
| null
| boolean (b : bool)
| number (n : Z)
| text (s : string).

(** The test of [c ? a : b]. *)
Definition truthy (v : js) : bool :=
  match v with
  | undefined | null => false
  | boolean b => b
  | number n => negb (n =? 0)
  | text s => negb (String.eqb s EmptyString)
  end.

(** The props [{data, content}]. *)
Record data := mk_data {
  upvote : js;
  downvote : js;
  comments : js;
  shares : js
}.
Record content := mk_content {
  post : js;
  image : js;
  video : js
}.
Record props := mk_props {
  props_data : data;
  props_content : content
}.

(** The functions declared in the component that are used as [onClick]. *)
Inductive handler := handleUpvote | handleDownvote | handleComment | handleShare.

(** What a statement of a handler could do: send a request to the API, or
    replace what the card shows. *)
Inductive statement :=
| fetch (r : request)
| show (p : props).

(** The page: the backend the card talks to and the props it is shown with. *)
Record page := mk_page {
  server : db;
  shown : props
}.

Definition exec (s : statement) (w : page) : page :=
  match s with
  | fetch r => mk_page (serve r (server w)) (shown w)
  | show p => mk_page (server w) p
  end.

(** The bodies of the handlers: all four are [{}]. *)
Definition body (h : handler) : list statement :=
  match h with
  | handleUpvote => []
  | handleDownvote => []
  | handleComment => []
  | handleShare => []
  end.

(** [handleMultipleMedia(array)]: the body holds comments only, the call
    evaluates to [undefined]. *)
Definition handleMultipleMedia (array : js) : js := undefined.

(** The element tree of the JSX. *)
#[warnings="-register-all"]
Inductive node :=
| expr (v : js)
| literal (s : string)
| element (tag : string) (className : option string)
    (onClick : option handler) (children : list node).

Definition button (h : handler) (label : string) (count : js) : node :=
  element "button" None (Some h) [literal label; expr count].

(** The [return (...)] of the component. *)
Definition render (p : props) : node :=
  let data := props_data p in
  let content := props_content p in
  element "div" (Some "post-card"%string) None
    [ element "div" (Some "post-content"%string) None
        [ (if truthy (post content)
           then element "p" None None [expr (post content)]
           else expr (text EmptyString));
          expr (handleMultipleMedia (image content));
          expr (handleMultipleMedia (video content)) ];
      element "div" (Some "postButtons"%string) None
        [ button handleUpvote "upvote " (upvote data);
          button handleDownvote "downvote " (downvote data);
          button handleComment "Comment " (comments data);
          button handleShare "Share " (shares data) ] ].

(** The [onClick] handlers of the buttons of a tree, in document order. *)
Fixpoint onClicks (n : node) : list handler :=
  match n with
  | element _ _ h children =>
      (match h with Some x => [x] | None => [] end)
      ++ flat_map onClicks children
  | _ => []
  end.

(** A click on the [i]-th button of the card: its handler runs. *)
Definition click (i : nat) (w : page) : page :=
  match nth_error (onClicks (render (shown w))) i with
  | Some h => fold_left (fun w s => exec s w) (body h) w
  | None => w
  end.

(** The upvote button is button 0, the downvote button is button 1. *)
Definition upvote_button : nat := 0.
Definition downvote_button : nat := 1.
End PostCard.

(** ** Counting votes *)

(** The post whose score a row trigger event updates. *)
Definition tg_post (op : TG_OP) : uuid :=
  match op with
  | INSERT NEW => Votes.post_id NEW
  | DELETE OLD => Votes.post_id OLD
  | UPDATE OLD NEW => Votes.post_id NEW
  end.

(** The rows of [votes] on post [p] with the given value. *)
Definition votes_with (x : Z) (p : uuid) (vs : list Votes.row) : list Votes.row :=
  filter (fun v => N.eqb (Votes.post_id v) p && (Votes.vote_type v =? x)) vs.

(** [upvotes] and [downvotes] of the field explanation
    "vote_count: Net votes (upvotes - downvotes)". *)
Definition upvotes (p : uuid) (vs : list Votes.row) : Z :=
  Z.of_nat (List.length (votes_with 1 p vs)).
Definition downvotes (p : uuid) (vs : list Votes.row) : Z :=
  Z.of_nat (List.length (votes_with (-1) p vs)).

(** [user_vote] as the feed reports it: 0 when the user has not voted. *)
Definition current_vote (u p : uuid) (d : db) : Z :=
  match existing_vote u p d with
  | Some v => v
  | None => 0
  end.

(** A row of [posts] after an [UPDATE posts SET vote_count = ...] at time
    [now]: the new score, and [updated_at] set by the row trigger. *)
Definition touched (now : timestamp) (r r' : Posts.row) : Prop :=
  r' = update_updated_at_column now (Posts.set_vote_count (Posts.vote_count r') r).

(** ** Reports *)

(** The rows of [reports] written by user [u] on post [p]. *)
Definition reports_by (u p : uuid) (rs : list Reports.row) : list Reports.row :=
  filter (fun r => eq_opt_uuid (Reports.reporter_id r) u
                   && N.eqb (Reports.post_id r) p) rs.

(** What the constraints of [reports] maintain. *)
Record reports_consistent (d : db) : Prop := mk_reports_consistent {
  (* post_id UUID NOT NULL REFERENCES posts(id) *)
  reports_reference_posts :
    Forall (fun r => post_exists (Reports.post_id r) d = true) (reports d);
  (* CONSTRAINT unique_user_post_report UNIQUE (reporter_id, post_id) *)
  reports_unique :
    forall u p, (List.length (reports_by u p (reports d)) <= 1)%nat
}.

(** [id IN (ps)] *)
Definition among (ps : list uuid) (i : uuid) : bool := existsb (N.eqb i) ps.

(** ** The [VoteButtons] component *)

Module VoteButtons.
(** The props [{ post_id, vote_count, user_vote }]; [user_vote] is
    [1 | -1 | 0 | null]. *)
Record props := mk_props {
  post_id : uuid;
  vote_count : Z;
  user_vote : option Z
}.

Inductive arrow := upvote | downvote.

(** [user_vote === v] *)
Definition strictly_equal (user_vote : option Z) (v : Z) : bool :=
  match user_vote with
  | Some x => x =? v
  | None => false
  end.

(** The [vote] of the API call a click sends. *)
Definition vote_of_click (a : arrow) (user_vote : option Z) : Z :=
  match a with
  | upvote => if strictly_equal user_vote 1 then 0 else 1
  | downvote => if strictly_equal user_vote (-1) then 0 else -1
  end.

(** What a click ends in: the tooltip, the [onVoteChange] callback with the
    answer of the API, or the error of a rejected call. *)
Inductive outcome :=
| tooltip (text : string)
| onVoteChange (newVoteCount newUserVote : Z)
| rejected (e : error_code).
End VoteButtons.

(** A click on an arrow of [VoteButtons] by [viewer], the logged-in user if
    any: the API call, and what the component does with its answer. *)
Definition vote_click (now : timestamp) (viewer : option uuid)
    (a : VoteButtons.arrow) (pr : VoteButtons.props) (d : db)
  : VoteButtons.outcome * db :=
  match viewer with
  | None => (VoteButtons.tooltip "Login to vote", d)
  | Some u =>
      match submitVote now (Some u) (VoteButtons.post_id pr)
              (VoteButtons.vote_of_click a (VoteButtons.user_vote pr)) d with
      | (inl resp, d') =>
          (VoteButtons.onVoteChange (vote_count resp) (user_vote resp), d')
      | (inr e, d') => (VoteButtons.rejected e, d')
      end
  end.

(** ** The session on the client: [AuthContext.jsx] and [api.js] *)

Module AuthContext.
(** The JSON bodies of [GET /api/auth/me]. *)
Inductive json :=
| user_info (id : uuid) (username email : string) (created_at : timestamp)
| error_body (error code : string).

(** What [fetch] resolves to; [body] is [None] when [res.json()] rejects. *)
Record response := mk_response {
  status : Z;
  body : option json
}.

(** [response.ok] *)
Definition ok (res : response) : bool :=
  (200 <=? status res) && (status res <=? 299).

(** The state of [AuthProvider] and the item ['token'] of [localStorage]. *)
Record state := mk_state {
  token : option string;
  user : option json;
  loading : bool
}.

(** [useState(null)], [useState(true)], over what the browser has stored. *)
Definition initial (stored : option string) : state :=
  mk_state stored None true.

(** [if (token)]: [null] and the empty string are falsy. *)
Definition truthy (t : option string) : bool :=
  match t with
  | Some s => negb (String.eqb s EmptyString)
  | None => false
  end.

(** The effect run on mount.  [fetch] takes the [Authorization] header of the
    request to [/api/auth/me] and is [None] when the request itself fails;
    [.finally] runs in every case. *)
Definition useEffect (fetch : string -> option response) (s : state) : state :=
  match token s with
  | Some t =>
      if truthy (Some t) then
        match fetch ("Bearer " ++ t)%string with
        | Some res =>
            match body res with
            | Some data => mk_state (token s) (Some data) false
            | None => mk_state (token s) (user s) false
            end
        | None => mk_state (token s) (user s) false
        end
      else mk_state (token s) (user s) false
  | None => mk_state (token s) (user s) false
  end.



(** [api.js] *)
Definition getToken (s : state) : option string := token s.

Definition getHeaders (s : state) : list (string * string) :=
  ("Content-Type", "application/json")%string
  :: match getToken s with
     | Some t =>
         if truthy (Some t) then [("Authorization", "Bearer " ++ t)%string]
         else []
     | None => []
     end.



(** [if (user)]: the test the components use for "logged in". *)
Definition logged_in (s : state) : bool :=
  match user s with
  | Some _ => true
  | None => false
  end.
End AuthContext.

(** The server's side of a request: the user a session token stands for, the
    actor of a request with the given headers, and [GET /api/auth/me]. *)
Section Sessions.
Variable sessions : string -> option uuid.

Definition actor_of (headers : list (string * string)) : option uuid :=
  match find (fun h => String.eqb (fst h) "Authorization") headers with
  | Some h => sessions (snd h)
  | None => None
  end.

Definition auth_me (d : db) (authorization : string) : AuthContext.response :=
  match sessions authorization with
  | Some u =>
      match find (fun r => N.eqb (Users.id r) u) (users d) with
      | Some r =>
          AuthContext.mk_response 200
            (Some (AuthContext.user_info (Users.id r) (Users.username r)
                     (Users.email r) (Users.created_at r)))
      | None =>
          AuthContext.mk_response 401
            (Some (AuthContext.error_body "Not authenticated" "UNAUTHORIZED"))
      end
  | None =>
      AuthContext.mk_response 401
        (Some (AuthContext.error_body "Not authenticated" "UNAUTHORIZED"))
  end.
End Sessions.

(** ** Foreign keys *)

(** [topic_id ... REFERENCES topics(id)] for one row of [posts]. *)
Definition topic_referenced (r : Posts.row) (d : db) : bool :=
  existsb (fun t => eq_opt_uuid (Posts.topic_id r) (Topics.id t)) (topics d).

(** [reporter_id UUID REFERENCES users(id)]; a NULL references nothing. *)
Definition reporter_referenced (r : Reports.row) (d : db) : bool :=
  match Reports.reporter_id r with
  | Some u => user_exists u d
  | None => true
  end.

(** What the foreign keys into [users] and [topics] maintain. *)
Record references_hold (d : db) : Prop := mk_references_hold {
  posts_reference_users :
    Forall (fun r => user_exists (Posts.user_id r) d = true) (posts d);
  posts_reference_topics :
    Forall (fun r => topic_referenced r d = true) (posts d);
  votes_reference_users :
    Forall (fun v => user_exists (Votes.user_id v) d = true) (votes d);
  reports_reference_users :
    Forall (fun r => reporter_referenced r d = true) (reports d)
}.

(** The small forum with the score of its post at the largest INTEGER. *)
Definition saturated : db :=
  mkdb [alice; bob] [general]
       [Posts.mk 1%N 1%N (Some 1%N) "Hello forum" "A first post for everyone"
                 int4_max 100 100]
       [] [].

(** ** Rows of a feed *)

(** A row of [posts] and a later version of it with the same identifier,
    author, topic, title, content and creation time. *)
Definition same_post (r r' : Posts.row) : Prop :=
  Posts.id r' = Posts.id r
  /\ Posts.user_id r' = Posts.user_id r
  /\ Posts.topic_id r' = Posts.topic_id r
  /\ Posts.title r' = Posts.title r
  /\ Posts.content r' = Posts.content r
  /\ Posts.created_at r' = Posts.created_at r.


(** The small forum with a second post, by bob, created after the first. *)
Definition second_post : request :=
  CreatePost 150 (Some 2%N) "Second post" "Another post for everyone" 1%N.
Definition forum_two : db := run [first_post; second_post] seeded.

(** * Proofs *)

(** ** Results and 32-bit arithmetic *)

Lemma bind_Ok {A B} (m : result A) (k : A -> result B) (b : B) :
  bind m k = Ok b -> exists a, m = Ok a /\ k a = Ok b.
Proof.
  destruct m as [a|e]; simpl; intros H; [eauto | discriminate].
Qed.

Lemma int4_Ok (z c : Z) : int4 z = Ok c -> c = z /\ in_int4 z = true.
Proof.
  unfold int4. destruct (in_int4 z); intros H; inversion H; auto.
Qed.

Lemma int4_in (z : Z) : in_int4 z = true -> int4 z = Ok z.
Proof. unfold int4. intros ->. reflexivity. Qed.

Lemma in_int4_spec (z : Z) :
  in_int4 z = true <-> int4_min <= z <= int4_max.
Proof.
  unfold in_int4. rewrite andb_true_iff, !Z.leb_le. tauto.
Qed.

Lemma vote_type_check_spec (v : Z) :
  Votes.vote_type_check v = true <-> v = -1 \/ v = 1.
Proof.
  unfold Votes.vote_type_check. rewrite orb_true_iff, !Z.eqb_eq. tauto.
Qed.

Lemma list_max_N_ge (l : list N) (x : N) : In x l -> (x <= list_max_N l)%N.
Proof.
  induction l as [|y l IH]; simpl; [tauto|].
  intros [->|H]; [lia | specialize (IH H); lia].
Qed.

Lemma gen_random_uuid_fresh (used : list uuid) : ~ In (gen_random_uuid used) used.
Proof.
  intros H. apply list_max_N_ge in H. unfold gen_random_uuid in H. lia.
Qed.

(** ** Sums of votes *)

Lemma vote_sum_app (p : uuid) (a b : list Votes.row) :
  vote_sum p (a ++ b) = vote_sum p a + vote_sum p b.
Proof. induction a as [|v a IH]; simpl; [reflexivity | rewrite IH; lia]. Qed.

Lemma vote_sum_delete (p : uuid) (cond : Votes.row -> bool) (vs : list Votes.row) :
  vote_sum p (filter (fun r => negb (cond r)) vs)
  = vote_sum p vs + delta_sum p (map DELETE (filter cond vs)).
Proof.
  induction vs as [|v vs IH]; simpl; [reflexivity|].
  destruct (cond v); simpl; rewrite IH;
    destruct (N.eqb (Votes.post_id v) p); lia.
Qed.

Lemma vote_sum_update (p : uuid) (cond : Votes.row -> bool) (x : Z)
    (vs : list Votes.row) :
  vote_sum p (map (fun r => if cond r then Votes.set_vote_type x r else r) vs)
  = vote_sum p vs
    + delta_sum p
        (map (fun OLD => UPDATE OLD (Votes.set_vote_type x OLD)) (filter cond vs)).
Proof.
  induction vs as [|v vs IH]; simpl; [reflexivity|].
  destruct (cond v); simpl; rewrite IH;
    destruct (N.eqb (Votes.post_id v) p); lia.
Qed.

Lemma vote_sum_none (p : uuid) (vs : list Votes.row) :
  Forall (fun v => Votes.post_id v <> p) vs -> vote_sum p vs = 0.
Proof.
  induction 1 as [|v vs Hv _ IH]; simpl; [reflexivity|].
  apply N.eqb_neq in Hv. rewrite Hv, IH. reflexivity.
Qed.

(** ** The trigger functions *)

Lemma rescored_refl (r : Posts.row) : rescored 0 r r.
Proof. unfold rescored. repeat split; auto; lia. Qed.

Lemma rescored_trans (j k : Z) (a b c : Posts.row) :
  rescored j a b -> rescored k b c -> rescored (j + k) a c.
Proof.
  unfold rescored. intros (?&?&?&?&?&?&?&?) (?&?&?&?&?&?&?&?).
  repeat split; try congruence; [lia | auto].
Qed.

Lemma update_posts_set_vote_count_Ok now e pid rows rows' :
  update_posts_set_vote_count now e pid rows = Ok rows' ->
  Forall2
    (fun r r' =>
       if N.eqb (Posts.id r) pid
       then exists c, e (Posts.vote_count r) = Ok c
                      /\ r' = update_updated_at_column now (Posts.set_vote_count c r)
       else r' = r)
    rows rows'.
Proof.
  revert rows'. induction rows as [|r rows IH]; simpl; intros rows' H.
  - inversion H. constructor.
  - apply bind_Ok in H. destruct H as (r1 & Hr & H).
    apply bind_Ok in H. destruct H as (rest & Hrest & H).
    inversion H; subst. constructor; [|auto].
    destruct (N.eqb (Posts.id r) pid).
    + apply bind_Ok in Hr. destruct Hr as (c & Hc & Hr).
      inversion Hr. eauto.
    + inversion Hr. reflexivity.
Qed.

Lemma update_post_vote_count_Ok now op rows rows' :
  update_post_vote_count now op rows = Ok rows' ->
  Forall2 (fun r r' => rescored (delta (Posts.id r) op) r r') rows rows'.
Proof.
  intros H.
  assert (G : forall e pid k,
    update_posts_set_vote_count now e pid rows = Ok rows' ->
    (forall c c', e c = Ok c' -> c' = c + k /\ in_int4 c' = true) ->
    Forall2 (fun r r' =>
      rescored (if N.eqb pid (Posts.id r) then k else 0) r r') rows rows').
  { intros e pid k He Hk. apply update_posts_set_vote_count_Ok in He.
    eapply Forall2_impl; [|exact He]. simpl. intros r r' Hr.
    rewrite (N.eqb_sym pid). destruct (N.eqb (Posts.id r) pid).
    - destruct Hr as (c & Hc & ->). apply Hk in Hc. destruct Hc as [-> Hin].
      unfold rescored. simpl. repeat split; auto.
    - subst. apply rescored_refl. }
  destruct op as [NEW|OLD|OLD NEW]; simpl in *.
  - eapply Forall2_impl; [|eapply (G _ _ (Votes.vote_type NEW)); eauto].
    + simpl. intros r r'. destruct (N.eqb _ _); auto.
    + intros c c' Hc. apply int4_Ok in Hc. destruct Hc as [-> Hc]. auto.
  - eapply Forall2_impl; [|eapply (G _ _ (- Votes.vote_type OLD)); eauto].
    + simpl. intros r r'. destruct (N.eqb _ _); auto.
    + intros c c' Hc. apply int4_Ok in Hc. destruct Hc as [-> Hc].
      split; [lia|auto].
  - eapply Forall2_impl;
      [|eapply (G _ _ (Votes.vote_type NEW - Votes.vote_type OLD)); eauto].
    + simpl. intros r r'. destruct (N.eqb _ _); auto.
    + intros c c' Hc. apply bind_Ok in Hc. destruct Hc as (t & Ht & Hc).
      apply int4_Ok in Ht. apply int4_Ok in Hc.
      destruct Ht as [-> _], Hc as [-> Hc]. split; [lia|auto].
Qed.

Lemma Forall2_chain {A : Type} (R1 R2 R3 : A -> A -> Prop) (l1 l2 l3 : list A) :
  (forall a b c, R1 a b -> R2 b c -> R3 a c) ->
  Forall2 R1 l1 l2 -> Forall2 R2 l2 l3 -> Forall2 R3 l1 l3.
Proof.
  intros HR H12. revert l3.
  induction H12 as [|a b l1 l2 Hab _ IH]; intros l3 H23; inversion H23; subst.
  - constructor.
  - constructor; eauto.
Qed.

Lemma Forall2_same {A : Type} (R : A -> A -> Prop) (l : list A) :
  (forall a, R a a) -> Forall2 R l l.
Proof. intros HR. induction l; constructor; auto. Qed.

Lemma fire_Ok now ops rows rows' :
  fire now ops rows = Ok rows' ->
  Forall2 (fun r r' => rescored (delta_sum (Posts.id r) ops) r r') rows rows'.
Proof.
  revert rows. induction ops as [|op ops IH]; simpl; intros rows H.
  - inversion H; subst. apply Forall2_same. intros r. apply rescored_refl.
  - apply bind_Ok in H. destruct H as (rows1 & H1 & H2).
    apply update_post_vote_count_Ok in H1. apply IH in H2.
    eapply Forall2_chain; [|exact H1|exact H2].
    simpl. intros a b c Hab Hbc.
    assert (E : Posts.id b = Posts.id a) by apply Hab.
    rewrite E in Hbc. eapply rescored_trans; eauto.
Qed.

(** Rows that keep their [id] keep being found. *)
Lemma find_rescored (K : uuid -> Z) (p : uuid) (rows rows' : list Posts.row) :
  Forall2 (fun r r' => rescored (K (Posts.id r)) r r') rows rows' ->
  match find (fun r => N.eqb (Posts.id r) p) rows with
  | Some r =>
      exists r', find (fun r => N.eqb (Posts.id r) p) rows' = Some r'
                 /\ rescored (K p) r r'
  | None => find (fun r => N.eqb (Posts.id r) p) rows' = None
  end.
Proof.
  induction 1 as [|r r' rows rows' Hr _ IH]; simpl; [reflexivity|].
  assert (E : Posts.id r' = Posts.id r) by apply Hr. rewrite E.
  destruct (N.eqb (Posts.id r) p) eqn:Hp; [|exact IH].
  apply N.eqb_eq in Hp. subst p. eauto.
Qed.

Lemma existsb_rescored (K : uuid -> Z) (p : uuid) (rows rows' : list Posts.row) :
  Forall2 (fun r r' => rescored (K (Posts.id r)) r r') rows rows' ->
  existsb (fun r => N.eqb (Posts.id r) p) rows'
  = existsb (fun r => N.eqb (Posts.id r) p) rows.
Proof.
  induction 1 as [|r r' rows rows' Hr _ IH]; simpl; [reflexivity|].
  assert (E : Posts.id r' = Posts.id r) by apply Hr. rewrite E, IH. reflexivity.
Qed.

(** ** Keys of the ledger *)

Lemma by_user_post_key (u p : uuid) (r : Votes.row) :
  Votes.by_user_post u p r = true <-> Votes.key r = (u, p).
Proof.
  unfold Votes.by_user_post, Votes.key.
  rewrite andb_true_iff, !N.eqb_eq. split.
  - intros [-> ->]. reflexivity.
  - intros H. inversion H. auto.
Qed.

Lemma NoDup_map_filter {A B : Type} (f : A -> B) (c : A -> bool) (l : list A) :
  NoDup (map f l) -> NoDup (map f (filter c l)).
Proof.
  induction l as [|a l IH]; simpl; intros H; [constructor|].
  inversion H as [|? ? Hn Hd]; subst. destruct (c a); simpl; auto.
  constructor; auto. intros Hin. apply Hn.
  apply in_map_iff in Hin. destruct Hin as (x & Hx & Hin).
  apply filter_In in Hin. apply in_map_iff. exists x. tauto.
Qed.

Lemma map_key_update (cond : Votes.row -> bool) (x : Z) (vs : list Votes.row) :
  map Votes.key (map (fun r => if cond r then Votes.set_vote_type x r else r) vs)
  = map Votes.key vs.
Proof.
  rewrite map_map. apply map_ext. intros r. destruct (cond r); reflexivity.
Qed.

Lemma existsb_by_user_post_false (u p : uuid) (vs : list Votes.row) :
  existsb (Votes.by_user_post u p) vs = false -> ~ In (u, p) (map Votes.key vs).
Proof.
  intros H Hin. apply in_map_iff in Hin. destruct Hin as (r & Hk & Hin).
  assert (T : existsb (Votes.by_user_post u p) vs = true).
  { apply existsb_exists. exists r. split; [exact Hin|].
    apply by_user_post_key. exact Hk. }
  congruence.
Qed.

(** ** Statements keep the schema invariants *)

Lemma consistent_build us ts rs posts0 posts' vs vs' (K : uuid -> Z) :
  Forall (fun r => in_int4 (Posts.vote_count r) = true) posts0 ->
  Forall (fun r => Posts.vote_count r = vote_sum (Posts.id r) vs) posts0 ->
  Forall2 (fun r r' => rescored (K (Posts.id r)) r r') posts0 posts' ->
  (forall p, vote_sum p vs' = vote_sum p vs + K p) ->
  NoDup (map Votes.key vs') ->
  Forall (fun v => Votes.vote_type_check (Votes.vote_type v) = true) vs' ->
  Forall (fun v => existsb (fun r => N.eqb (Posts.id r) (Votes.post_id v)) posts0
                   = true) vs' ->
  consistent (mkdb us ts posts' vs' rs).
Proof.
  intros Hint Hsum Hres HK Hnd Hck Hfk. constructor; simpl; auto.
  - eapply Forall_impl; [|exact Hfk]. simpl. intros v Hv.
    unfold post_exists. simpl. erewrite existsb_rescored; eauto.
  - clear - Hint Hres. induction Hres as [|r r' l l' Hr _ IH]; [constructor|].
    inversion Hint; subst. constructor; [apply Hr; assumption | auto].
  - clear - Hsum Hres HK. induction Hres as [|r r' l l' Hr _ IH]; [constructor|].
    inversion Hsum as [|? ? Hs Hrest]; subst. constructor; [|auto].
    destruct Hr as (Hid & _ & _ & _ & _ & _ & Hvc & _).
    rewrite Hvc, Hid, HK, Hs. reflexivity.
Qed.

Lemma consistent_ext (d d' : db) :
  posts d' = posts d -> votes d' = votes d -> consistent d -> consistent d'.
Proof.
  intros Hp Hv [H1 H2 H3 H4 H5]. unfold post_exists in *.
  constructor; unfold post_exists; rewrite ?Hp, ?Hv; assumption.
Qed.

Lemma insert_vote_consistent now u p v d d' :
  consistent d -> insert_vote now u p v d = Ok d' -> consistent d'.
Proof.
  intros [H1 H2 H3 H4 H5] H. unfold insert_vote in H.
  destruct (Votes.vote_type_check v) eqn:Hck; [|discriminate]. cbn [negb] in H.
  destruct (existsb (fun r => N.eqb (Votes.id r) _) (votes d)); [discriminate|].
  destruct (existsb (Votes.by_user_post u p) (votes d)) eqn:Huq; [discriminate|].
  destruct (user_exists u d); [|discriminate]. cbn [negb] in H.
  destruct (post_exists p d) eqn:Hex; [|discriminate]. cbn [negb] in H.
  apply bind_Ok in H. destruct H as (posts' & Hf & H). inversion H; subst d'.
  apply update_post_vote_count_Ok in Hf. unfold with_posts, with_votes. simpl.
  eapply consistent_build with (posts0 := posts d) (vs := votes d)
    (K := fun q => delta q (INSERT
            (Votes.mk (gen_random_uuid (map Votes.id (votes d))) u p v now)));
    [exact H4 | exact H5 | exact Hf | | | |].
  - intros q. rewrite vote_sum_app. simpl. lia.
  - rewrite map_app. simpl.
    apply NoDup_app; [exact H1 | repeat constructor; simpl; tauto |].
    intros k Hk [<-|[]]. revert Hk. apply existsb_by_user_post_false. exact Huq.
  - apply Forall_app. split; [exact H2|]. repeat constructor. exact Hck.
  - apply Forall_app. split; [exact H3|]. repeat constructor. exact Hex.
Qed.

Lemma Forall_filter_keep {A : Type} (P : A -> Prop) (c : A -> bool) (l : list A) :
  Forall P l -> Forall P (filter c l).
Proof.
  rewrite !Forall_forall. intros H x Hx. apply filter_In in Hx. apply H, Hx.
Qed.

Lemma delete_votes_consistent now cond d d' :
  consistent d -> delete_votes now cond d = Ok d' -> consistent d'.
Proof.
  intros [H1 H2 H3 H4 H5] H. unfold delete_votes in H.
  apply bind_Ok in H. destruct H as (posts' & Hf & H). inversion H; subst d'.
  apply fire_Ok in Hf. unfold with_posts, with_votes. simpl.
  eapply consistent_build with (posts0 := posts d) (vs := votes d)
    (K := fun q => delta_sum q (map DELETE (filter cond (votes d))));
    [exact H4 | exact H5 | exact Hf | | | |].
  - intros q. apply vote_sum_delete.
  - apply NoDup_map_filter. exact H1.
  - apply Forall_filter_keep. exact H2.
  - apply Forall_filter_keep. exact H3.
Qed.

Lemma update_votes_consistent now cond v d d' :
  consistent d -> update_votes now cond v d = Ok d' -> consistent d'.
Proof.
  intros [H1 H2 H3 H4 H5] H. unfold update_votes in H.
  destruct (negb (Votes.vote_type_check v)
            && negb (Nat.eqb (List.length (filter cond (votes d))) 0)) eqn:Hck;
    [discriminate|].
  apply bind_Ok in H. destruct H as (posts' & Hf & H). inversion H; subst d'.
  apply fire_Ok in Hf. unfold with_posts, with_votes. simpl.
  eapply consistent_build with (posts0 := posts d) (vs := votes d)
    (K := fun q => delta_sum q
            (map (fun OLD => UPDATE OLD (Votes.set_vote_type v OLD))
                 (filter cond (votes d))));
    [exact H4 | exact H5 | exact Hf | | | |].
  - intros q. apply vote_sum_update.
  - rewrite map_key_update. exact H1.
  - apply Forall_map. rewrite Forall_forall in *. intros r Hr.
    destruct (cond r) eqn:Hc; [|auto]. simpl.
    destruct (Votes.vote_type_check v); [reflexivity|]. simpl in Hck.
    assert (Hin : In r (filter cond (votes d))) by (apply filter_In; auto).
    destruct (filter cond (votes d)); [destruct Hin | discriminate].
  - apply Forall_map. rewrite Forall_forall in *. intros r Hr.
    specialize (H3 r Hr). destruct (cond r); exact H3.
Qed.

Lemma vote_statement_consistent now u p v d d' :
  consistent d -> vote_statement now u p v d = Ok d' -> consistent d'.
Proof.
  intros Hc H. unfold vote_statement in H.
  destruct (existing_vote u p d) as [existing|].
  - destruct (v =? existing);
      [|destruct (v =? 0)];
      eauto using delete_votes_consistent, update_votes_consistent.
  - eauto using insert_vote_consistent.
Qed.

Lemma submitVote_consistent now actor p v d :
  consistent d -> consistent (snd (submitVote now actor p v d)).
Proof.
  intros Hc. unfold submitVote. destruct actor as [u|]; [|exact Hc].
  destruct (post_exists p d); [|exact Hc]. cbn [negb].
  destruct (vote_statement now u p v d) as [d'|e] eqn:H; [|exact Hc].
  destruct (score p d'); simpl; [|exact Hc].
  eapply vote_statement_consistent; eauto.
Qed.

Lemma consistent_map_posts (f : Posts.row -> Posts.row) (d : db) :
  (forall r, Posts.id (f r) = Posts.id r) ->
  (forall r, Posts.vote_count (f r) = Posts.vote_count r) ->
  consistent d -> consistent (with_posts (map f (posts d)) d).
Proof.
  intros Hid Hvc [H1 H2 H3 H4 H5].
  assert (E : forall q, existsb (fun r => N.eqb (Posts.id r) q) (map f (posts d))
                        = existsb (fun r => N.eqb (Posts.id r) q) (posts d)).
  { intros q. clear - Hid. generalize (posts d). intros l.
    induction l as [|r l IH]; simpl; [reflexivity|].
    rewrite Hid, IH. reflexivity. }
  constructor; unfold post_exists; simpl; auto.
  - eapply Forall_impl; [|exact H3]. simpl. intros v Hv. rewrite E. exact Hv.
  - apply Forall_map. eapply Forall_impl; [|exact H4].
    simpl. intros r Hr. rewrite Hvc. exact Hr.
  - apply Forall_map. eapply Forall_impl; [|exact H5].
    simpl. intros r Hr. rewrite Hvc, Hid. exact Hr.
Qed.

Lemma insert_post_consistent now u t ti co d d' :
  consistent d -> insert_post now u t ti co d = Ok d' -> consistent d'.
Proof.
  intros [H1 H2 H3 H4 H5] H. unfold insert_post in H.
  destruct (negb (Posts.not_null _)); [discriminate|].
  destruct (negb (_ && _)); [discriminate|].
  destruct (post_exists _ d) eqn:Hnew; [discriminate|].
  destruct (negb (user_exists u d)); [discriminate|].
  destruct (negb (existsb _ (topics d))); [discriminate|].
  inversion H; subst d'. clear H. cbn [Posts.id] in Hnew.
  constructor; unfold post_exists; simpl; auto.
  - eapply Forall_impl; [|exact H3]. simpl. intros v Hv.
    rewrite existsb_app. unfold post_exists in Hv. rewrite Hv. reflexivity.
  - apply Forall_app. split; [exact H4|]. repeat constructor.
  - apply Forall_app. split; [exact H5|]. repeat constructor. simpl.
    symmetry. apply vote_sum_none.
    eapply Forall_impl; [|exact H3]. simpl. intros v Hv E.
    rewrite E in Hv. congruence.
Qed.

Lemma update_post_consistent now p ti co d d' :
  consistent d -> update_post now p ti co d = Ok d' -> consistent d'.
Proof.
  intros Hc H. unfold update_post in H.
  destruct (forallb _ _); [|discriminate]. inversion H; subst d'.
  apply consistent_map_posts; [| |exact Hc];
    intros r; destruct (N.eqb (Posts.id r) p); reflexivity.
Qed.

Lemma existsb_filter_ne (p q : uuid) (rows : list Posts.row) :
  q <> p ->
  existsb (fun r => N.eqb (Posts.id r) q)
          (filter (fun r => negb (N.eqb (Posts.id r) p)) rows)
  = existsb (fun r => N.eqb (Posts.id r) q) rows.
Proof.
  intros Hq. induction rows as [|r rows IH]; simpl; [reflexivity|].
  destruct (N.eqb (Posts.id r) p) eqn:Hp; simpl; rewrite IH; [|reflexivity].
  apply N.eqb_eq in Hp. rewrite Hp.
  apply N.eqb_neq in Hq. rewrite N.eqb_sym, Hq. reflexivity.
Qed.

Lemma delete_post_consistent now p d d' :
  consistent d -> delete_post now p d = Ok d' -> consistent d'.
Proof.
  intros [H1 H2 H3 H4 H5] H. unfold delete_post in H.
  apply bind_Ok in H. destruct H as (d2 & Hd & H). inversion H; subst d'. clear H.
  unfold delete_votes in Hd.
  apply bind_Ok in Hd. destruct Hd as (posts' & Hf & Hd). inversion Hd; subst d2.
  apply fire_Ok in Hf. unfold with_reports, with_posts, with_votes in *.
  simpl in *.
  eapply consistent_build
    with (posts0 := filter (fun r => negb (N.eqb (Posts.id r) p)) (posts d))
         (vs := votes d)
         (K := fun q => delta_sum q
                 (map DELETE
                    (filter (fun r => N.eqb (Votes.post_id r) p) (votes d))));
    [ apply Forall_filter_keep; exact H4
    | apply Forall_filter_keep; exact H5
    | exact Hf | | | |].
  - intros q. apply vote_sum_delete.
  - apply NoDup_map_filter. exact H1.
  - apply Forall_filter_keep. exact H2.
  - rewrite Forall_forall in *. intros v Hv. apply filter_In in Hv.
    destruct Hv as [Hv Hne]. apply negb_true_iff, N.eqb_neq in Hne.
    rewrite existsb_filter_ne by exact Hne. apply (H3 v Hv).
Qed.

Lemma delete_posts_consistent now ps d d' :
  consistent d -> delete_posts now ps d = Ok d' -> consistent d'.
Proof.
  revert d. induction ps as [|p ps IH]; simpl; intros d Hc H.
  - inversion H; subst. exact Hc.
  - apply bind_Ok in H. destruct H as (d1 & H1 & H2).
    eapply IH; [|exact H2]. eapply delete_post_consistent; eauto.
Qed.

Lemma delete_user_consistent now u d d' :
  consistent d -> delete_user now u d = Ok d' -> consistent d'.
Proof.
  intros Hc H. unfold delete_user in H.
  apply bind_Ok in H. destruct H as (d1 & H1 & H).
  apply bind_Ok in H. destruct H as (d2 & H2 & H). inversion H as [E].
  apply (consistent_ext d2); [reflexivity | reflexivity |].
  eapply delete_votes_consistent; [|exact H2].
  eapply delete_posts_consistent; eauto.
Qed.

Lemma insert_report_consistent now u p reason details d d' :
  consistent d -> insert_report now u p reason details d = Ok d' -> consistent d'.
Proof.
  intros Hc H. unfold insert_report in H.
  repeat match type of H with
         | (if ?c then _ else _) = _ => destruct c; [discriminate|]
         end.
  repeat match type of H with
         | (if ?c then _ else _) = _ => destruct c; try discriminate
         end.
  inversion H; subst d'. eapply consistent_ext; [| |exact Hc]; reflexivity.
Qed.

Lemma delete_topic_consistent now t d d' :
  consistent d -> delete_topic now t d = Ok d' -> consistent d'.
Proof.
  intros Hc H. unfold delete_topic in H.
  destruct (forallb _ _); [|discriminate]. inversion H; subst d'.
  eapply consistent_ext;
    [| |apply (consistent_map_posts
                 (fun r => if eq_opt_uuid (Posts.topic_id r) t
                           then on_delete_set_null now r else r) d);
        [| |exact Hc]];
    try reflexivity;
    intros r; destruct (eq_opt_uuid (Posts.topic_id r) t); reflexivity.
Qed.

Lemma serve_consistent (r : request) (d : db) :
  consistent d -> consistent (serve r d).
Proof.
  intros Hc. destruct r; simpl.
  - apply submitVote_consistent, Hc.
  - unfold createPost. destruct actor; [|exact Hc].
    repeat match goal with
           | |- consistent (snd (if ?c then _ else _)) => destruct c; [exact Hc|]
           end.
    destruct (insert_post _ _ _ _ _ _) eqn:H; [|exact Hc].
    simpl. eapply insert_post_consistent; eauto.
  - unfold updatePost. destruct (owned_post actor p d); [|exact Hc].
    destruct (update_post _ _ _ _ _) eqn:H; [|exact Hc].
    simpl. eapply update_post_consistent; eauto.
  - unfold deletePost. destruct (owned_post actor p d); [|exact Hc].
    destruct (delete_post _ _ _) eqn:H; [|exact Hc].
    simpl. eapply delete_post_consistent; eauto.
  - unfold reportPost. destruct actor; [|exact Hc].
    repeat match goal with
           | |- consistent (snd (if ?c then _ else _)) => destruct c; [exact Hc|]
           end.
    destruct (insert_report _ _ _ _ _ _) as [d'|e] eqn:H;
      [|destruct e; exact Hc].
    simpl. eapply insert_report_consistent; eauto.
  - destruct (delete_topic now t d) eqn:H; [|exact Hc].
    eapply delete_topic_consistent; eauto.
  - destruct (delete_user now u d) eqn:H; [|exact Hc].
    eapply delete_user_consistent; eauto.
Qed.

Lemma run_consistent (rs : list request) (d : db) :
  consistent d -> consistent (run rs d).
Proof.
  revert d. induction rs as [|r rs IH]; intros d Hc; [exact Hc|].
  simpl. apply IH, serve_consistent, Hc.
Qed.

Lemma fresh_consistent (d : db) : fresh d -> consistent d.
Proof.
  intros (Hp & Hv & _). constructor; rewrite ?Hp, ?Hv; constructor.
Qed.

Lemma reachable_consistent (d : db) : reachable d -> consistent d.
Proof.
  intros (d0 & rs & H0 & ->). apply run_consistent, fresh_consistent, H0.
Qed.

Lemma run_app (rs1 rs2 : list request) (d : db) :
  run (rs1 ++ rs2) d = run rs2 (run rs1 d).
Proof. unfold run. apply fold_left_app. Qed.

Lemma reachable_run (rs : list request) (d : db) :
  reachable d -> reachable (run rs d).
Proof.
  intros (d0 & rs0 & H0 & ->). exists d0, (rs0 ++ rs).
  split; [exact H0 | symmetry; apply run_app].
Qed.

(** ** What one vote statement does to the ledger and to the score *)

Lemma find_post_exists (p : uuid) (d : db) (s : Z) :
  score p d = Some s -> post_exists p d = true.
Proof.
  unfold score, find_post, post_exists. intros H.
  destruct (find _ (posts d)) as [r|] eqn:Hf; [|discriminate].
  apply find_some in Hf. apply existsb_exists. exists r. exact Hf.
Qed.

Lemma score_vote_sum (p : uuid) (d : db) (s : Z) :
  consistent d -> score p d = Some s -> s = vote_sum p (votes d).
Proof.
  intros Hc H. unfold score, find_post in H.
  destruct (find _ (posts d)) as [r|] eqn:Hf; [|discriminate].
  apply find_some in Hf. destruct Hf as [Hin Hid]. apply N.eqb_eq in Hid.
  inversion H; subst s. pose proof (posts_vote_sum d Hc) as Hs.
  rewrite Forall_forall in Hs. rewrite (Hs r Hin), Hid. reflexivity.
Qed.

Lemma set_vote_count_succeeds now e pid d s c :
  consistent d -> score pid d = Some s -> e s = Ok c ->
  exists posts', update_posts_set_vote_count now e pid (posts d) = Ok posts'.
Proof.
  intros Hc Hs He. apply (score_vote_sum _ _ _ Hc) in Hs.
  assert (Hall : Forall (fun r => Posts.id r = pid -> Posts.vote_count r = s)
                        (posts d)).
  { eapply Forall_impl; [|exact (posts_vote_sum d Hc)].
    simpl. intros r Hr E. rewrite Hr, E, Hs. reflexivity. }
  clear Hs Hc. revert Hall. generalize (posts d). intros rows.
  induction rows as [|r rows IH]; intros Hall; simpl; [eauto|].
  inversion Hall as [|? ? Hr Hrest]; subst.
  destruct (IH Hrest) as (rest' & ->).
  destruct (N.eqb (Posts.id r) pid) eqn:E; simpl; [|eauto].
  apply N.eqb_eq in E. rewrite (Hr E), He. simpl. eauto.
Qed.

Lemma score_after_trigger now op d posts' us ts vs rs p s :
  update_post_vote_count now op (posts d) = Ok posts' ->
  score p d = Some s ->
  score p (mkdb us ts posts' vs rs) = Some (s + delta p op).
Proof.
  intros H Hs. apply update_post_vote_count_Ok in H.
  pose proof (find_rescored (fun q => delta q op) p _ _ H) as F.
  unfold score, find_post in *. simpl.
  destruct (find _ (posts d)) as [r|]; [|discriminate].
  destruct F as (r' & -> & Hr). simpl. inversion Hs; subst s.
  f_equal. apply Hr.
Qed.

Lemma find_unique_filter (u p : uuid) (vs : list Votes.row) (r : Votes.row) :
  NoDup (map Votes.key vs) ->
  find (Votes.by_user_post u p) vs = Some r ->
  filter (Votes.by_user_post u p) vs = [r].
Proof.
  induction vs as [|x vs IH]; simpl; intros Hnd Hf; [discriminate|].
  inversion Hnd as [|? ? Hn Hd]; subst.
  destruct (Votes.by_user_post u p x) eqn:Hx.
  - inversion Hf; subst x. f_equal.
    apply by_user_post_key in Hx. rewrite Hx in Hn.
    clear - Hn. induction vs as [|y vs IH]; simpl; [reflexivity|].
    destruct (Votes.by_user_post u p y) eqn:Hy.
    + exfalso. apply Hn. left. apply by_user_post_key. exact Hy.
    + apply IH. intros H. apply Hn. right. exact H.
  - apply IH; assumption.
Qed.

Lemma find_app_none {A : Type} (c : A -> bool) (l1 l2 : list A) :
  find c l1 = None -> find c (l1 ++ l2) = find c l2.
Proof.
  induction l1 as [|x l1 IH]; simpl; [reflexivity|].
  destruct (c x); [discriminate | exact IH].
Qed.

Lemma find_none_filter {A : Type} (c : A -> bool) (l : list A) :
  find c l = None -> filter c l = [].
Proof.
  induction l as [|x l IH]; simpl; [reflexivity|].
  destruct (c x); [discriminate | exact IH].
Qed.

Lemma find_filter_negb {A : Type} (c : A -> bool) (l : list A) :
  find c (filter (fun r => negb (c r)) l) = None.
Proof.
  induction l as [|x l IH]; simpl; [reflexivity|].
  destruct (c x) eqn:Hx; simpl; [exact IH | rewrite Hx; exact IH].
Qed.

Lemma filter_negb_none {A : Type} (c : A -> bool) (l : list A) :
  find c l = None -> filter (fun r => negb (c r)) l = l.
Proof.
  induction l as [|x l IH]; simpl; [reflexivity|].
  destruct (c x); [discriminate|]. simpl. intros H. rewrite IH; auto.
Qed.

Lemma existing_vote_row (u p : uuid) (d : db) (v : Z) :
  consistent d -> existing_vote u p d = Some v ->
  exists r, filter (Votes.by_user_post u p) (votes d) = [r]
            /\ Votes.vote_type r = v /\ Votes.post_id r = p
            /\ (v = -1 \/ v = 1).
Proof.
  intros Hc H. unfold existing_vote in H.
  destruct (find _ (votes d)) as [r|] eqn:Hf; [|discriminate].
  inversion H; subst v. exists r.
  pose proof (find_some _ _ Hf) as [Hin Hk].
  split; [apply find_unique_filter; [apply Hc | exact Hf]|].
  split; [reflexivity|]. split.
  - unfold Votes.by_user_post in Hk. apply andb_true_iff in Hk.
    apply N.eqb_eq, Hk.
  - apply vote_type_check_spec.
    pose proof (votes_checked d Hc) as Hall. rewrite Forall_forall in Hall.
    apply Hall, Hin.
Qed.

(** [DELETE FROM votes WHERE user_id = u AND post_id = p] on a user with a
    recorded vote [v]: the row goes, the score drops by [v]. *)
Lemma delete_existing_vote now u p v s d :
  consistent d -> existing_vote u p d = Some v -> score p d = Some s ->
  in_int4 (s - v) = true ->
  exists d',
    delete_votes now (Votes.by_user_post u p) d = Ok d'
    /\ votes d' = filter (fun r => negb (Votes.by_user_post u p r)) (votes d)
    /\ existing_vote u p d' = None
    /\ score p d' = Some (s - v)
    /\ users d' = users d /\ topics d' = topics d /\ reports d' = reports d.
Proof.
  intros Hc Hv Hs Hin.
  destruct (existing_vote_row _ _ _ _ Hc Hv) as (r & Hr & Hvt & Hp & _).
  unfold delete_votes. rewrite Hr. simpl.
  destruct (set_vote_count_succeeds now
              (fun c => int4mi c (Votes.vote_type r)) p d s (s - v) Hc Hs)
    as (posts' & Hu).
  { unfold int4mi. rewrite Hvt. apply int4_in, Hin. }
  rewrite Hp, Hu. simpl. eexists. split; [reflexivity|].
  split; [reflexivity|]. split.
  { unfold existing_vote. simpl. rewrite find_filter_negb. reflexivity. }
  split; [|auto].
  unfold with_posts, with_votes. simpl.
  erewrite (score_after_trigger now (DELETE r)); [| simpl; rewrite Hp; exact Hu
                                                   | exact Hs].
  simpl. rewrite Hp, N.eqb_refl, Hvt. f_equal; lia.
Qed.

(** [UPDATE votes SET vote_type = -v WHERE user_id = u AND post_id = p] on a
    user with a recorded vote [v]: the row is rewritten where it stands, the
    score moves by [-2v]. *)
Lemma update_existing_vote now u p v s d :
  consistent d -> existing_vote u p d = Some v -> score p d = Some s ->
  in_int4 (s - 2 * v) = true ->
  exists d',
    update_votes now (Votes.by_user_post u p) (- v) d = Ok d'
    /\ votes d' = map (fun r => if Votes.by_user_post u p r
                                then Votes.set_vote_type (- v) r else r) (votes d)
    /\ existing_vote u p d' = Some (- v)
    /\ score p d' = Some (s - 2 * v)
    /\ users d' = users d /\ topics d' = topics d /\ reports d' = reports d.
Proof.
  intros Hc Hv Hs Hin.
  destruct (existing_vote_row _ _ _ _ Hc Hv) as (r & Hr & Hvt & Hp & Hv1).
  assert (Hx : Votes.vote_type_check (- v) = true).
  { apply vote_type_check_spec. lia. }
  unfold update_votes. rewrite Hr, Hx. simpl.
  assert (Hs4 : in_int4 s = true).
  { pose proof (posts_int4 d Hc) as Hall. rewrite Forall_forall in Hall.
    unfold score, find_post in Hs.
    destruct (find _ (posts d)) as [r0|] eqn:Hf; [|discriminate].
    inversion Hs; subst s. apply Hall. apply find_some in Hf. apply Hf. }
  assert (Hmid : in_int4 (s - v) = true).
  { apply in_int4_spec in Hs4, Hin. apply in_int4_spec. lia. }
  destruct (set_vote_count_succeeds now
              (fun c => t <- int4mi c (Votes.vote_type r) ;; int4pl t (- v))
              p d s (s - 2 * v) Hc Hs)
    as (posts' & Hu).
  { unfold int4mi, int4pl. rewrite Hvt, (int4_in _ Hmid). simpl.
    replace (s - v + - v) with (s - 2 * v) by lia. apply int4_in, Hin. }
  rewrite Hp, Hu. simpl. eexists. split; [reflexivity|].
  split; [reflexivity|]. split.
  { unfold existing_vote in *. simpl.
    destruct (find _ (votes d)) as [r0|] eqn:Hf; [|discriminate].
    clear - Hf. revert Hf. generalize (votes d). intros vs.
    induction vs as [|y vs IH]; simpl; [discriminate|].
    destruct (Votes.by_user_post u p y) eqn:Hy; simpl.
    - unfold Votes.by_user_post in *. simpl. rewrite Hy. reflexivity.
    - rewrite Hy. exact IH. }
  split; [|auto].
  unfold with_posts, with_votes.
  erewrite (score_after_trigger now (UPDATE r (Votes.set_vote_type (- v) r)));
    [| simpl; rewrite Hp; exact Hu | exact Hs].
  unfold delta, Votes.set_vote_type. cbn [Votes.post_id Votes.vote_type].
  rewrite Hp, N.eqb_refl, Hvt. f_equal.
  destruct Hv1 as [E|E]; rewrite E; reflexivity.
Qed.

(** [INSERT INTO votes] for a user without a recorded vote: the row is added,
    the score moves by its value. *)
Lemma insert_first_vote now u p x s d :
  consistent d -> existing_vote u p d = None -> score p d = Some s ->
  user_exists u d = true ->
  Votes.vote_type_check x = true ->
  in_int4 (s + x) = true ->
  exists d' NEW,
    insert_vote now u p x d = Ok d'
    /\ votes d' = votes d ++ [NEW]
    /\ Votes.by_user_post u p NEW = true /\ Votes.vote_type NEW = x
    /\ existing_vote u p d' = Some x
    /\ score p d' = Some (s + x)
    /\ users d' = users d /\ topics d' = topics d /\ reports d' = reports d.
Proof.
  intros Hc Hv Hs Hu Hx Hin.
  unfold existing_vote in Hv.
  destruct (find _ (votes d)) as [r0|] eqn:Hf; [discriminate|]. clear Hv.
  unfold insert_vote. rewrite Hx. cbn [negb].
  set (NEW := Votes.mk (gen_random_uuid (map Votes.id (votes d))) u p x now).
  assert (Hpk : existsb (fun r => N.eqb (Votes.id r) (Votes.id NEW)) (votes d)
                = false).
  { destruct (existsb _ (votes d)) eqn:E; [|reflexivity].
    apply existsb_exists in E. destruct E as (r & Hr & E).
    apply N.eqb_eq in E. exfalso.
    apply (gen_random_uuid_fresh (map Votes.id (votes d))).
    simpl in E. rewrite <- E. apply in_map. exact Hr. }
  rewrite Hpk.
  assert (Huq : existsb (Votes.by_user_post u p) (votes d) = false).
  { destruct (existsb (Votes.by_user_post u p) (votes d)) eqn:E; [|reflexivity].
    apply existsb_exists in E. destruct E as (r & Hr & E).
    pose proof (find_none _ _ Hf r Hr). congruence. }
  rewrite Huq, Hu, (find_post_exists _ _ _ Hs). cbn [negb].
  destruct (set_vote_count_succeeds now
              (fun c => int4pl c (Votes.vote_type NEW)) p d s (s + x) Hc Hs)
    as (posts' & Hp).
  { unfold int4pl. simpl. apply int4_in, Hin. }
  simpl. simpl in Hp. rewrite Hp. simpl. exists (with_posts posts' (with_votes (votes d ++ [NEW]) d)), NEW.
  split; [reflexivity|]. split; [reflexivity|].
  assert (Hk : Votes.by_user_post u p NEW = true).
  { unfold Votes.by_user_post. simpl. rewrite !N.eqb_refl. reflexivity. }
  split; [exact Hk|]. split; [reflexivity|]. split.
  { unfold existing_vote. simpl. rewrite (find_app_none _ _ _ Hf). simpl.
    rewrite Hk. reflexivity. }
  split; [|auto].
  unfold with_posts, with_votes. simpl.
  erewrite (score_after_trigger now (INSERT NEW)); [| exact Hp | exact Hs].
  simpl. rewrite N.eqb_refl. reflexivity.
Qed.

(** ** The vote endpoint, case by case *)

(** Existing vote [v], requested [v]: toggled off. *)
Lemma submitVote_same now a p v s d :
  consistent d -> existing_vote a p d = Some v -> score p d = Some s ->
  in_int4 (s - v) = true ->
  exists d',
    submitVote now (Some a) p v d = (inl (mk_vote_response (s - v) 0), d')
    /\ votes d' = filter (fun r => negb (Votes.by_user_post a p r)) (votes d)
    /\ existing_vote a p d' = None
    /\ score p d' = Some (s - v).
Proof.
  intros Hc Hv Hs Hin.
  destruct (delete_existing_vote now a p v s d Hc Hv Hs Hin)
    as (d' & Hd & Hvs & He & Hsc & _).
  exists d'. unfold submitVote, vote_statement.
  rewrite (find_post_exists _ _ _ Hs), Hv, Z.eqb_refl, Hd, Hsc, He.
  auto.
Qed.

(** Existing vote [v], requested [-v]: switched where it stands. *)
Lemma submitVote_opposite now a p v s d :
  consistent d -> existing_vote a p d = Some v -> score p d = Some s ->
  in_int4 (s - 2 * v) = true ->
  exists d',
    submitVote now (Some a) p (- v) d
    = (inl (mk_vote_response (s - 2 * v) (- v)), d')
    /\ votes d' = map (fun r => if Votes.by_user_post a p r
                                then Votes.set_vote_type (- v) r else r) (votes d)
    /\ existing_vote a p d' = Some (- v)
    /\ score p d' = Some (s - 2 * v).
Proof.
  intros Hc Hv Hs Hin.
  destruct (update_existing_vote now a p v s d Hc Hv Hs Hin)
    as (d' & Hd & Hvs & He & Hsc & _).
  destruct (existing_vote_row _ _ _ _ Hc Hv) as (_ & _ & _ & _ & Hv1).
  exists d'. unfold submitVote, vote_statement.
  rewrite (find_post_exists _ _ _ Hs), Hv.
  replace (- v =? v) with false by (symmetry; apply Z.eqb_neq; lia).
  replace (- v =? 0) with false by (symmetry; apply Z.eqb_neq; lia).
  cbn [negb]. rewrite Hd, Hsc, He. auto.
Qed.

(** No existing vote, requested [x] in [{-1, 1}]: recorded. *)
Lemma submitVote_new now a p x s d :
  consistent d -> existing_vote a p d = None -> score p d = Some s ->
  user_exists a d = true -> x = -1 \/ x = 1 ->
  in_int4 (s + x) = true ->
  exists d' NEW,
    submitVote now (Some a) p x d = (inl (mk_vote_response (s + x) x), d')
    /\ votes d' = votes d ++ [NEW]
    /\ Votes.by_user_post a p NEW = true /\ Votes.vote_type NEW = x
    /\ existing_vote a p d' = Some x
    /\ score p d' = Some (s + x).
Proof.
  intros Hc Hv Hs Hu Hx Hin. apply vote_type_check_spec in Hx.
  destruct (insert_first_vote now a p x s d Hc Hv Hs Hu Hx Hin)
    as (d' & NEW & Hd & Hvs & Hk & Hvt & He & Hsc & _).
  exists d', NEW. unfold submitVote, vote_statement.
  rewrite (find_post_exists _ _ _ Hs), Hv. cbn [negb]. rewrite Hd, Hsc, He.
  repeat split; auto.
Qed.

(** A rejected request commits nothing. *)
Lemma submitVote_rejected now actor p v d e d' :
  submitVote now actor p v d = (inr e, d') -> d' = d.
Proof.
  unfold submitVote. destruct actor as [u|]; [|intros H; inversion H; auto].
  destruct (negb (post_exists p d)); [intros H; inversion H; auto|].
  destruct (vote_statement now u p v d) as [d2|e2];
    [|intros H; inversion H; auto].
  destruct (score p d2); intros H; inversion H; auto.
Qed.

Lemma filter_length_le_1 (u p : uuid) (vs : list Votes.row) :
  NoDup (map Votes.key vs) ->
  (List.length (filter (Votes.by_user_post u p) vs) <= 1)%nat.
Proof.
  intros Hnd.
  destruct (find (Votes.by_user_post u p) vs) as [r|] eqn:Hf.
  - rewrite (find_unique_filter _ _ _ _ Hnd Hf). simpl. lia.
  - rewrite (find_none_filter _ _ Hf). simpl. lia.
Qed.

(** ** The score and the ledger in reachable states *)

(** C1.  After every call of a run of [submitVote] calls (any actors, posts
    and values; accepted or rejected) from a reachable database, the score
    read for a post is the sum of the live vote rows that reference it. *)
Theorem C1_score_is_sum_of_live_votes :
  forall (d : db) (calls : list (timestamp * option uuid * uuid * Z))
         (k : nat) (p : uuid) (c : Z),
    reachable d ->
    score p (submitVotes (firstn k calls) d) = Some c ->
    c = vote_sum p (votes (submitVotes (firstn k calls) d)).
Proof.
  intros d calls k p c Hr Hs.
  apply score_vote_sum; [|exact Hs].
  unfold submitVotes. apply run_consistent, reachable_consistent, Hr.
Qed.

(** C7.  In every reachable state a (user, post) pair has at most one row in
    [votes], and every stored [vote_type] is 1 or -1, never 0. *)
Theorem C7_one_signed_vote_per_user_and_post :
  forall d : db,
    reachable d ->
    (forall u p,
        (List.length (filter (Votes.by_user_post u p) (votes d)) <= 1)%nat)
    /\ (forall r, In r (votes d) ->
                  Votes.vote_type r = 1 \/ Votes.vote_type r = -1)
    /\ (forall r, In r (votes d) -> Votes.vote_type r <> 0).
Proof.
  intros d Hr. apply reachable_consistent in Hr.
  assert (Hv : forall r, In r (votes d) ->
                         Votes.vote_type r = 1 \/ Votes.vote_type r = -1).
  { intros r Hin. pose proof (votes_checked d Hr) as Hall.
    rewrite Forall_forall in Hall. specialize (Hall r Hin).
    apply vote_type_check_spec in Hall. tauto. }
  split; [|split].
  - intros u p. apply filter_length_le_1, Hr.
  - exact Hv.
  - intros r Hin. specialize (Hv r Hin). lia.
Qed.

(** ** Accepted statements, whatever the scores *)

Lemma insert_vote_Ok now u p x d d' :
  insert_vote now u p x d = Ok d' ->
  Votes.vote_type_check x = true
  /\ existsb (Votes.by_user_post u p) (votes d) = false
  /\ votes d'
     = votes d ++ [Votes.mk (gen_random_uuid (map Votes.id (votes d))) u p x now]
  /\ exists K, Forall2 (fun r r' => rescored (K (Posts.id r)) r r')
                       (posts d) (posts d').
Proof.
  unfold insert_vote. intros H.
  destruct (Votes.vote_type_check x); [|discriminate]. cbn [negb] in H.
  destruct (existsb (fun r => N.eqb (Votes.id r) _) (votes d)); [discriminate|].
  destruct (existsb (Votes.by_user_post u p) (votes d)); [discriminate|].
  destruct (negb (user_exists u d)); [discriminate|].
  destruct (negb (post_exists p d)); [discriminate|].
  apply bind_Ok in H. destruct H as (posts' & Hf & H). inversion H; subst d'.
  apply update_post_vote_count_Ok in Hf.
  repeat split; auto. eexists (fun q => delta q _). exact Hf.
Qed.

Lemma delete_votes_Ok now cond d d' :
  delete_votes now cond d = Ok d' ->
  votes d' = filter (fun r => negb (cond r)) (votes d)
  /\ exists K, Forall2 (fun r r' => rescored (K (Posts.id r)) r r')
                       (posts d) (posts d').
Proof.
  unfold delete_votes. intros H.
  apply bind_Ok in H. destruct H as (posts' & Hf & H). inversion H; subst d'.
  apply fire_Ok in Hf. split; [reflexivity|].
  eexists (fun q => delta_sum q _). exact Hf.
Qed.

Lemma update_votes_Ok now cond x d d' :
  update_votes now cond x d = Ok d' ->
  votes d' = map (fun r => if cond r then Votes.set_vote_type x r else r) (votes d)
  /\ exists K, Forall2 (fun r r' => rescored (K (Posts.id r)) r r')
                       (posts d) (posts d').
Proof.
  unfold update_votes. intros H.
  destruct (_ && _); [discriminate|].
  apply bind_Ok in H. destruct H as (posts' & Hf & H). inversion H; subst d'.
  apply fire_Ok in Hf. split; [reflexivity|].
  eexists (fun q => delta_sum q _). exact Hf.
Qed.

Lemma find_updated (u p : uuid) (x : Z) (vs : list Votes.row) (r : Votes.row) :
  find (Votes.by_user_post u p) vs = Some r ->
  find (Votes.by_user_post u p)
       (map (fun r => if Votes.by_user_post u p r
                      then Votes.set_vote_type x r else r) vs)
  = Some (Votes.set_vote_type x r).
Proof.
  induction vs as [|y vs IH]; simpl; [discriminate|].
  destruct (Votes.by_user_post u p y) eqn:Hy; simpl.
  - intros H. inversion H; subst y.
    unfold Votes.by_user_post in *. simpl. rewrite Hy. reflexivity.
  - rewrite Hy. exact IH.
Qed.

(** The vote a user is left with by an accepted statement of the endpoint. *)
Lemma vote_statement_Ok now u p x d d' :
  vote_statement now u p x d = Ok d' ->
  existing_vote u p d'
  = match existing_vote u p d with
    | None => Some x
    | Some existing =>
        if (x =? existing) || (x =? 0) then None else Some x
    end
  /\ exists K, Forall2 (fun r r' => rescored (K (Posts.id r)) r r')
                       (posts d) (posts d').
Proof.
  unfold vote_statement, existing_vote. intros H.
  destruct (find (Votes.by_user_post u p) (votes d)) as [r|] eqn:Hf; simpl in *.
  - destruct (x =? Votes.vote_type r); [|destruct (x =? 0)]; simpl.
    + apply delete_votes_Ok in H. destruct H as [-> HK].
      rewrite find_filter_negb. auto.
    + apply delete_votes_Ok in H. destruct H as [-> HK].
      rewrite find_filter_negb. auto.
    + apply update_votes_Ok in H. destruct H as [-> HK].
      rewrite (find_updated _ _ _ _ _ Hf). auto.
  - apply insert_vote_Ok in H. destruct H as (_ & _ & -> & HK).
    rewrite (find_app_none _ _ _ Hf). simpl.
    unfold Votes.by_user_post. simpl. rewrite !N.eqb_refl. auto.
Qed.

Lemma score_rescored (K : uuid -> Z) (p : uuid) (d d' : db) :
  Forall2 (fun r r' => rescored (K (Posts.id r)) r r') (posts d) (posts d') ->
  post_exists p d = true -> exists c, score p d' = Some c.
Proof.
  intros H Hex. pose proof (find_rescored K p _ _ H) as F.
  unfold score, find_post, post_exists in *.
  destruct (find _ (posts d)) as [r|] eqn:Hf.
  - destruct F as (r' & -> & _). simpl. eauto.
  - apply existsb_exists in Hex. destruct Hex as (r & Hin & Hr).
    pose proof (find_none _ _ Hf r Hin). congruence.
Qed.

(** An accepted vote request: the statement went through. *)
Lemma submitVote_accepted now actor p x d resp d' :
  submitVote now actor p x d = (inl resp, d') ->
  exists u, actor = Some u /\ post_exists p d = true
            /\ vote_statement now u p x d = Ok d'
            /\ score p d' = Some (vote_count resp)
            /\ user_vote resp = match existing_vote u p d' with
                                | Some v => v
                                | None => 0
                                end.
Proof.
  unfold submitVote. destruct actor as [u|]; [|discriminate].
  destruct (post_exists p d); [|discriminate]. cbn [negb].
  destruct (vote_statement now u p x d) as [d2|e] eqn:Hst; [|discriminate].
  destruct (score p d2) eqn:Hs; [|discriminate].
  intros H. inversion H; subst. exists u. simpl. repeat split; auto.
Qed.

(** ** Rejection does not depend on the clock *)

Lemma update_posts_set_vote_count_agree now1 now2 e pid rows1 rows2 :
  same_scores rows1 rows2 ->
  agree (update_posts_set_vote_count now1 e pid rows1)
        (update_posts_set_vote_count now2 e pid rows2).
Proof.
  induction 1 as [|r1 r2 l1 l2 [Hid Hvc] _ IH]; simpl; [constructor|].
  rewrite <- Hid, <- Hvc.
  destruct (N.eqb (Posts.id r1) pid).
  - destruct (e (Posts.vote_count r1)) as [c|err]; simpl; [|reflexivity].
    destruct (update_posts_set_vote_count now1 e pid l1),
             (update_posts_set_vote_count now2 e pid l2); simpl in *; try tauto.
    constructor; [simpl; auto | exact IH].
  - simpl.
    destruct (update_posts_set_vote_count now1 e pid l1),
             (update_posts_set_vote_count now2 e pid l2); simpl in *; try tauto.
    constructor; [simpl; auto | exact IH].
Qed.

Lemma update_post_vote_count_agree now1 now2 op rows1 rows2 :
  same_scores rows1 rows2 ->
  agree (update_post_vote_count now1 op rows1)
        (update_post_vote_count now2 op rows2).
Proof.
  intros H. destruct op; simpl; apply update_posts_set_vote_count_agree, H.
Qed.

Lemma fire_agree now1 now2 ops rows1 rows2 :
  same_scores rows1 rows2 ->
  agree (fire now1 ops rows1) (fire now2 ops rows2).
Proof.
  revert rows1 rows2. induction ops as [|op ops IH]; simpl; intros a b H.
  - exact H.
  - pose proof (update_post_vote_count_agree now1 now2 op a b H) as G.
    destruct (update_post_vote_count now1 op a),
             (update_post_vote_count now2 op b); simpl in *; try tauto.
    apply IH, G.
Qed.

Lemma same_scores_refl (rows : list Posts.row) : same_scores rows rows.
Proof. apply Forall2_same. auto. Qed.

Lemma vote_statement_rejected_any_time now1 now2 u p x d e :
  vote_statement now1 u p x d = Err e ->
  exists e', vote_statement now2 u p x d = Err e'.
Proof.
  unfold vote_statement.
  assert (D : forall cond, delete_votes now1 cond d = Err e ->
                           exists e', delete_votes now2 cond d = Err e').
  { intros cond. unfold delete_votes.
    pose proof (fire_agree now1 now2 (map DELETE (filter cond (votes d)))
                  _ _ (same_scores_refl (posts d))) as G.
    destruct (fire now1 _ (posts d)), (fire now2 _ (posts d));
      simpl in *; try tauto; try discriminate. eauto. }
  destruct (existing_vote u p d) as [existing|].
  - destruct (x =? existing); [apply D|]. destruct (x =? 0); [apply D|].
    unfold update_votes. destruct (_ && _); [eauto|].
    pose proof (fire_agree now1 now2
                  (map (fun OLD => UPDATE OLD (Votes.set_vote_type x OLD))
                       (filter (Votes.by_user_post u p) (votes d)))
                  _ _ (same_scores_refl (posts d))) as G.
    destruct (fire now1 _ (posts d)), (fire now2 _ (posts d));
      simpl in *; try tauto; try discriminate. eauto.
  - unfold insert_vote. destruct (negb (Votes.vote_type_check x)); [eauto|].
    cbn [Votes.id].
    destruct (existsb _ (votes d)); [eauto|].
    destruct (existsb (Votes.by_user_post u p) (votes d)); [eauto|].
    destruct (negb (user_exists u d)); [eauto|].
    destruct (negb (post_exists p d)); [eauto|].
    pose proof (update_posts_set_vote_count_agree now1 now2
                  (fun c => int4pl c x) p _ _ (same_scores_refl (posts d))) as G.
    simpl.
    destruct (update_posts_set_vote_count now1 _ p (posts d)),
             (update_posts_set_vote_count now2 _ p (posts d));
      simpl in *; try tauto; try discriminate. eauto.
Qed.

(** ** Toggling, switching, rejecting *)

Lemma score_in_int4 (p : uuid) (d : db) (s : Z) :
  consistent d -> score p d = Some s -> in_int4 s = true.
Proof.
  intros Hc Hs. pose proof (posts_int4 d Hc) as Hall.
  rewrite Forall_forall in Hall. unfold score, find_post in Hs.
  destruct (find _ (posts d)) as [r|] eqn:Hf; [|discriminate].
  inversion Hs; subst s. apply Hall. apply find_some in Hf. apply Hf.
Qed.

(** No existing vote: an upvote followed by the same upvote. *)
Lemma upvote_twice now1 now2 a p s d :
  consistent d -> user_exists a d = true -> score p d = Some s ->
  in_int4 (s + 1) = true ->
  existing_vote a p d = None ->
  let d1 := snd (submitVote now1 (Some a) p 1 d) in
  let d2 := snd (submitVote now2 (Some a) p 1 d1) in
  existing_vote a p d1 = Some 1 /\ score p d1 = Some (s + 1)
  /\ existing_vote a p d2 = None /\ votes d2 = votes d /\ score p d2 = Some s.
Proof.
  intros Hc Hu Hs Hin Hv d1 d2.
  destruct (submitVote_new now1 a p 1 s d Hc Hv Hs Hu (or_intror eq_refl) Hin)
    as (d1' & NEW & E1 & Hvs1 & Hk & _ & He1 & Hs1).
  assert (Hc1 : consistent d1) by apply submitVote_consistent, Hc.
  subst d2. subst d1. rewrite E1 in *. cbn [snd] in *.
  assert (Hin1 : in_int4 (s + 1 - 1) = true).
  { replace (s + 1 - 1) with s by lia. exact (score_in_int4 p d s Hc Hs). }
  destruct (submitVote_same now2 a p 1 (s + 1) d1' Hc1 He1 Hs1 Hin1)
    as (d2' & E2 & Hvs2 & He2 & Hs2).
  rewrite E2. cbn [snd]. repeat split; auto.
  - rewrite Hvs2, Hvs1, filter_app. simpl. rewrite Hk. simpl.
    rewrite app_nil_r. apply filter_negb_none.
    unfold existing_vote in Hv.
    destruct (find _ (votes d)); [discriminate | reflexivity].
  - rewrite Hs2. f_equal. lia.
Qed.

(** C4.  With no prior vote by [a] on [p], an upvote followed by the same
    upvote removes [a]'s row again and brings the score back to what it was
    before the first call.  In general, when the existing vote [v] is not
    zero and the requested value is [v], the row is deleted and the score
    changes by [-v].  (The scores involved fit the INTEGER column.) *)
Theorem C4_repeating_a_vote_toggles_it_off :
  (forall now1 now2 a p s d,
      consistent d -> user_exists a d = true -> score p d = Some s ->
      in_int4 (s + 1) = true ->
      existing_vote a p d = None ->
      let d1 := snd (submitVote now1 (Some a) p 1 d) in
      let d2 := snd (submitVote now2 (Some a) p 1 d1) in
      existing_vote a p d1 = Some 1
      /\ existing_vote a p d2 = None
      /\ votes d2 = votes d
      /\ score p d2 = Some s)
  /\ (forall now a p v s d,
         consistent d -> existing_vote a p d = Some v -> v <> 0 ->
         score p d = Some s -> in_int4 (s - v) = true ->
         exists d',
           submitVote now (Some a) p v d
           = (inl (mk_vote_response (s - v) 0), d')
           /\ votes d'
              = filter (fun r => negb (Votes.by_user_post a p r)) (votes d)
           /\ existing_vote a p d' = None
           /\ score p d' = Some (s - v)).
Proof.
  split.
  - intros now1 now2 a p s d Hc Hu Hs Hin Hv.
    pose proof (upvote_twice now1 now2 a p s d Hc Hu Hs Hin Hv) as H.
    cbv zeta in *. tauto.
  - intros now a p v s d Hc Hv _ Hs Hin. apply submitVote_same; assumption.
Qed.

(** C5.  When the existing vote [v] is not zero and the requested value is
    [-v], the row is rewritten in place to [-v] and the score changes by
    exactly [-2v]; in particular an upvote followed by a downvote leaves the
    score 2 below what it was after the upvote.  (The scores involved fit the
    INTEGER column.) *)
Theorem C5_opposite_vote_moves_score_by_two :
  (forall now a p v s d,
      consistent d -> existing_vote a p d = Some v -> v <> 0 ->
      score p d = Some s -> in_int4 (s - 2 * v) = true ->
      exists d',
        submitVote now (Some a) p (- v) d
        = (inl (mk_vote_response (s - 2 * v) (- v)), d')
        /\ votes d'
           = map (fun r => if Votes.by_user_post a p r
                           then Votes.set_vote_type (- v) r else r) (votes d)
        /\ existing_vote a p d' = Some (- v)
        /\ score p d' = Some (s - 2 * v))
  /\ (forall now1 now2 a p s d,
         consistent d -> user_exists a d = true -> score p d = Some s ->
         existing_vote a p d = None ->
         in_int4 (s + 1) = true -> in_int4 (s - 1) = true ->
         let d1 := snd (submitVote now1 (Some a) p 1 d) in
         let d2 := snd (submitVote now2 (Some a) p (-1) d1) in
         exists s1, score p d1 = Some s1 /\ score p d2 = Some (s1 - 2)
                    /\ existing_vote a p d2 = Some (-1)).
Proof.
  split.
  - intros now a p v s d Hc Hv _ Hs Hin. apply submitVote_opposite; assumption.
  - intros now1 now2 a p s d Hc Hu Hs Hv Hup Hdown d1 d2.
    destruct (submitVote_new now1 a p 1 s d Hc Hv Hs Hu (or_intror eq_refl) Hup)
      as (d1' & NEW & E1 & _ & _ & _ & He1 & Hs1).
    assert (Hc1 : consistent d1) by apply submitVote_consistent, Hc.
    subst d2. subst d1. rewrite E1 in *. cbn [snd] in *.
    assert (Hin1 : in_int4 (s + 1 - 2 * 1) = true).
    { replace (s + 1 - 2 * 1) with (s - 1) by lia. exact Hdown. }
    destruct (submitVote_opposite now2 a p 1 (s + 1) d1' Hc1 He1 Hs1 Hin1)
      as (d2' & E2 & _ & He2 & Hs2).
    change (- (1)) with (-1) in E2. rewrite E2. cbn [snd].
    exists (s + 1). repeat split; auto.
Qed.


(** ** Replaying a vote request *)

Lemma forum_reachable : reachable forum.
Proof. exists seeded, [first_post]. repeat split; reflexivity. Qed.

Lemma forum_upvoted_reachable : reachable forum_upvoted.
Proof.
  exists seeded, [first_post; Vote 200 (Some 2%N) 1%N 1].
  repeat split; reflexivity.
Qed.

(** C2, as stated, fails: bob's upvote sent twice leaves no vote and score 0,
    sent once it leaves his vote and score 1. *)
Lemma C2_counterexample_replayed_upvote :
  In 1 [-1; 0; 1] /\ ~ replay_is_idempotent 200 300 (Some 2%N) 1%N 1 forum.
Proof.
  split; [simpl; auto|].
  unfold replay_is_idempotent, ledger_and_score. vm_compute. discriminate.
Qed.

(** C2, amended.  Replaying an identical request is idempotent for value 0:
    the database after two calls is the database after one.  For value 1 or
    -1 a replay toggles: when both calls are accepted, the second one removes
    the vote the first one left, or records again the one the first one
    removed, so the ledger after two calls is not the ledger after one. *)
Theorem C2_replay_is_idempotent_only_for_zero :
  (forall now1 now2 actor p d,
      snd (submitVote now2 actor p 0 (snd (submitVote now1 actor p 0 d)))
      = snd (submitVote now1 actor p 0 d))
  /\ (forall now1 now2 actor p x d r1 d1 r2 d2,
         x = 1 \/ x = -1 ->
         submitVote now1 actor p x d = (inl r1, d1) ->
         submitVote now2 actor p x d1 = (inl r2, d2) ->
         (user_vote r1 = x /\ user_vote r2 = 0
          \/ user_vote r1 = 0 /\ user_vote r2 = x)
         /\ votes d2 <> votes d1).
Proof.
  split.
  - intros now1 now2 actor p d.
    destruct (submitVote now1 actor p 0 d) as [[r1|e1] d1] eqn:E1; cbn [snd].
    + (* accepted: the vote was deleted, the replay is refused by the CHECK *)
      apply submitVote_accepted in E1.
      destruct E1 as (u & -> & Hex & Hst & Hsc & _).
      pose proof (vote_statement_Ok _ _ _ _ _ _ Hst) as [Hv _].
      assert (Hnone : existing_vote u p d1 = None).
      { rewrite Hv. destruct (existing_vote u p d) as [w|] eqn:Hw.
        - rewrite orb_true_r. reflexivity.
        - exfalso. unfold vote_statement in Hst. rewrite Hw in Hst.
          unfold insert_vote in Hst. simpl in Hst. discriminate. }
      unfold submitVote. rewrite (find_post_exists _ _ _ Hsc). cbn [negb].
      unfold vote_statement. rewrite Hnone. unfold insert_vote. reflexivity.
    + (* rejected: the replay is rejected as well *)
      pose proof (submitVote_rejected _ _ _ _ _ _ _ E1) as ->.
      destruct (submitVote now2 actor p 0 d) as [[r2|e2] d2] eqn:E2; cbn [snd];
        [|eapply submitVote_rejected; eauto].
      exfalso. apply submitVote_accepted in E2.
      destruct E2 as (u & -> & Hex & Hst & Hsc & _).
      unfold submitVote in E1. rewrite Hex in E1. cbn [negb] in E1.
      destruct (vote_statement now1 u p 0 d) as [d1|e] eqn:Hst1.
      * pose proof (vote_statement_Ok _ _ _ _ _ _ Hst1) as [_ [K HK]].
        destruct (score_rescored K p d d1 HK Hex) as (c & Hc).
        rewrite Hc in E1. discriminate.
      * destruct (vote_statement_rejected_any_time _ now2 _ _ _ _ _ Hst1)
          as (e' & He'). congruence.
  - intros now1 now2 actor p x d r1 d1 r2 d2 Hx E1 E2.
    apply submitVote_accepted in E1.
    destruct E1 as (u & -> & _ & Hst1 & _ & Hr1).
    apply submitVote_accepted in E2.
    destruct E2 as (u' & Hu' & _ & Hst2 & _ & Hr2).
    inversion Hu'; subst u'. clear Hu'.
    pose proof (vote_statement_Ok _ _ _ _ _ _ Hst1) as [Hv1 _].
    pose proof (vote_statement_Ok _ _ _ _ _ _ Hst2) as [Hv2 _].
    assert (Hx0 : (x =? 0) = false) by (apply Z.eqb_neq; lia).
    assert (D : existing_vote u p d1 = Some x /\ existing_vote u p d2 = None
                \/ existing_vote u p d1 = None /\ existing_vote u p d2 = Some x).
    { destruct (existing_vote u p d) as [w|].
      - rewrite Hx0, orb_false_r in Hv1. destruct (x =? w) eqn:Hw.
        + right. rewrite Hv1 in Hv2. auto.
        + left. rewrite Hv1, Z.eqb_refl in Hv2. auto.
      - left. rewrite Hv1, Z.eqb_refl in Hv2. auto. }
    split.
    + destruct D as [[D1 D2]|[D1 D2]]; rewrite D1 in Hr1; rewrite D2 in Hr2; auto.
    + intros Heq. unfold existing_vote in D. rewrite Heq in D.
      destruct D as [[D1 D2]|[D1 D2]]; congruence.
Qed.

(** ** Instances on the small forum *)

Ltac by_evaluation :=
  constructor; simpl; repeat constructor; simpl;
  intuition (first [discriminate | congruence | idtac]).

Lemma C1_witness :
  reachable forum
  /\ 0 = vote_sum 1%N
           (votes (submitVotes
                     (firstn 2 [(200, Some 2%N, 1%N, 1); (300, Some 1%N, 1%N, -1);
                                (400, Some 2%N, 1%N, 0)]) forum)).
Proof.
  assert (R : reachable forum).
  { exists seeded, [first_post]. repeat split; reflexivity. }
  split; [exact R|].
  apply (C1_score_is_sum_of_live_votes forum _ 2%nat 1%N 0 R). reflexivity.
Defined.

Lemma C7_witness :
  reachable forum_upvoted
  /\ (List.length (filter (Votes.by_user_post 2%N 1%N) (votes forum_upvoted)) <= 1)%nat.
Proof.
  assert (R : reachable forum_upvoted).
  { exists seeded, [first_post; Vote 200 (Some 2%N) 1%N 1].
    repeat split; reflexivity. }
  split; [exact R|].
  apply (proj1 (C7_one_signed_vote_per_user_and_post forum_upvoted R)).
Defined.

Lemma C4_witness :
  (consistent forum /\ existing_vote 2%N 1%N forum = None
   /\ votes (snd (submitVote 300 (Some 2%N) 1%N 1
                    (snd (submitVote 200 (Some 2%N) 1%N 1 forum))))
      = votes forum)
  /\ (consistent forum_upvoted /\ existing_vote 2%N 1%N forum_upvoted = Some 1
      /\ exists d',
           submitVote 300 (Some 2%N) 1%N 1 forum_upvoted
           = (inl (mk_vote_response (1 - 1) 0), d')).
Proof.
  assert (C : consistent forum) by by_evaluation.
  assert (C' : consistent forum_upvoted) by by_evaluation.
  split.
  - split; [exact C|]. split; [reflexivity|].
    apply (proj1 C4_repeating_a_vote_toggles_it_off 200 300 2%N 1%N 0 forum);
      [exact C | reflexivity | reflexivity | reflexivity | reflexivity].
  - split; [exact C'|]. split; [reflexivity|].
    destruct (proj2 C4_repeating_a_vote_toggles_it_off 300 2%N 1%N 1 1
                forum_upvoted) as (d' & E & _);
      [exact C' | reflexivity | lia | reflexivity | reflexivity |].
    exists d'. exact E.
Defined.

Lemma C5_witness :
  (consistent forum_upvoted /\ existing_vote 2%N 1%N forum_upvoted = Some 1
   /\ exists d',
        submitVote 300 (Some 2%N) 1%N (- (1)) forum_upvoted
        = (inl (mk_vote_response (1 - 2 * 1) (- (1))), d'))
  /\ (consistent forum /\ existing_vote 2%N 1%N forum = None
      /\ exists s1,
           score 1%N (snd (submitVote 200 (Some 2%N) 1%N 1 forum)) = Some s1
           /\ score 1%N (snd (submitVote 300 (Some 2%N) 1%N (-1)
                                (snd (submitVote 200 (Some 2%N) 1%N 1 forum))))
              = Some (s1 - 2)).
Proof.
  assert (C : consistent forum) by by_evaluation.
  assert (C' : consistent forum_upvoted) by by_evaluation.
  split.
  - split; [exact C'|]. split; [reflexivity|].
    destruct (proj1 C5_opposite_vote_moves_score_by_two 300 2%N 1%N 1 1
                forum_upvoted) as (d' & E & _);
      [exact C' | reflexivity | lia | reflexivity | reflexivity |].
    exists d'. exact E.
  - split; [exact C|]. split; [reflexivity|].
    destruct (proj2 C5_opposite_vote_moves_score_by_two 200 300 2%N 1%N 0 forum)
      as (s1 & E1 & E2 & _);
      [exact C | reflexivity | reflexivity | reflexivity | reflexivity
       | reflexivity |].
    exists s1. split; [exact E1 | exact E2].
Defined.


Lemma C2_witness :
  votes (snd (submitVote 300 (Some 2%N) 1%N 1
                (snd (submitVote 200 (Some 2%N) 1%N 1 forum))))
  <> votes (snd (submitVote 200 (Some 2%N) 1%N 1 forum)).
Proof.
  apply (proj2 C2_replay_is_idempotent_only_for_zero 200 300 (Some 2%N) 1%N 1
           forum
           (mk_vote_response 1 1)
           _
           (mk_vote_response 0 0)
           _
           (or_introl eq_refl)).
  - reflexivity.
  - reflexivity.
Defined.

(** ** Deleting posts and topics *)

Lemma update_posts_set_vote_count_absent now e pid rows :
  existsb (fun r => N.eqb (Posts.id r) pid) rows = false ->
  update_posts_set_vote_count now e pid rows = Ok rows.
Proof.
  induction rows as [|r rows IH]; simpl; [reflexivity|].
  intros H. apply orb_false_iff in H. destruct H as [Hr Hrest].
  rewrite Hr, (IH Hrest). reflexivity.
Qed.

Lemma fire_deleted_post now p (vs : list Votes.row) rows :
  existsb (fun r => N.eqb (Posts.id r) p) rows = false ->
  Forall (fun v => Votes.post_id v = p) vs ->
  fire now (map DELETE vs) rows = Ok rows.
Proof.
  intros Hp. induction 1 as [|v vs Hv _ IH]; simpl; [reflexivity|].
  rewrite Hv, (update_posts_set_vote_count_absent _ _ _ _ Hp). simpl. exact IH.
Qed.

Lemma existsb_filter_self (p : uuid) (rows : list Posts.row) :
  existsb (fun r => N.eqb (Posts.id r) p)
          (filter (fun r => negb (N.eqb (Posts.id r) p)) rows) = false.
Proof.
  induction rows as [|r rows IH]; simpl; [reflexivity|].
  destruct (N.eqb (Posts.id r) p) eqn:E; simpl; [exact IH|].
  rewrite E. exact IH.
Qed.

(** [DELETE FROM posts WHERE id = p] always goes through, and takes the votes
    and the reports of the post with it; nothing else is touched. *)
Lemma delete_post_cascades now p d :
  delete_post now p d
  = Ok (mkdb (users d) (topics d)
          (filter (fun r => negb (N.eqb (Posts.id r) p)) (posts d))
          (filter (fun r => negb (N.eqb (Votes.post_id r) p)) (votes d))
          (filter (fun r => negb (N.eqb (Reports.post_id r) p)) (reports d))).
Proof.
  unfold delete_post, delete_votes. cbn [posts votes with_posts].
  rewrite (fire_deleted_post now p).
  - reflexivity.
  - apply existsb_filter_self.
  - apply Forall_forall. intros v Hv. apply filter_In in Hv.
    apply N.eqb_eq, Hv.
Qed.

Lemma delete_post_no_reference now p d d' :
  delete_post now p d = Ok d' ->
  (forall v, In v (votes d') -> Votes.post_id v <> p)
  /\ (forall r, In r (reports d') -> Reports.post_id r <> p)
  /\ post_exists p d' = false.
Proof.
  rewrite delete_post_cascades. intros H. inversion H; subst d'. simpl.
  split; [|split].
  - intros v Hv. apply filter_In in Hv. destruct Hv as [_ Hv].
    apply negb_true_iff, N.eqb_neq in Hv. exact Hv.
  - intros r Hr. apply filter_In in Hr. destruct Hr as [_ Hr].
    apply negb_true_iff, N.eqb_neq in Hr. exact Hr.
  - unfold post_exists. simpl. apply existsb_filter_self.
Qed.

(** [DELETE FROM topics WHERE id = t] is refused as soon as one post
    references the topic: SET NULL writes a NULL that NOT NULL rejects. *)
Lemma delete_topic_refused now t d r :
  In r (posts d) -> Posts.topic_id r = Some t ->
  delete_topic now t d = Err not_null_violation.
Proof.
  intros Hin Ht. unfold delete_topic.
  destruct (forallb _ _) eqn:E; [|reflexivity].
  exfalso. rewrite forallb_forall in E.
  assert (Hr : In r (filter (fun r => eq_opt_uuid (Posts.topic_id r) t) (posts d))).
  { apply filter_In. split; [exact Hin|].
    unfold eq_opt_uuid. rewrite Ht. apply N.eqb_refl. }
  specialize (E r Hr). discriminate.
Qed.

(** A topic no post references is deleted, and no post changes. *)
Lemma delete_topic_unreferenced now t d :
  Forall (fun r => Posts.topic_id r <> Some t) (posts d) ->
  delete_topic now t d
  = Ok (with_topics (filter (fun r => negb (N.eqb (Topics.id r) t)) (topics d)) d).
Proof.
  intros Hno.
  assert (E : forall r, In r (posts d) -> eq_opt_uuid (Posts.topic_id r) t = false).
  { rewrite Forall_forall in Hno. intros r Hr. specialize (Hno r Hr).
    unfold eq_opt_uuid. destruct (Posts.topic_id r) as [x|]; [|reflexivity].
    apply N.eqb_neq. congruence. }
  unfold delete_topic.
  assert (F : filter (fun r => eq_opt_uuid (Posts.topic_id r) t) (posts d) = []).
  { revert E. generalize (posts d). intros l E.
    induction l as [|r l IH]; simpl; [reflexivity|].
    rewrite (E r (or_introl eq_refl)). apply IH.
    intros x Hx. apply E. right. exact Hx. }
  rewrite F. simpl.
  assert (M : map (fun r => if eq_opt_uuid (Posts.topic_id r) t
                            then on_delete_set_null now r else r) (posts d)
              = posts d).
  { revert E. generalize (posts d). intros l E.
    induction l as [|r l IH]; simpl; [reflexivity|].
    rewrite (E r (or_introl eq_refl)). f_equal. apply IH.
    intros x Hx. apply E. right. exact Hx. }
  rewrite M. unfold with_posts, with_topics. simpl. reflexivity.
Qed.

(** C8, at the failing input: on the small forum, whose one post is in topic
    1, deleting topic 1 raises the NOT NULL violation; the topic stays and the
    post keeps its topic.  Deleting the post, in contrast, removes its votes
    and reports. *)
Theorem C8_topic_delete_refused_on_forum :
  delete_topic 300 1%N forum_upvoted = Err not_null_violation
  /\ serve (DeleteTopic 300 1%N) forum_upvoted = forum_upvoted
  /\ map Posts.topic_id (posts forum_upvoted) = [Some 1%N]
  /\ (exists d', delete_post 300 1%N forum_upvoted = Ok d'
                 /\ posts d' = [] /\ votes d' = [] /\ reports d' = []).
Proof.
  split; [reflexivity|]. split; [reflexivity|]. split; [reflexivity|].
  eexists. split; [reflexivity|]. repeat split; reflexivity.
Qed.

(** ** Ordering the feed *)

Section OrderByFacts.
Context {A : Type} (before : A -> A -> bool).
Hypothesis before_total :
  forall a b, before a b = false -> before b a = true.

Let R (a b : A) : Prop := before a b = true.




End OrderByFacts.




Lemma all_defined_Ok (now : timestamp) (rows : list Posts.row) :
  Forall (fun r => 0 < hot_base now r) rows -> all_defined now rows = Ok tt.
Proof.
  induction 1 as [|r rows Hr _ IH]; simpl; [reflexivity|].
  unfold hot_defined.
  replace (hot_base now r <? 0) with false by (symmetry; apply Z.ltb_ge; lia).
  replace (hot_base now r =? 0) with false by (symmetry; apply Z.eqb_neq; lia).
  simpl. exact IH.
Qed.



(** ** The hot score over the reals *)

Section HotScore.
Local Open Scope R_scope.

Lemma Rpower_three_halves_sqr (x : R) :
  0 < x -> Rpower x (3 / 2) * Rpower x (3 / 2) = x * x * x.
Proof.
  intros Hx. rewrite <- Rpower_plus.
  replace (3 / 2 + 3 / 2) with (INR 3) by (simpl; lra).
  rewrite Rpower_pow by exact Hx. simpl. ring.
Qed.

Lemma Rpower_pos (x y : R) : 0 < Rpower x y.
Proof. unfold Rpower. apply exp_pos. Qed.






Lemma Rabs_le_bounds (x y : R) : Rabs x <= y -> - y <= x <= y.
Proof. unfold Rabs. destruct (Rcase_abs x); lra. Qed.

(** A computed order is the order of the exact scores, up to the error. *)
Lemma descending_hot_within (A : arithmetic) (eps : R) (now : timestamp)
    (a b : Posts.row) :
  accurate eps A -> (0 < hot_base now a)%Z -> (0 < hot_base now b)%Z ->
  descending A hot now a b -> descending_within eps now a b.
Proof.
  intros HA Ha Hb H. simpl in H.
  apply (order_of_the_reals eps A HA now a b Ha Hb) in H.
  pose proof (relative_error eps A HA now a Ha) as Ea.
  pose proof (relative_error eps A HA now b Hb) as Eb.
  unfold descending_within.
  apply Rabs_le_bounds in Ea. apply Rabs_le_bounds in Eb. lra.
Qed.

(** Exact scores further apart than the error are computed in their order:
    the row with the smaller score cannot stand first. *)
Lemma separated_scores (A : arithmetic) (eps : R) (now : timestamp)
    (a b : Posts.row) :
  accurate eps A -> (0 < hot_base now a)%Z -> (0 < hot_base now b)%Z ->
  hot_score now b + eps * Rabs (hot_score now b)
  < hot_score now a - eps * Rabs (hot_score now a) ->
  ~ descending A hot now b a.
Proof.
  intros HA Ha Hb Hsep H.
  pose proof (descending_hot_within A eps now b a HA Hb Ha H) as K.
  unfold descending_within in K. lra.
Qed.

Lemma Rpower_25 : Rpower 25 (3 / 2) = 125.
Proof.
  pose proof (Rpower_three_halves_sqr 25 ltac:(lra)) as H.
  pose proof (Rpower_pos 25 (3 / 2)) as P. nra.
Qed.

Lemma Rpower_50 : Rpower 50 (3 / 2) = Rpower 2 (3 / 2) * 125.
Proof.
  rewrite <- Rpower_25, Rpower_mult_distr by lra. f_equal; lra.
Qed.
End HotScore.

(** The example of the specification: at [now], a post created at [now]
    with score 10 stands before one created 48 hours earlier with score 12,
    in every arithmetic that is accurate to a relative error of one half. *)
Lemma rank_hot_fresh_first (A : arithmetic) (eps : R) :
  total_preorder A -> accurate eps A -> (0 <= eps <= 1 / 2)%R ->
  rank A hot (48 * usec_per_hour) [old_twelve; fresh_ten]
  = Ok [fresh_ten; old_twelve].
Proof.
  intros HT HA He.
  assert (Hf : 0 < hot_base (48 * usec_per_hour) fresh_ten) by reflexivity.
  assert (Ho : 0 < hot_base (48 * usec_per_hour) old_twelve) by reflexivity.
  assert (S : ~ descending A hot (48 * usec_per_hour) old_twelve fresh_ten).
  { apply (separated_scores A eps); auto.
    unfold hot_score, hours_since_posted, fresh_ten, old_twelve, usec_per_hour.
    cbn [Posts.vote_count Posts.created_at].
    replace (IZR (48 * 3600000000 - 48 * 3600000000) / 1000000 / 3600 + 2)%R
      with 2%R by (rewrite Z.sub_diag; lra).
    replace (IZR (48 * 3600000000 - 0) / 1000000 / 3600 + 2)%R
      with 50%R by (rewrite Z.sub_0_r, mult_IZR; lra).
    rewrite Rpower_50.
    pose proof (Rpower_pos 2 (3 / 2)) as P.
    set (p := Rpower 2 (3 / 2)) in *.
    assert (E1 : (12 / (p * 125) = 12 / 125 * / p)%R) by (field; lra).
    assert (E2 : (10 / p = 10 * / p)%R) by reflexivity.
    assert (Q : (0 < / p)%R) by (apply Rinv_0_lt_compat, P).
    rewrite E1, E2.
    rewrite (Rabs_pos_eq (12 / 125 * / p)) by nra.
    rewrite (Rabs_pos_eq (10 * / p)) by nra.
    nra. }
  unfold rank. simpl all_defined. cbn [bind]. f_equal.
  simpl. simpl in S.
  match goal with
  | |- context [if ?c then _ else _] => destruct c eqn:E
  end.
  - elim S. reflexivity.
  - reflexivity.
Qed.




(** ** The post card *)

(** C10.  The upvote and downvote buttons of [PostCard] carry [handleUpvote]
    and [handleDownvote], whose bodies are empty: whatever the props and the
    backend, a click on either sends no request, leaves the backend and the
    props as they are, and the card renders the same, with the same counts. *)
Theorem C10_vote_buttons_do_nothing :
  forall (w : PostCard.page) (i : nat),
    i = PostCard.upvote_button \/ i = PostCard.downvote_button ->
    nth_error (PostCard.onClicks (PostCard.render (PostCard.shown w))) i
    = Some (if Nat.eqb i 0 then PostCard.handleUpvote
            else PostCard.handleDownvote)
    /\ PostCard.body PostCard.handleUpvote = []
    /\ PostCard.body PostCard.handleDownvote = []
    /\ PostCard.click i w = w
    /\ PostCard.render (PostCard.shown (PostCard.click i w))
       = PostCard.render (PostCard.shown w)
    /\ PostCard.upvote (PostCard.props_data (PostCard.shown (PostCard.click i w)))
       = PostCard.upvote (PostCard.props_data (PostCard.shown w))
    /\ PostCard.downvote
         (PostCard.props_data (PostCard.shown (PostCard.click i w)))
       = PostCard.downvote (PostCard.props_data (PostCard.shown w)).
Proof.
  intros w i Hi.
  assert (E : PostCard.onClicks (PostCard.render (PostCard.shown w))
              = [PostCard.handleUpvote; PostCard.handleDownvote;
                 PostCard.handleComment; PostCard.handleShare]).
  { unfold PostCard.render.
    destruct (PostCard.truthy _); reflexivity. }
  assert (C : PostCard.click i w = w).
  { unfold PostCard.click. rewrite E.
    destruct Hi as [-> | ->]; reflexivity. }
  rewrite C, E.
  destruct Hi as [-> | ->]; repeat split; reflexivity.
Qed.

Lemma C10_witness :
  let w := PostCard.mk_page forum_upvoted
             (PostCard.mk_props
                (PostCard.mk_data (PostCard.number 1) (PostCard.number 0)
                                  (PostCard.number 0) (PostCard.number 0))
                (PostCard.mk_content (PostCard.text "Hello forum")
                                     PostCard.undefined PostCard.undefined)) in
  PostCard.click PostCard.upvote_button w = w.
Proof.
  intros w.
  apply (C10_vote_buttons_do_nothing w PostCard.upvote_button (or_introl eq_refl)).
Defined.

(** * Further properties *)

(** ** What a vote request leaves alone *)

Lemma update_post_vote_count_others now op rows rows' :
  update_post_vote_count now op rows = Ok rows' ->
  Forall2 (fun r r' => Posts.id r' = Posts.id r
                       /\ (Posts.id r <> tg_post op -> r' = r)) rows rows'.
Proof.
  intros H.
  assert (G : forall e pid,
             update_posts_set_vote_count now e pid rows = Ok rows' ->
             Forall2 (fun r r' => Posts.id r' = Posts.id r
                                  /\ (Posts.id r <> pid -> r' = r)) rows rows').
  { intros e pid He. apply update_posts_set_vote_count_Ok in He.
    eapply Forall2_impl; [|exact He]. simpl. intros r r' Hr.
    destruct (N.eqb (Posts.id r) pid) eqn:E.
    - destruct Hr as (c & _ & ->). apply N.eqb_eq in E.
      split; [reflexivity | congruence].
    - subst r'. auto. }
  destruct op; simpl in *; eapply G; eauto.
Qed.

Lemma fire_others now p ops rows rows' :
  Forall (fun op => tg_post op = p) ops ->
  fire now ops rows = Ok rows' ->
  Forall2 (fun r r' => Posts.id r' = Posts.id r
                       /\ (Posts.id r <> p -> r' = r)) rows rows'.
Proof.
  intros Hops. revert rows.
  induction Hops as [|op ops Hop _ IH]; simpl; intros rows H.
  - inversion H; subst. apply Forall2_same. auto.
  - apply bind_Ok in H. destruct H as (rows1 & H1 & H2).
    apply update_post_vote_count_others in H1. apply IH in H2.
    eapply Forall2_chain; [|exact H1|exact H2].
    simpl. intros a b c [Hab1 Hab2] [Hbc1 Hbc2]. rewrite Hop in Hab2.
    split; [congruence|]. intros Hne.
    rewrite Hbc2; [auto | congruence].
Qed.

Lemma find_others (p q : uuid) (rows rows' : list Posts.row) :
  Forall2 (fun r r' => Posts.id r' = Posts.id r
                       /\ (Posts.id r <> p -> r' = r)) rows rows' ->
  q <> p ->
  find (fun r => N.eqb (Posts.id r) q) rows'
  = find (fun r => N.eqb (Posts.id r) q) rows.
Proof.
  intros H Hq. induction H as [|r r' l l' [Hid Hr] _ IH]; simpl; [reflexivity|].
  rewrite Hid. destruct (N.eqb (Posts.id r) q) eqn:E; [|exact IH].
  apply N.eqb_eq in E. rewrite Hr; [reflexivity | congruence].
Qed.

Lemma by_user_post_post (u p : uuid) (r : Votes.row) :
  Votes.by_user_post u p r = true -> Votes.post_id r = p.
Proof.
  unfold Votes.by_user_post. intros H. apply andb_true_iff in H.
  apply N.eqb_eq, H.
Qed.

Lemma filter_filter_negb {A : Type} (c : A -> bool) (l : list A) :
  filter (fun r => negb (c r)) (filter (fun r => negb (c r)) l)
  = filter (fun r => negb (c r)) l.
Proof.
  induction l as [|x l IH]; simpl; [reflexivity|].
  destruct (c x) eqn:E; simpl; [exact IH|]. rewrite E. simpl. f_equal. exact IH.
Qed.

Lemma filter_negb_updated (u p : uuid) (x : Z) (vs : list Votes.row) :
  filter (fun r => negb (Votes.by_user_post u p r))
         (map (fun r => if Votes.by_user_post u p r
                        then Votes.set_vote_type x r else r) vs)
  = filter (fun r => negb (Votes.by_user_post u p r)) vs.
Proof.
  induction vs as [|r vs IH]; simpl; [reflexivity|].
  destruct (Votes.by_user_post u p r) eqn:E; simpl.
  - unfold Votes.by_user_post in *. simpl. rewrite E. simpl. exact IH.
  - rewrite E. simpl. f_equal. exact IH.
Qed.

Lemma find_through_filter (u p u' q : uuid) (vs : list Votes.row) :
  (u', q) <> (u, p) ->
  find (Votes.by_user_post u' q) vs
  = find (Votes.by_user_post u' q)
         (filter (fun r => negb (Votes.by_user_post u p r)) vs).
Proof.
  intros Hne. induction vs as [|r vs IH]; simpl; [reflexivity|].
  destruct (Votes.by_user_post u p r) eqn:E; simpl.
  - destruct (Votes.by_user_post u' q r) eqn:E'; [|exact IH].
    apply by_user_post_key in E, E'. congruence.
  - destruct (Votes.by_user_post u' q r); [reflexivity | exact IH].
Qed.

(** What an accepted statement of the vote endpoint leaves as it was. *)
Lemma delete_votes_frame now u p d d' :
  delete_votes now (Votes.by_user_post u p) d = Ok d' ->
  users d' = users d /\ topics d' = topics d /\ reports d' = reports d
  /\ filter (fun r => negb (Votes.by_user_post u p r)) (votes d')
     = filter (fun r => negb (Votes.by_user_post u p r)) (votes d)
  /\ Forall2 (fun r r' => Posts.id r' = Posts.id r
                          /\ (Posts.id r <> p -> r' = r)) (posts d) (posts d').
Proof.
  unfold delete_votes. intros H.
  apply bind_Ok in H. destruct H as (posts' & Hf & H). inversion H; subst d'.
  simpl. repeat split; auto.
  - apply filter_filter_negb.
  - eapply fire_others; [|exact Hf].
    apply Forall_map, Forall_forall. intros r Hr.
    apply filter_In in Hr. simpl. apply by_user_post_post with u, Hr.
Qed.

Lemma update_votes_frame now u p x d d' :
  update_votes now (Votes.by_user_post u p) x d = Ok d' ->
  users d' = users d /\ topics d' = topics d /\ reports d' = reports d
  /\ filter (fun r => negb (Votes.by_user_post u p r)) (votes d')
     = filter (fun r => negb (Votes.by_user_post u p r)) (votes d)
  /\ Forall2 (fun r r' => Posts.id r' = Posts.id r
                          /\ (Posts.id r <> p -> r' = r)) (posts d) (posts d').
Proof.
  unfold update_votes. intros H. destruct (_ && _); [discriminate|].
  apply bind_Ok in H. destruct H as (posts' & Hf & H). inversion H; subst d'.
  simpl. repeat split; auto.
  - apply filter_negb_updated.
  - eapply fire_others; [|exact Hf].
    apply Forall_map, Forall_forall. intros r Hr.
    apply filter_In in Hr. simpl. apply by_user_post_post with u, Hr.
Qed.

Lemma insert_vote_frame now u p x d d' :
  insert_vote now u p x d = Ok d' ->
  users d' = users d /\ topics d' = topics d /\ reports d' = reports d
  /\ filter (fun r => negb (Votes.by_user_post u p r)) (votes d')
     = filter (fun r => negb (Votes.by_user_post u p r)) (votes d)
  /\ Forall2 (fun r r' => Posts.id r' = Posts.id r
                          /\ (Posts.id r <> p -> r' = r)) (posts d) (posts d').
Proof.
  unfold insert_vote. intros H.
  destruct (negb (Votes.vote_type_check x)); [discriminate|].
  destruct (existsb _ (votes d)); [discriminate|].
  destruct (existsb (Votes.by_user_post u p) (votes d)); [discriminate|].
  destruct (negb (user_exists u d)); [discriminate|].
  destruct (negb (post_exists p d)); [discriminate|].
  apply bind_Ok in H. destruct H as (posts' & Hf & H). inversion H; subst d'.
  simpl. repeat split; auto.
  - rewrite filter_app. simpl. unfold Votes.by_user_post at 2. simpl.
    rewrite !N.eqb_refl. simpl. apply app_nil_r.
  - apply update_post_vote_count_others in Hf. exact Hf.
Qed.

Lemma vote_statement_frame now u p x d d' :
  vote_statement now u p x d = Ok d' ->
  users d' = users d /\ topics d' = topics d /\ reports d' = reports d
  /\ filter (fun r => negb (Votes.by_user_post u p r)) (votes d')
     = filter (fun r => negb (Votes.by_user_post u p r)) (votes d)
  /\ Forall2 (fun r r' => Posts.id r' = Posts.id r
                          /\ (Posts.id r <> p -> r' = r)) (posts d) (posts d').
Proof.
  unfold vote_statement.
  destruct (existing_vote u p d) as [existing|].
  - destruct (x =? existing); [apply delete_votes_frame|].
    destruct (x =? 0); [apply delete_votes_frame | apply update_votes_frame].
  - apply insert_vote_frame.
Qed.

(** What a vote request, accepted or rejected, leaves as it was. *)
Lemma submitVote_frame now actor p x d :
  let d' := snd (submitVote now actor p x d) in
  users d' = users d /\ topics d' = topics d /\ reports d' = reports d
  /\ (forall q, q <> p -> find_post q d' = find_post q d)
  /\ (forall u q, Some u <> actor \/ q <> p ->
                  existing_vote u q d' = existing_vote u q d).
Proof.
  intros d'. subst d'. unfold submitVote.
  destruct actor as [a|]; [|simpl; auto].
  destruct (negb (post_exists p d)); [simpl; auto|].
  destruct (vote_statement now a p x d) as [d1|e] eqn:H; [|simpl; auto].
  destruct (score p d1); [|simpl; auto]. cbn [snd].
  apply vote_statement_frame in H. destruct H as (Hu & Ht & Hr & Hv & Hp).
  repeat split; auto.
  - intros q Hq. unfold find_post. apply (find_others p q _ _ Hp Hq).
  - intros u q Hne. unfold existing_vote.
    assert (K : (u, q) <> (a, p)).
    { intros E. inversion E; subst. destruct Hne; congruence. }
    rewrite (find_through_filter a p u q (votes d1) K), Hv.
    rewrite <- (find_through_filter a p u q (votes d) K). reflexivity.
Qed.

(** ** The remaining rows of the vote transition table *)

(** X1.  A first vote: when the actor has no vote on the post and asks for
    [x] in [{-1, 1}], the request is accepted, one row (the actor, the post,
    [x], stamped [now], under an identifier no vote row had) is appended to
    [votes], the score goes from [s] to [s + x], and the response carries
    the new score and [x]. *)
Theorem first_vote_is_recorded :
  forall now a p x s d,
    consistent d -> existing_vote a p d = None -> score p d = Some s ->
    user_exists a d = true -> x = -1 \/ x = 1 -> in_int4 (s + x) = true ->
    exists d',
      submitVote now (Some a) p x d = (inl (mk_vote_response (s + x) x), d')
      /\ votes d'
         = votes d ++ [Votes.mk (gen_random_uuid (map Votes.id (votes d)))
                                a p x now]
      /\ ~ In (gen_random_uuid (map Votes.id (votes d))) (map Votes.id (votes d))
      /\ existing_vote a p d' = Some x
      /\ score p d' = Some (s + x).
Proof.
  intros now a p x s d Hc Hv Hs Hu Hx Hin.
  destruct (submitVote_new now a p x s d Hc Hv Hs Hu Hx Hin)
    as (d' & NEW & E & _ & _ & _ & He & Hsc).
  exists d'. split; [exact E|].
  apply submitVote_accepted in E. destruct E as (u & Eu & _ & Hst & _).
  inversion Eu; subst u. unfold vote_statement in Hst. rewrite Hv in Hst.
  apply insert_vote_Ok in Hst. destruct Hst as (_ & _ & Hvs & _).
  repeat split; auto. apply gen_random_uuid_fresh.
Qed.

Lemma submitVote_zero :
  forall now a p v s d,
    consistent d -> existing_vote a p d = Some v -> score p d = Some s ->
    in_int4 (s - v) = true ->
    exists d',
      submitVote now (Some a) p 0 d = (inl (mk_vote_response (s - v) 0), d')
      /\ votes d' = filter (fun r => negb (Votes.by_user_post a p r)) (votes d)
      /\ existing_vote a p d' = None
      /\ score p d' = Some (s - v).
Proof.
  intros now a p v s d Hc Hv Hs Hin.
  destruct (delete_existing_vote now a p v s d Hc Hv Hs Hin)
    as (d' & Hd & Hvs & He & Hsc & _).
  exists d'. unfold submitVote, vote_statement.
  rewrite (find_post_exists _ _ _ Hs), Hv. cbn [negb].
  destruct (0 =? v); rewrite ?Z.eqb_refl, Hd, Hsc, He; auto.
Qed.

(** X2.  Retracting: when the actor's vote on the post is [v] and the request
    carries 0, the request is accepted, the actor's row is deleted, the score
    goes from [s] to [s - v], and the response carries the new score and 0. *)
Theorem zero_retracts_the_vote :
  forall now a p v s d,
    consistent d -> existing_vote a p d = Some v -> score p d = Some s ->
    in_int4 (s - v) = true ->
    exists d',
      submitVote now (Some a) p 0 d = (inl (mk_vote_response (s - v) 0), d')
      /\ votes d' = filter (fun r => negb (Votes.by_user_post a p r)) (votes d)
      /\ existing_vote a p d' = None
      /\ score p d' = Some (s - v).
Proof. exact submitVote_zero. Qed.


(** X3.  Value 0 from an actor without a vote on the post: the business
    logic takes the branch "create new vote with value", the row is refused
    by [CHECK (vote_type IN (-1, 1))], and the request is answered with the
    validation error; the database stays as it is. *)
Theorem zero_without_a_vote_is_refused :
  forall now a p d,
    post_exists p d = true -> existing_vote a p d = None ->
    submitVote now (Some a) p 0 d = (inr INVALID_INPUT, d).
Proof.
  intros now a p d Hp Hv. unfold submitVote, vote_statement.
  rewrite Hp, Hv. cbn [negb]. unfold insert_vote. simpl. reflexivity.
Qed.

(** X4.  A vote request on post [p] by actor [a], accepted or rejected,
    leaves the users, the topics and the reports as they are, every row of
    [posts] other than [p]'s untouched, and the recorded vote of every other
    (user, post) pair unchanged. *)
Theorem vote_request_touches_one_post_and_one_vote :
  forall now actor p x d,
    let d' := snd (submitVote now actor p x d) in
    users d' = users d /\ topics d' = topics d /\ reports d' = reports d
    /\ (forall q, q <> p -> find_post q d' = find_post q d)
    /\ (forall u q, Some u <> actor \/ q <> p ->
                    existing_vote u q d' = existing_vote u q d).
Proof.
  intros now actor p x d. apply submitVote_frame.
Qed.

(** ** Net votes *)

Lemma vote_sum_up_down (p : uuid) (vs : list Votes.row) :
  Forall (fun v => Votes.vote_type_check (Votes.vote_type v) = true) vs ->
  vote_sum p vs = upvotes p vs - downvotes p vs.
Proof.
  unfold upvotes, downvotes, votes_with.
  induction 1 as [|v vs Hv _ IH]; [reflexivity|].
  cbn [vote_sum filter]. rewrite IH. apply vote_type_check_spec in Hv.
  destruct (N.eqb (Votes.post_id v) p); cbn [andb]; [|lia].
  destruct Hv as [E|E]; rewrite E;
    try change (-1 =? 1) with false; try change (-1 =? -1) with true;
    try change (1 =? 1) with true; try change (1 =? -1) with false;
    cbn [List.length]; lia.
Qed.

(** X5.  [vote_count] is the net votes: in every state the API can reach, the
    score of a post is the number of its upvote rows minus the number of its
    downvote rows, so it lies between minus the downvotes and the upvotes. *)
Theorem score_is_upvotes_minus_downvotes :
  forall d p c,
    reachable d -> score p d = Some c ->
    c = upvotes p (votes d) - downvotes p (votes d)
    /\ - downvotes p (votes d) <= c <= upvotes p (votes d).
Proof.
  intros d p c R Hs. apply reachable_consistent in R.
  rewrite (score_vote_sum p d c R Hs).
  rewrite (vote_sum_up_down p (votes d) (votes_checked d R)).
  unfold upvotes, downvotes. lia.
Qed.

(** ** The score moves by the change of the actor's own vote *)

Lemma vote_sum_filter (p : uuid) (c : Votes.row -> bool) (vs : list Votes.row) :
  vote_sum p vs
  = vote_sum p (filter c vs) + vote_sum p (filter (fun r => negb (c r)) vs).
Proof.
  induction vs as [|v vs IH]; [reflexivity|].
  cbn [vote_sum filter]. destruct (c v); cbn [negb vote_sum]; lia.
Qed.

Lemma vote_sum_own (u p : uuid) (d : db) :
  consistent d ->
  vote_sum p (filter (Votes.by_user_post u p) (votes d)) = current_vote u p d.
Proof.
  intros Hc. unfold current_vote.
  destruct (existing_vote u p d) as [v|] eqn:E.
  - destruct (existing_vote_row u p d v Hc E) as (r & Hf & Hv & Hp & _).
    rewrite Hf. simpl. rewrite Hp, N.eqb_refl. lia.
  - unfold existing_vote in E.
    destruct (find (Votes.by_user_post u p) (votes d)) eqn:F; [discriminate|].
    rewrite (find_none_filter _ _ F). reflexivity.
Qed.

Lemma score_own_and_others (u p : uuid) (d : db) (s : Z) :
  consistent d -> score p d = Some s ->
  s = current_vote u p d
      + vote_sum p (filter (fun r => negb (Votes.by_user_post u p r)) (votes d)).
Proof.
  intros Hc Hs. rewrite (score_vote_sum p d s Hc Hs).
  rewrite (vote_sum_filter p (Votes.by_user_post u p)).
  rewrite (vote_sum_own u p d Hc). reflexivity.
Qed.

Lemma vote_statement_value now u p x d d' :
  consistent d -> vote_statement now u p x d = Ok d' ->
  current_vote u p d' = x /\ (x = -1 \/ x = 1)
  \/ current_vote u p d' = 0 /\ (x = 0 \/ x = current_vote u p d).
Proof.
  intros Hc H. pose proof (vote_statement_Ok _ _ _ _ _ _ H) as [He _].
  unfold current_vote. rewrite He. unfold vote_statement in H.
  destruct (existing_vote u p d) as [v|] eqn:E.
  - destruct (x =? v) eqn:E1.
    + apply Z.eqb_eq in E1. right. simpl. auto.
    + destruct (x =? 0) eqn:E2.
      * apply Z.eqb_eq in E2. right. simpl. auto.
      * left. simpl. split; [reflexivity|].
        destruct (existing_vote_row u p d v Hc E) as (r & Hf & _).
        unfold update_votes in H. rewrite Hf in H. simpl in H.
        rewrite andb_true_r in H.
        destruct (Votes.vote_type_check x) eqn:K; [|discriminate].
        apply vote_type_check_spec, K.
  - left. split; [reflexivity|].
    apply insert_vote_Ok in H. apply vote_type_check_spec, H.
Qed.

Lemma submitVote_accounting :
  forall now u p x d resp d' s,
    consistent d -> score p d = Some s ->
    submitVote now (Some u) p x d = (inl resp, d') ->
    (x = -1 \/ x = 0 \/ x = 1)
    /\ (user_vote resp = x \/ user_vote resp = 0)
    /\ user_vote resp = current_vote u p d'
    /\ vote_count resp = vote_sum p (votes d')
    /\ vote_count resp = s + (user_vote resp - current_vote u p d).
Proof.
  intros now u p x d resp d' s Hc Hs H.
  apply submitVote_accepted in H.
  destruct H as (u' & Eu & Hp & Hst & Hsc & Huv). inversion Eu; subst u'.
  pose proof (vote_statement_consistent _ _ _ _ _ _ Hc Hst) as Hc'.
  pose proof (vote_statement_value _ _ _ _ _ _ Hc Hst) as Hval.
  pose proof (vote_statement_frame _ _ _ _ _ _ Hst) as (_ & _ & _ & Hoth & _).
  pose proof (score_own_and_others u p d s Hc Hs) as E1.
  pose proof (score_own_and_others u p d' _ Hc' Hsc) as E2.
  rewrite Hoth in E2. fold (current_vote u p d') in Huv.
  assert (Hcur : current_vote u p d = -1 \/ current_vote u p d = 0
                 \/ current_vote u p d = 1).
  { unfold current_vote. destruct (existing_vote u p d) as [v|] eqn:E; [|auto].
    destruct (existing_vote_row u p d v Hc E) as (_ & _ & _ & _ & [K|K]); auto. }
  repeat split.
  - destruct Hval as [[_ [K|K]]|[_ [K|K]]]; auto. rewrite K. exact Hcur.
  - rewrite Huv. destruct Hval as [[K _]|[K _]]; auto.
  - exact Huv.
  - exact (score_vote_sum p d' _ Hc' Hsc).
  - rewrite Huv. lia.
Qed.

(** X6.  What an accepted vote request answers, on a database that satisfies
    the schema constraints: the requested value was -1, 0 or 1; [user_vote]
    is the requested value or 0 (the vote was toggled off or removed);
    [vote_count] is the sum of the vote rows of the post after the request,
    and it differs from the score before by exactly the change of the
    actor's own vote. *)
Theorem accepted_vote_moves_score_by_own_change :
  forall now u p x d resp d' s,
    consistent d -> score p d = Some s ->
    submitVote now (Some u) p x d = (inl resp, d') ->
    (x = -1 \/ x = 0 \/ x = 1)
    /\ (user_vote resp = x \/ user_vote resp = 0)
    /\ user_vote resp = current_vote u p d'
    /\ vote_count resp = vote_sum p (votes d')
    /\ vote_count resp = s + (user_vote resp - current_vote u p d).
Proof. exact submitVote_accounting. Qed.


(** ** Votes of different users *)

Lemma current_vote_after now u p x d d' :
  vote_statement now u p x d = Ok d' ->
  current_vote u p d'
  = match existing_vote u p d with
    | None => x
    | Some existing => if (x =? existing) || (x =? 0) then 0 else x
    end.
Proof.
  intros H. apply vote_statement_Ok in H. destruct H as [He _].
  unfold current_vote. rewrite He.
  destruct (existing_vote u p d) as [v|]; [|reflexivity].
  destruct ((x =? v) || (x =? 0)); reflexivity.
Qed.

Lemma post_exists_score (p : uuid) (d : db) :
  post_exists p d = true -> exists s, score p d = Some s.
Proof.
  apply (score_rescored (fun _ => 0) p d d).
  apply Forall2_same. intros r. apply rescored_refl.
Qed.

(** X7.  Votes of two different users on one post do not depend on the order
    they arrive in: when both orders are accepted, the final score is the
    same, and so is the recorded vote of each of the two users. *)
Theorem votes_of_two_users_commute :
  forall now1 now2 now3 now4 a b p x y d r1 d1 r2 d2 r3 d3 r4 d4,
    consistent d -> a <> b ->
    submitVote now1 (Some a) p x d = (inl r1, d1) ->
    submitVote now2 (Some b) p y d1 = (inl r2, d2) ->
    submitVote now3 (Some b) p y d = (inl r3, d3) ->
    submitVote now4 (Some a) p x d3 = (inl r4, d4) ->
    score p d2 = score p d4
    /\ vote_count r2 = vote_count r4
    /\ existing_vote a p d2 = existing_vote a p d4
    /\ existing_vote b p d2 = existing_vote b p d4
    /\ user_vote r1 = user_vote r4 /\ user_vote r2 = user_vote r3.
Proof.
  intros now1 now2 now3 now4 a b p x y d r1 d1 r2 d2 r3 d3 r4 d4
         Hc Hab H1 H2 H3 H4.
  assert (Hc1 : consistent d1).
  { pose proof (submitVote_consistent now1 (Some a) p x d Hc) as K.
    rewrite H1 in K. exact K. }
  assert (Hc3 : consistent d3).
  { pose proof (submitVote_consistent now3 (Some b) p y d Hc) as K.
    rewrite H3 in K. exact K. }
  (* what each request leaves of the other user's vote *)
  pose proof (submitVote_frame now1 (Some a) p x d) as F1.
  pose proof (submitVote_frame now2 (Some b) p y d1) as F2.
  pose proof (submitVote_frame now3 (Some b) p y d) as F3.
  pose proof (submitVote_frame now4 (Some a) p x d3) as F4.
  rewrite H1 in F1. rewrite H2 in F2. rewrite H3 in F3. rewrite H4 in F4.
  cbn [snd] in F1, F2, F3, F4.
  destruct F1 as (_ & _ & _ & _ & F1). destruct F2 as (_ & _ & _ & _ & F2).
  destruct F3 as (_ & _ & _ & _ & F3). destruct F4 as (_ & _ & _ & _ & F4).
  assert (Eb1 : existing_vote b p d1 = existing_vote b p d).
  { apply F1. left. congruence. }
  assert (Ea2 : existing_vote a p d2 = existing_vote a p d1).
  { apply F2. left. congruence. }
  assert (Ea3 : existing_vote a p d3 = existing_vote a p d).
  { apply F3. left. congruence. }
  assert (Eb4 : existing_vote b p d4 = existing_vote b p d3).
  { apply F4. left. congruence. }
  (* the statements run *)
  destruct (submitVote_accepted _ _ _ _ _ _ _ H1) as (u1 & U1 & P1 & S1 & Sc1 & V1).
  destruct (submitVote_accepted _ _ _ _ _ _ _ H2) as (u2 & U2 & P2 & S2 & Sc2 & V2).
  destruct (submitVote_accepted _ _ _ _ _ _ _ H3) as (u3 & U3 & P3 & S3 & Sc3 & V3).
  destruct (submitVote_accepted _ _ _ _ _ _ _ H4) as (u4 & U4 & P4 & S4 & Sc4 & V4).
  inversion U1; subst u1. inversion U2; subst u2.
  inversion U3; subst u3. inversion U4; subst u4.
  pose proof (vote_statement_Ok _ _ _ _ _ _ S1) as [N1 _].
  pose proof (vote_statement_Ok _ _ _ _ _ _ S2) as [N2 _].
  pose proof (vote_statement_Ok _ _ _ _ _ _ S3) as [N3 _].
  pose proof (vote_statement_Ok _ _ _ _ _ _ S4) as [N4 _].
  rewrite Eb1 in N2. rewrite Ea3 in N4.
  assert (Ea : existing_vote a p d2 = existing_vote a p d4) by congruence.
  assert (Eb : existing_vote b p d2 = existing_vote b p d4) by congruence.
  assert (Ea' : existing_vote a p d1 = existing_vote a p d4) by congruence.
  assert (Eb' : existing_vote b p d2 = existing_vote b p d3) by congruence.
  (* the scores *)
  destruct (post_exists_score p d P1) as (s & Hs).
  pose proof (submitVote_accounting _ _ _ _ _ _ _ _ Hc Hs H1) as (_ & _ & _ & _ & A1).
  pose proof (submitVote_accounting _ _ _ _ _ _ _ _ Hc1 Sc1 H2) as (_ & _ & _ & _ & A2).
  pose proof (submitVote_accounting _ _ _ _ _ _ _ _ Hc Hs H3) as (_ & _ & _ & _ & A3).
  pose proof (submitVote_accounting _ _ _ _ _ _ _ _ Hc3 Sc3 H4) as (_ & _ & _ & _ & A4).
  assert (W1 : user_vote r1 = user_vote r4) by (rewrite V1, V4, Ea'; reflexivity).
  assert (W2 : user_vote r2 = user_vote r3) by (rewrite V2, V3, Eb'; reflexivity).
  assert (Cb1 : current_vote b p d1 = current_vote b p d)
    by (unfold current_vote; rewrite Eb1; reflexivity).
  assert (Ca3 : current_vote a p d3 = current_vote a p d)
    by (unfold current_vote; rewrite Ea3; reflexivity).
  assert (VC : vote_count r2 = vote_count r4) by lia.
  repeat split; auto. rewrite Sc2, Sc4, VC. reflexivity.
Qed.

(** ** A vote stamps the post *)

Lemma touched_intro now c r :
  touched now r (update_updated_at_column now (Posts.set_vote_count c r)).
Proof. reflexivity. Qed.

Lemma touched_trans now a b c :
  touched now a b -> touched now b c -> touched now a c.
Proof.
  unfold touched. intros Hab Hbc. rewrite Hbc at 1. rewrite Hab at 1.
  reflexivity.
Qed.

Lemma update_post_vote_count_touched now op rows rows' :
  update_post_vote_count now op rows = Ok rows' ->
  Forall2 (fun r r' => Posts.id r' = Posts.id r
                       /\ (Posts.id r = tg_post op -> touched now r r'))
          rows rows'.
Proof.
  intros H.
  assert (G : forall e pid,
             update_posts_set_vote_count now e pid rows = Ok rows' ->
             Forall2 (fun r r' => Posts.id r' = Posts.id r
                                  /\ (Posts.id r = pid -> touched now r r'))
                     rows rows').
  { intros e pid He. apply update_posts_set_vote_count_Ok in He.
    eapply Forall2_impl; [|exact He]. simpl. intros r r' Hr.
    destruct (N.eqb (Posts.id r) pid) eqn:E.
    - destruct Hr as (c & _ & ->). split; [reflexivity|].
      intros _. apply touched_intro.
    - subst r'. split; [reflexivity|]. apply N.eqb_neq in E. congruence. }
  destruct op; simpl in *; eapply G; eauto.
Qed.

Lemma fire_touched now p ops rows rows' :
  Forall (fun op => tg_post op = p) ops -> ops <> [] ->
  fire now ops rows = Ok rows' ->
  Forall2 (fun r r' => Posts.id r' = Posts.id r
                       /\ (Posts.id r = p -> touched now r r')) rows rows'.
Proof.
  intros Hops. revert rows.
  induction Hops as [|op ops Hop Hrest IH]; intros rows Hne H; [congruence|].
  simpl in H. apply bind_Ok in H. destruct H as (rows1 & H1 & H2).
  apply update_post_vote_count_touched in H1. rewrite Hop in H1.
  destruct ops as [|op2 ops].
  - simpl in H2. inversion H2; subst rows1. exact H1.
  - apply IH in H2; [|discriminate].
    eapply Forall2_chain; [|exact H1|exact H2].
    simpl. intros a b c [Hab1 Hab2] [Hbc1 Hbc2].
    split; [congruence|]. intros E.
    apply touched_trans with b; [auto | apply Hbc2; congruence].
Qed.

Lemma find_some_filter {A : Type} (c : A -> bool) (l : list A) (x : A) :
  find c l = Some x -> filter c l <> [].
Proof.
  induction l as [|y l IH]; simpl; [discriminate|].
  destruct (c y); [discriminate | exact IH].
Qed.

Lemma vote_statement_touched now u p x d d' :
  vote_statement now u p x d = Ok d' ->
  Forall2 (fun r r' => Posts.id r' = Posts.id r
                       /\ (Posts.id r = p -> touched now r r'))
          (posts d) (posts d').
Proof.
  assert (T : forall (f : Votes.row -> TG_OP),
             (forall r, tg_post (f r) = Votes.post_id r) ->
             Forall (fun op => tg_post op = p)
                    (map f (filter (Votes.by_user_post u p) (votes d)))).
  { intros f Hf. apply Forall_map, Forall_forall. intros r Hr.
    apply filter_In in Hr. rewrite Hf. apply by_user_post_post with u, Hr. }
  unfold vote_statement, existing_vote.
  destruct (find (Votes.by_user_post u p) (votes d)) as [r0|] eqn:F; simpl.
  - apply find_some_filter in F.
    assert (N : forall f : Votes.row -> TG_OP,
               map f (filter (Votes.by_user_post u p) (votes d)) <> []).
    { intros f E. apply map_eq_nil in E. auto. }
    assert (D : delete_votes now (Votes.by_user_post u p) d = Ok d' ->
                Forall2 (fun r r' => Posts.id r' = Posts.id r
                                     /\ (Posts.id r = p -> touched now r r'))
                        (posts d) (posts d')).
    { unfold delete_votes. intros H. apply bind_Ok in H.
      destruct H as (posts' & Hf & H). inversion H. simpl.
      eapply fire_touched; [apply (T DELETE); reflexivity | apply N | exact Hf]. }
    destruct (x =? Votes.vote_type r0); [exact D|].
    destruct (x =? 0); [exact D|].
    unfold update_votes. intros H. destruct (_ && _); [discriminate|].
    apply bind_Ok in H. destruct H as (posts' & Hf & H). inversion H. simpl.
    eapply fire_touched;
      [apply (T (fun OLD => UPDATE OLD (Votes.set_vote_type x OLD))); reflexivity
      | apply N | exact Hf].
  - intros H. unfold insert_vote in H.
    destruct (negb (Votes.vote_type_check x)); [discriminate|].
    destruct (existsb _ (votes d)); [discriminate|].
    destruct (existsb (Votes.by_user_post u p) (votes d)); [discriminate|].
    destruct (negb (user_exists u d)); [discriminate|].
    destruct (negb (post_exists p d)); [discriminate|].
    apply bind_Ok in H. destruct H as (posts' & Hf & H). inversion H. simpl.
    apply update_post_vote_count_touched in Hf. exact Hf.
Qed.

Lemma find_Forall2 (P : Posts.row -> Posts.row -> Prop) (p : uuid)
    (rows rows' : list Posts.row) (r : Posts.row) :
  Forall2 (fun r r' => Posts.id r' = Posts.id r /\ P r r') rows rows' ->
  find (fun r => N.eqb (Posts.id r) p) rows = Some r ->
  exists r', find (fun r => N.eqb (Posts.id r) p) rows' = Some r' /\ P r r'.
Proof.
  induction 1 as [|a b l l' [Hid HP] _ IH]; simpl; [discriminate|].
  rewrite Hid. destruct (N.eqb (Posts.id a) p).
  - intros E. inversion E; subst a. eauto.
  - exact IH.
Qed.

(** X8.  Every accepted vote request writes the post row: after it, the row
    of the post carries the answered score and [updated_at = now] (the
    [BEFORE UPDATE] trigger fires for the score update of the vote trigger),
    while its owner, topic, title, content and [created_at] are what they
    were. *)
Theorem accepted_vote_stamps_the_post :
  forall now actor p x d resp d' r,
    submitVote now actor p x d = (inl resp, d') ->
    find_post p d = Some r ->
    find_post p d'
    = Some (Posts.mk (Posts.id r) (Posts.user_id r) (Posts.topic_id r)
                     (Posts.title r) (Posts.content r) (vote_count resp)
                     (Posts.created_at r) now).
Proof.
  intros now actor p x d resp d' r H Hr.
  apply submitVote_accepted in H. destruct H as (u & _ & _ & Hst & Hsc & _).
  apply vote_statement_touched in Hst.
  destruct (find_Forall2 _ p _ _ r Hst Hr) as (r' & Hr' & Ht).
  assert (Hp : Posts.id r = p).
  { apply find_some in Hr. apply N.eqb_eq, Hr. }
  specialize (Ht Hp). unfold find_post. rewrite Hr'.
  unfold score, find_post in Hsc. rewrite Hr' in Hsc. simpl in Hsc.
  inversion Hsc as [Hvc]. rewrite Ht. rewrite Hvc. reflexivity.
Qed.

(** ** Creating, editing and deleting posts *)

Lemma find_post_appended (i : uuid) (NEW : Posts.row) (d : db) :
  post_exists i d = false -> Posts.id NEW = i ->
  find_post i (with_posts (posts d ++ [NEW]) d) = Some NEW.
Proof.
  intros Hn Hi. unfold find_post. simpl. rewrite find_app_none.
  - simpl. rewrite Hi, N.eqb_refl. reflexivity.
  - unfold post_exists in Hn.
    destruct (find (fun r => N.eqb (Posts.id r) i) (posts d)) as [r|] eqn:F;
      [|reflexivity].
    pose proof (find_some _ _ F) as [Hin Hr].
    assert (K : existsb (fun r => N.eqb (Posts.id r) i) (posts d) = true)
      by (apply existsb_exists; eauto).
    congruence.
Qed.

Lemma fresh_post_id (d : db) :
  post_exists (gen_random_uuid (map Posts.id (posts d))) d = false.
Proof.
  unfold post_exists. apply not_true_iff_false. intros E.
  apply existsb_exists in E. destruct E as (r & Hin & Hr).
  apply N.eqb_eq in Hr.
  apply (gen_random_uuid_fresh (map Posts.id (posts d))).
  rewrite <- Hr. apply in_map, Hin.
Qed.

Lemma length_check (lo hi n : Z) :
  (lo <=? n) && (n <=? hi) = true <-> lo <= n <= hi.
Proof. rewrite andb_true_iff, !Z.leb_le. tauto. Qed.

Lemma existsb_pointwise {A : Type} (f g : A -> bool) (l : list A) :
  (forall x, f x = g x) -> existsb f l = existsb g l.
Proof.
  intros H. induction l as [|x l IH]; simpl; [reflexivity|].
  rewrite H, IH. reflexivity.
Qed.

Lemma createPost_inl now actor ti co t d i d' :
  createPost now actor ti co t d = (inl i, d') <->
  exists u,
    actor = Some u /\ user_exists u d = true
    /\ 5 <= LENGTH ti <= 300 /\ 10 <= LENGTH co <= 10000
    /\ topic_exists t d = true
    /\ i = gen_random_uuid (map Posts.id (posts d))
    /\ d' = with_posts (posts d ++ [Posts.mk i u (Some t) ti co 0 now now]) d.
Proof.
  unfold createPost. split.
  - destruct actor as [u|]; [|discriminate].
    destruct ((5 <=? LENGTH ti) && (LENGTH ti <=? 300)) eqn:E1; [|discriminate].
    destruct ((10 <=? LENGTH co) && (LENGTH co <=? 10000)) eqn:E2;
      [|discriminate].
    destruct (topic_exists t d) eqn:E3; [|discriminate]. cbn [negb].
    unfold insert_post. cbn [Posts.not_null Posts.topic_id negb].
    unfold Posts.title_length, Posts.content_length.
    cbn [Posts.title Posts.content]. rewrite E1, E2. cbn [andb negb].
    cbn [Posts.id]. rewrite fresh_post_id.
    destruct (user_exists u d) eqn:E4; cbn [negb]; [|discriminate].
    destruct (existsb _ (topics d)); cbn [negb]; [|discriminate].
    intros H. inversion H. exists u.
    apply length_check in E1. apply length_check in E2. repeat split; tauto.
  - intros (u & -> & E4 & E1 & E2 & E3 & -> & ->).
    apply length_check in E1. apply length_check in E2.
    rewrite E1, E2, E3. cbn [negb].
    unfold insert_post. cbn [Posts.not_null Posts.topic_id negb].
    unfold Posts.title_length, Posts.content_length.
    cbn [Posts.title Posts.content]. rewrite E1, E2. cbn [andb negb].
    cbn [Posts.id]. rewrite fresh_post_id, E4. cbn [negb].
    unfold topic_exists in E3. cbn [eq_opt_uuid].
    replace (existsb (fun r => N.eqb t (Topics.id r)) (topics d)) with true.
    + reflexivity.
    + rewrite <- E3. apply existsb_pointwise. intros r. apply N.eqb_sym.
Qed.



Lemma owned_post_inl actor p d r :
  owned_post actor p d = inl r <->
  find_post p d = Some r /\ actor = Some (Posts.user_id r).
Proof.
  unfold owned_post. split.
  - destruct actor as [u|]; [|discriminate].
    destruct (find_post p d) as [r0|]; [|discriminate].
    destruct (N.eqb (Posts.user_id r0) u) eqn:E; [|discriminate].
    apply N.eqb_eq in E. intros H. inversion H; subst. auto.
  - intros [-> ->]. rewrite N.eqb_refl. reflexivity.
Qed.

Lemma owned_post_inr actor p d e :
  owned_post actor p d = inr e ->
  e = match actor, find_post p d with
      | None, _ => UNAUTHORIZED
      | Some _, None => POST_NOT_FOUND
      | Some _, Some _ => FORBIDDEN
      end.
Proof.
  unfold owned_post. destruct actor as [u|]; [|intros H; inversion H; auto].
  destruct (find_post p d) as [r|]; [|intros H; inversion H; auto].
  destruct (N.eqb (Posts.user_id r) u); intros H; inversion H; auto.
Qed.

Lemma find_filter_keep {A : Type} (c k : A -> bool) (l : list A) :
  (forall x, c x = true -> k x = true) -> find c (filter k l) = find c l.
Proof.
  intros H. induction l as [|x l IH]; simpl; [reflexivity|].
  destruct (c x) eqn:E.
  - rewrite (H x E). simpl. rewrite E. reflexivity.
  - destruct (k x); simpl; [rewrite E|]; exact IH.
Qed.

Lemma find_filter_drop {A : Type} (c k : A -> bool) (l : list A) :
  (forall x, c x = true -> k x = false) -> find c (filter k l) = None.
Proof.
  intros H. induction l as [|x l IH]; simpl; [reflexivity|].
  destruct (k x) eqn:E; [|exact IH]. simpl.
  destruct (c x) eqn:E'; [|exact IH]. rewrite (H x E') in E. discriminate.
Qed.

(** What [DELETE FROM posts WHERE id = p] leaves of the other posts and of
    the votes on them. *)
Lemma delete_post_others now p d d' :
  delete_post now p d = Ok d' ->
  post_exists p d' = false
  /\ (forall u, existing_vote u p d' = None)
  /\ (forall q, q <> p -> find_post q d' = find_post q d)
  /\ (forall u q, q <> p -> existing_vote u q d' = existing_vote u q d).
Proof.
  rewrite delete_post_cascades. intros H. inversion H. clear H.
  unfold post_exists, existing_vote, find_post. cbn [posts votes].
  split; [apply existsb_filter_self|]. split; [|split].
  - intros u. rewrite find_filter_drop; [reflexivity|].
    intros x Hx. apply by_user_post_post in Hx. rewrite Hx, N.eqb_refl.
    reflexivity.
  - intros q Hq. apply find_filter_keep. intros x Hx.
    apply N.eqb_eq in Hx. apply negb_true_iff, N.eqb_neq. congruence.
  - intros u q Hq. f_equal. apply find_filter_keep. intros x Hx.
    apply by_user_post_post in Hx. apply negb_true_iff, N.eqb_neq. congruence.
Qed.

(** X10.  [DELETE /api/posts/:id] deletes the post exactly when the actor is
    its owner, and then also the votes and reports on it, leaving the other
    posts and the votes on them as they were.  Any other request is answered
    401 (no actor), 404 (no such post) or 403 (not the owner), never 500,
    and changes nothing. *)
Theorem deletePost_is_for_the_owner :
  forall now actor p d,
    (forall d',
        deletePost now actor p d = (inl tt, d') <->
        exists r,
          find_post p d = Some r /\ actor = Some (Posts.user_id r)
          /\ d' = mkdb (users d) (topics d)
                    (filter (fun r => negb (N.eqb (Posts.id r) p)) (posts d))
                    (filter (fun r => negb (N.eqb (Votes.post_id r) p)) (votes d))
                    (filter (fun r => negb (N.eqb (Reports.post_id r) p))
                            (reports d)))
    /\ (forall d',
           deletePost now actor p d = (inl tt, d') ->
           post_exists p d' = false
           /\ (forall u, existing_vote u p d' = None)
           /\ (forall q, q <> p -> find_post q d' = find_post q d)
           /\ (forall u q, q <> p -> existing_vote u q d' = existing_vote u q d))
    /\ (forall e d',
           deletePost now actor p d = (inr e, d') ->
           d' = d
           /\ e = match actor, find_post p d with
                  | None, _ => UNAUTHORIZED
                  | Some _, None => POST_NOT_FOUND
                  | Some _, Some _ => FORBIDDEN
                  end).
Proof.
  intros now actor p d. unfold deletePost.
  destruct (owned_post actor p d) as [r|e0] eqn:O.
  - apply owned_post_inl in O. destruct O as [Hr Ha].
    pose proof (delete_post_cascades now p d) as C.
    split; [|split].
    + intros d'. rewrite C. split.
      * intros H. inversion H. exists r. auto.
      * intros (r' & _ & _ & ->). reflexivity.
    + intros d' H. destruct (delete_post now p d) as [d1|] eqn:E;
        [|discriminate].
      inversion H; subst d1. apply (delete_post_others now p d d' E).
    + intros e d'. rewrite C. discriminate.
  - split; [|split].
    + intros d'. split; [discriminate|].
      intros (r & Hr & Ha & _).
      assert (K : owned_post actor p d = inl r) by (apply owned_post_inl; auto).
      congruence.
    + discriminate.
    + intros e d' H. inversion H; subst. split; [reflexivity|].
      apply owned_post_inr, O.
Qed.


Lemma update_post_Ok now p ti co d d' :
  update_post now p ti co d = Ok d' ->
  d' = with_posts
         (map (fun r => if N.eqb (Posts.id r) p
                        then update_updated_at_column now
                               (Posts.set_title_content ti co r)
                        else r) (posts d)) d
  /\ (post_exists p d = true ->
      5 <= LENGTH ti <= 300 /\ 10 <= LENGTH co <= 10000).
Proof.
  unfold update_post.
  destruct (forallb _ (filter _ (posts d))) eqn:F; [|discriminate].
  intros H. inversion H. split; [reflexivity|]. intros Hp.
  apply existsb_exists in Hp. destruct Hp as (r & Hin & Hr).
  rewrite forallb_forall in F.
  specialize (F r (proj2 (filter_In _ _ _) (conj Hin Hr))).
  apply andb_true_iff in F. destruct F as [F1 F2].
  split; apply length_check; assumption.
Qed.



(** ** Reports: one per user and post, always on an existing post *)

Lemma post_exists_ids (q : uuid) (d d' : db) :
  map Posts.id (posts d') = map Posts.id (posts d) ->
  post_exists q d' = post_exists q d.
Proof.
  unfold post_exists. generalize (posts d) (posts d').
  induction l as [|a l IH]; intros [|b l'] H; try discriminate; [reflexivity|].
  simpl in *. inversion H as [[E1 E2]]. rewrite E1, (IH l' E2). reflexivity.
Qed.

Lemma Forall2_ids (P : Posts.row -> Posts.row -> Prop)
    (rows rows' : list Posts.row) :
  Forall2 (fun r r' => Posts.id r' = Posts.id r /\ P r r') rows rows' ->
  map Posts.id rows' = map Posts.id rows.
Proof.
  induction 1 as [|a b l l' [E _] _ IH]; simpl; [reflexivity|].
  rewrite E, IH. reflexivity.
Qed.

Lemma map_id_updated (f : Posts.row -> Posts.row) (rows : list Posts.row) :
  (forall r, Posts.id (f r) = Posts.id r) ->
  map Posts.id (map f rows) = map Posts.id rows.
Proof.
  intros H. rewrite map_map. apply map_ext. exact H.
Qed.

Lemma reports_consistent_same (d d' : db) :
  map Posts.id (posts d') = map Posts.id (posts d) ->
  reports d' = reports d ->
  reports_consistent d -> reports_consistent d'.
Proof.
  intros Hp Hr [H1 H2]. constructor; rewrite Hr; [|exact H2].
  eapply Forall_impl; [|exact H1]. simpl. intros r Ex.
  rewrite (post_exists_ids _ d d' Hp). exact Ex.
Qed.

Lemma insert_post_Ok now u t ti co d d' :
  insert_post now u t ti co d = Ok d' ->
  d' = with_posts
         (posts d ++ [Posts.mk (gen_random_uuid (map Posts.id (posts d)))
                               u t ti co 0 now now]) d.
Proof.
  unfold insert_post. intros H.
  repeat match type of H with
         | (if ?c then _ else _) = _ => destruct c; [discriminate|]
         end.
  inversion H. reflexivity.
Qed.

Lemma insert_report_Ok now u p reason details d d' :
  insert_report now u p reason details d = Ok d' ->
  Reports.reason_check reason = true
  /\ Reports.details_check details = true
  /\ reports_by u p (reports d) = []
  /\ user_exists u d = true /\ post_exists p d = true
  /\ d' = with_reports
            (reports d ++ [Reports.mk (gen_random_uuid (map Reports.id (reports d)))
                                      (Some u) p reason details "pending" now]) d.
Proof.
  unfold insert_report. intros H.
  destruct (Reports.reason_check reason && Reports.details_check details) eqn:E1;
    [|discriminate].
  cbn [negb] in H. destruct (existsb _ (reports d)); [discriminate|].
  destruct (existsb (fun r => eq_opt_uuid (Reports.reporter_id r) u
                              && N.eqb (Reports.post_id r) p) (reports d)) eqn:E2;
    [discriminate|].
  destruct (user_exists u d); [|discriminate].
  destruct (post_exists p d); [|discriminate].
  cbn [negb] in H. inversion H. apply andb_true_iff in E1.
  repeat split; try tauto.
  unfold reports_by. clear - E2. induction (reports d) as [|r l IH];
    [reflexivity|].
  simpl in *. apply orb_false_iff in E2. destruct E2 as [Ea Eb].
  rewrite Ea. auto.
Qed.

Lemma filter_length_filter {A : Type} (c k : A -> bool) (l : list A) :
  (List.length (filter c (filter k l)) <= List.length (filter c l))%nat.
Proof.
  induction l as [|x l IH]; simpl; [lia|].
  destruct (k x); simpl; destruct (c x); simpl; lia.
Qed.

Lemma insert_post_reports now u t ti co d d' :
  reports_consistent d -> insert_post now u t ti co d = Ok d' ->
  reports_consistent d'.
Proof.
  intros [H1 H2] H. apply insert_post_Ok in H. subst d'.
  constructor; [|exact H2]. simpl.
  eapply Forall_impl; [|exact H1]. simpl. intros r Ex.
  unfold post_exists in *. simpl. rewrite existsb_app, Ex. reflexivity.
Qed.

Lemma update_post_reports now p ti co d d' :
  reports_consistent d -> update_post now p ti co d = Ok d' ->
  reports_consistent d'.
Proof.
  intros Hc H. apply update_post_Ok in H. destruct H as [-> _].
  apply (reports_consistent_same d); [|reflexivity|exact Hc].
  simpl. apply map_id_updated. intros r.
  destruct (N.eqb (Posts.id r) p); reflexivity.
Qed.

Lemma delete_post_reports now p d d' :
  reports_consistent d -> delete_post now p d = Ok d' ->
  reports_consistent d'.
Proof.
  intros [H1 H2] H. rewrite delete_post_cascades in H. inversion H.
  constructor; simpl.
  - clear - H1. unfold post_exists in *. simpl.
    induction H1 as [|r l Hr _ IH]; simpl; [constructor|].
    destruct (N.eqb (Reports.post_id r) p) eqn:E; simpl; [exact IH|].
    constructor; [|exact IH].
    rewrite existsb_filter_ne; [exact Hr|]. apply N.eqb_neq, E.
  - intros u q. unfold reports_by.
    eapply Nat.le_trans; [apply filter_length_filter | apply H2].
Qed.

Lemma insert_report_reports now u p reason details d d' :
  reports_consistent d -> insert_report now u p reason details d = Ok d' ->
  reports_consistent d'.
Proof.
  intros [H1 H2] H. apply insert_report_Ok in H.
  destruct H as (_ & _ & Hnone & _ & Hp & ->). constructor; simpl.
  - apply Forall_app. split; [exact H1|]. constructor; [exact Hp | constructor].
  - intros u' q. unfold reports_by in *. rewrite filter_app, length_app.
    simpl. destruct (N.eqb u u' && N.eqb p q) eqn:E.
    + apply andb_true_iff in E. destruct E as [Eu Eq].
      apply N.eqb_eq in Eu, Eq. subst u' q. rewrite Hnone. simpl. lia.
    + simpl. specialize (H2 u' q). lia.
Qed.

Lemma delete_votes_reports now cond d d' :
  reports_consistent d -> delete_votes now cond d = Ok d' ->
  reports_consistent d'.
Proof.
  intros Hc H. unfold delete_votes in H. apply bind_Ok in H.
  destruct H as (posts' & Hf & H). inversion H.
  apply (reports_consistent_same d); [|reflexivity|exact Hc].
  simpl. apply fire_Ok in Hf.
  apply (Forall2_ids (fun _ _ => True)).
  eapply Forall2_impl; [|exact Hf]. simpl. intros a b K. split; [apply K|exact I].
Qed.

Lemma vote_statement_reports now u p x d d' :
  reports_consistent d -> vote_statement now u p x d = Ok d' ->
  reports_consistent d'.
Proof.
  intros Hc H. apply vote_statement_frame in H.
  destruct H as (_ & _ & Hr & _ & Hp).
  apply (reports_consistent_same d); [|exact Hr|exact Hc].
  apply Forall2_ids in Hp. exact Hp.
Qed.

Lemma delete_topic_reports now t d d' :
  reports_consistent d -> delete_topic now t d = Ok d' ->
  reports_consistent d'.
Proof.
  intros Hc H. unfold delete_topic in H.
  destruct (forallb _ _); [|discriminate]. inversion H.
  apply (reports_consistent_same d); [|reflexivity|exact Hc].
  simpl. apply map_id_updated. intros r.
  destruct (eq_opt_uuid (Posts.topic_id r) t); reflexivity.
Qed.

Lemma delete_posts_reports now ps d d' :
  reports_consistent d -> delete_posts now ps d = Ok d' ->
  reports_consistent d'.
Proof.
  revert d. induction ps as [|p ps IH]; simpl; intros d Hc H.
  - inversion H; subst; exact Hc.
  - apply bind_Ok in H. destruct H as (d1 & H1 & H2).
    apply (IH d1); [|exact H2]. eapply delete_post_reports; eauto.
Qed.

Lemma delete_user_reports now u d d' :
  reports_consistent d -> delete_user now u d = Ok d' ->
  reports_consistent d'.
Proof.
  intros Hc H. unfold delete_user in H.
  apply bind_Ok in H. destruct H as (d1 & H1 & H).
  apply bind_Ok in H. destruct H as (d2 & H2 & H). inversion H as [E].
  assert (Hc2 : reports_consistent d2).
  { eapply delete_votes_reports; [|exact H2].
    eapply delete_posts_reports; eauto. }
  destruct Hc2 as [K1 K2]. constructor; simpl.
  - unfold post_exists in *. simpl. apply Forall_map.
    eapply Forall_impl; [|exact K1]. simpl. intros r Hr.
    destruct (eq_opt_uuid (Reports.reporter_id r) u); exact Hr.
  - intros u' q. eapply Nat.le_trans; [|apply (K2 u' q)].
    unfold reports_by. clear. induction (reports d2) as [|r l IH]; simpl; [lia|].
    destruct (eq_opt_uuid (Reports.reporter_id r) u) eqn:E; simpl.
    + destruct (eq_opt_uuid (Reports.reporter_id r) u' && _); simpl; lia.
    + destruct (eq_opt_uuid (Reports.reporter_id r) u' && _); simpl; lia.
Qed.

Lemma serve_reports (r : request) (d : db) :
  reports_consistent d -> reports_consistent (serve r d).
Proof.
  intros Hc. destruct r; simpl.
  - unfold submitVote. destruct actor; [|exact Hc].
    destruct (negb (post_exists p d)); [exact Hc|].
    destruct (vote_statement _ _ _ _ _) eqn:H; [|exact Hc].
    destruct (score p a); [|exact Hc].
    simpl. eapply vote_statement_reports; eauto.
  - unfold createPost. destruct actor; [|exact Hc].
    repeat match goal with
           | |- reports_consistent (snd (if ?c then _ else _)) =>
               destruct c; [exact Hc|]
           end.
    destruct (insert_post _ _ _ _ _ _) eqn:H; [|exact Hc].
    simpl. eapply insert_post_reports; eauto.
  - unfold updatePost. destruct (owned_post actor p d); [|exact Hc].
    destruct (update_post _ _ _ _ _) eqn:H; [|exact Hc].
    simpl. eapply update_post_reports; eauto.
  - unfold deletePost. destruct (owned_post actor p d); [|exact Hc].
    destruct (delete_post _ _ _) eqn:H; [|exact Hc].
    simpl. eapply delete_post_reports; eauto.
  - unfold reportPost. destruct actor; [|exact Hc].
    repeat match goal with
           | |- reports_consistent (snd (if ?c then _ else _)) =>
               destruct c; [exact Hc|]
           end.
    destruct (insert_report _ _ _ _ _ _) as [d'|e] eqn:H;
      [|destruct e; exact Hc].
    simpl. eapply insert_report_reports; eauto.
  - destruct (delete_topic now t d) eqn:H; [|exact Hc].
    eapply delete_topic_reports; eauto.
  - destruct (delete_user now u d) eqn:H; [|exact Hc].
    eapply delete_user_reports; eauto.
Qed.

Lemma reachable_reports (d : db) : reachable d -> reports_consistent d.
Proof.
  intros (d0 & rs & (_ & _ & Hr) & ->).
  assert (H0 : reports_consistent d0).
  { constructor; rewrite Hr; [constructor | intros; simpl; lia]. }
  clear Hr. revert d0 H0. induction rs as [|r rs IH]; intros d0 H0; [exact H0|].
  simpl. apply IH, serve_reports, H0.
Qed.

(** X12.  No dangling votes or reports, and no second report: in every state
    the API can reach, each row of [votes] and each row of [reports]
    references a post that exists, and a user has at most one report on a
    post. *)
Theorem votes_and_reports_reference_posts :
  forall d,
    reachable d ->
    (forall v, In v (votes d) -> post_exists (Votes.post_id v) d = true)
    /\ (forall r, In r (reports d) -> post_exists (Reports.post_id r) d = true)
    /\ (forall u p, (List.length (reports_by u p (reports d)) <= 1)%nat).
Proof.
  intros d R. pose proof (reachable_consistent d R) as Hc.
  pose proof (reachable_reports d R) as [H1 H2].
  split; [|split].
  - apply Forall_forall, (votes_reference_posts d Hc).
  - apply Forall_forall, H1.
  - exact H2.
Qed.

Lemma reportPost_inl now actor p reason details d d' :
  reportPost now actor p reason details d = (inl tt, d') ->
  exists u,
    actor = Some u
    /\ insert_report now u p reason details d = Ok d'
    /\ (reason = "other"%string -> details <> None).
Proof.
  unfold reportPost. destruct actor as [u|]; [|discriminate].
  destruct (negb (post_exists p d)); [discriminate|].
  destruct (String.eqb reason "other"
            && match details with Some _ => false | None => true end) eqn:E;
    [discriminate|].
  destruct (insert_report now u p reason details d) as [d1|e] eqn:H;
    [|destruct e; discriminate].
  intros K. inversion K; subst d1. exists u. repeat split; auto.
  intros -> ->. discriminate.
Qed.

Lemma reports_by_nonempty (u p : uuid) (rs : list Reports.row) (r : Reports.row) :
  In r (reports_by u p rs) ->
  existsb (fun r => eq_opt_uuid (Reports.reporter_id r) u
                    && N.eqb (Reports.post_id r) p) rs = true.
Proof.
  unfold reports_by. intros H. apply filter_In in H.
  apply existsb_exists. exists r. exact H.
Qed.

(** X13.  Reporting a post: an accepted report is stored as the last row of
    [reports], with the actor as reporter and status "pending"; the posts,
    their scores and the votes are not touched.  After it, every further
    report of the same post by the same user is rejected and changes
    nothing, and a well-formed one is answered [DUPLICATE_REPORT]. *)
Theorem a_post_is_reported_once :
  forall now u p reason details d d1,
    reportPost now (Some u) p reason details d = (inl tt, d1) ->
    d1 = with_reports
           (reports d
            ++ [Reports.mk (gen_random_uuid (map Reports.id (reports d)))
                           (Some u) p reason details "pending" now]) d
    /\ ~ In (gen_random_uuid (map Reports.id (reports d)))
            (map Reports.id (reports d))
    /\ (forall now' reason' details',
           exists e,
             reportPost now' (Some u) p reason' details' d1 = (inr e, d1)
             /\ (Reports.reason_check reason' = true ->
                 Reports.details_check details' = true ->
                 (reason' = "other"%string -> details' <> None) ->
                 e = DUPLICATE_REPORT)).
Proof.
  intros now u p reason details d d1 H.
  apply reportPost_inl in H. destruct H as (u' & Eu & H & _).
  inversion Eu; subst u'. apply insert_report_Ok in H.
  destruct H as (_ & _ & _ & _ & Hp & ->).
  split; [reflexivity|]. split; [apply gen_random_uuid_fresh|].
  intros now' reason' details'. unfold reportPost.
  assert (Hp' : post_exists p
                  (with_reports
                     (reports d
                      ++ [Reports.mk (gen_random_uuid (map Reports.id (reports d)))
                                     (Some u) p reason details "pending" now]) d)
                = true) by exact Hp.
  rewrite Hp'. cbn [negb].
  destruct (String.eqb reason' "other"
            && match details' with Some _ => false | None => true end) eqn:E.
  - eexists. split; [reflexivity|]. intros _ _ K.
    apply andb_true_iff in E. destruct E as [E1 E2].
    apply String.eqb_eq in E1. specialize (K E1).
    destruct details'; [discriminate | congruence].
  - unfold insert_report.
    destruct (Reports.reason_check reason' && Reports.details_check details')
      eqn:E1; cbn [negb].
    + destruct (existsb _ _) eqn:E2.
      * eexists. split; [reflexivity | auto].
      * cbn [reports with_reports]. rewrite existsb_app. simpl.
        rewrite !N.eqb_refl. simpl. rewrite orb_true_r.
        eexists. split; [reflexivity | auto].
    + eexists. split; [reflexivity|]. intros K1 K2. rewrite K1, K2 in E1.
      discriminate.
Qed.

(** ** A post created and deleted again *)

Lemma filter_all {A : Type} (k : A -> bool) (l : list A) :
  Forall (fun x => k x = true) l -> filter k l = l.
Proof.
  induction 1 as [|x l Hx _ IH]; simpl; [reflexivity|].
  rewrite Hx, IH. reflexivity.
Qed.

Lemma references_avoid_missing_post {A : Type} (post_id : A -> uuid)
    (i : uuid) (d : db) (l : list A) :
  post_exists i d = false ->
  Forall (fun x => post_exists (post_id x) d = true) l ->
  filter (fun x => negb (N.eqb (post_id x) i)) l = l.
Proof.
  intros Hn H. apply filter_all. eapply Forall_impl; [|exact H].
  simpl. intros x Hx. apply negb_true_iff, N.eqb_neq. congruence.
Qed.

(** X14.  Creating a post and deleting it again is a round trip: in a state
    the API can reach, when [createPost] is accepted and its author then
    deletes the new post, the request is accepted and the database is
    exactly the one before the post was created. *)
Theorem create_then_delete_restores_the_database :
  forall now now' actor ti co t d i d1,
    reachable d ->
    createPost now actor ti co t d = (inl i, d1) ->
    deletePost now' actor i d1 = (inl tt, d).
Proof.
  intros now now' actor ti co t d i d1 R H.
  pose proof (reachable_consistent d R) as Hc.
  pose proof (reachable_reports d R) as Hr.
  apply createPost_inl in H.
  destruct H as (u & -> & _ & _ & _ & _ & Hi & ->).
  assert (Hn : post_exists i d = false) by (subst i; apply fresh_post_id).
  unfold deletePost.
  assert (O : owned_post (Some u) i
                (with_posts (posts d ++ [Posts.mk i u (Some t) ti co 0 now now]) d)
              = inl (Posts.mk i u (Some t) ti co 0 now now)).
  { apply owned_post_inl. split; [|reflexivity].
    apply find_post_appended; auto. }
  rewrite O, delete_post_cascades. cbn [users topics posts votes reports with_posts].
  rewrite filter_app. simpl. rewrite N.eqb_refl. simpl. rewrite app_nil_r.
  rewrite (references_avoid_missing_post Votes.post_id i d (votes d) Hn
             (votes_reference_posts d Hc)).
  rewrite (references_avoid_missing_post Reports.post_id i d (reports d) Hn
             (reports_reference_posts d Hr)).
  rewrite filter_all.
  - destruct d; reflexivity.
  - apply Forall_forall. intros r Hin. apply negb_true_iff, N.eqb_neq.
    intros E. unfold post_exists in Hn.
    assert (K : existsb (fun r => N.eqb (Posts.id r) i) (posts d) = true).
    { apply existsb_exists. exists r. split; [exact Hin|]. apply N.eqb_eq, E. }
    congruence.
Qed.

(** ** Deleting topics and users *)

(** X15.  [DELETE FROM topics WHERE id = t] succeeds exactly for a topic no
    post belongs to, and then removes the topic row only: a topic with
    posts cannot be deleted, whatever the posts are ([ON DELETE SET NULL] on
    a [NOT NULL] column), and no post is ever left without a topic by it. *)
Theorem a_topic_with_posts_cannot_be_deleted :
  forall now t d,
    (forall d',
        delete_topic now t d = Ok d' <->
        Forall (fun r => Posts.topic_id r <> Some t) (posts d)
        /\ d' = with_topics
                  (filter (fun r => negb (N.eqb (Topics.id r) t)) (topics d)) d)
    /\ (forall e,
           delete_topic now t d = Err e ->
           e = not_null_violation
           /\ exists r, In r (posts d) /\ Posts.topic_id r = Some t)
    /\ posts (serve (DeleteTopic now t) d) = posts d.
Proof.
  intros now t d.
  destruct (existsb (fun r => eq_opt_uuid (Posts.topic_id r) t) (posts d)) eqn:E.
  - apply existsb_exists in E. destruct E as (r & Hin & Hr).
    assert (Ht : Posts.topic_id r = Some t).
    { destruct (Posts.topic_id r) as [x|]; [|discriminate].
      simpl in Hr. apply N.eqb_eq in Hr. congruence. }
    pose proof (delete_topic_refused now t d r Hin Ht) as K.
    split; [|split].
    + intros d'. rewrite K. split; [discriminate|].
      intros [F _]. rewrite Forall_forall in F. elim (F r Hin Ht).
    + intros e He. rewrite K in He. inversion He. eauto.
    + simpl. rewrite K. reflexivity.
  - assert (F : Forall (fun r => Posts.topic_id r <> Some t) (posts d)).
    { apply Forall_forall. intros r Hin Ht.
      assert (K : existsb (fun r => eq_opt_uuid (Posts.topic_id r) t) (posts d)
                  = true).
      { apply existsb_exists. exists r. split; [exact Hin|].
        rewrite Ht. simpl. apply N.eqb_refl. }
      congruence. }
    pose proof (delete_topic_unreferenced now t d F) as K.
    split; [|split].
    + intros d'. rewrite K. split.
      * intros H. inversion H. auto.
      * intros [_ ->]. reflexivity.
    + intros e He. rewrite K in He. discriminate.
    + simpl. rewrite K. reflexivity.
Qed.

Lemma filter_filter_among {A : Type} (key : A -> uuid) (p : uuid)
    (ps : list uuid) (l : list A) :
  filter (fun x => negb (among ps (key x)))
         (filter (fun x => negb (N.eqb (key x) p)) l)
  = filter (fun x => negb (among (p :: ps) (key x))) l.
Proof.
  induction l as [|x l IH]; simpl; [reflexivity|].
  destruct (N.eqb (key x) p); simpl; [exact IH|].
  destruct (among ps (key x)); simpl; [exact IH | f_equal; exact IH].
Qed.

(** The posts [ps] deleted one after the other, with their votes and
    reports. *)
Lemma delete_posts_cascades now ps d :
  delete_posts now ps d
  = Ok (mkdb (users d) (topics d)
          (filter (fun r => negb (among ps (Posts.id r))) (posts d))
          (filter (fun r => negb (among ps (Votes.post_id r))) (votes d))
          (filter (fun r => negb (among ps (Reports.post_id r))) (reports d))).
Proof.
  revert d. induction ps as [|p ps IH]; intros d; simpl.
  - f_equal. destruct d; simpl. f_equal; symmetry; apply filter_all;
      apply Forall_forall; reflexivity.
  - rewrite delete_post_cascades. simpl. rewrite IH. simpl.
    rewrite (filter_filter_among Posts.id), (filter_filter_among Votes.post_id),
      (filter_filter_among Reports.post_id).
    reflexivity.
Qed.

Lemma Forall2_In_r {A B : Type} (R : A -> B -> Prop) (l : list A) (l' : list B)
    (b : B) :
  Forall2 R l l' -> In b l' -> exists a, In a l /\ R a b.
Proof.
  induction 1 as [|x y l l' Hxy _ IH]; simpl; [tauto|].
  intros [->|Hin]; [eauto|]. destruct (IH Hin) as (a & Ha & Hr). eauto.
Qed.

Lemma among_In (ps : list uuid) (i : uuid) : among ps i = true <-> In i ps.
Proof.
  unfold among. rewrite existsb_exists. split.
  - intros (x & Hin & E). apply N.eqb_eq in E. subst. exact Hin.
  - intros H. exists i. split; [exact H | apply N.eqb_refl].
Qed.

Lemma delete_user_Ok :
  forall now u d d',
    delete_user now u d = Ok d' ->
    user_exists u d' = false
    /\ topics d' = topics d
    /\ (forall r, In r (posts d') -> Posts.user_id r <> u)
    /\ (forall v, In v (votes d') -> Votes.user_id v <> u /\ In v (votes d))
    /\ (forall r, In r (reports d') -> Reports.reporter_id r <> Some u)
    /\ (forall r,
           In r (reports d) -> Reports.reporter_id r = Some u ->
           (forall q, In q (posts d) -> Posts.user_id q = u ->
                      Posts.id q <> Reports.post_id r) ->
           In (Reports.set_reporter_id None r) (reports d')).
Proof.
  intros now u d d' H. unfold delete_user in H.
  rewrite delete_posts_cascades in H. cbn [bind] in H.
  apply bind_Ok in H. destruct H as (d2 & H2 & H). inversion H as [E]. clear H.
  unfold delete_votes in H2. apply bind_Ok in H2.
  destruct H2 as (posts' & Hf & H2). inversion H2 as [E2]. clear H2.
  apply fire_Ok in Hf. cbn [posts votes] in Hf.
  cbn [users topics posts votes reports with_users with_reports with_posts
       with_votes].
  set (own := map Posts.id (filter (fun r => N.eqb (Posts.user_id r) u) (posts d)))
    in *.
  assert (Hown : forall q, In q (posts d) -> Posts.user_id q = u ->
                           among own (Posts.id q) = true).
  { intros q Hq Hu. apply among_In. unfold own. apply in_map.
    apply filter_In. split; [exact Hq|]. apply N.eqb_eq, Hu. }
  split; [|split; [|split; [|split; [|split]]]].
  - unfold user_exists. cbn [users]. clear.
    induction (users d) as [|x l IH]; simpl; [reflexivity|].
    destruct (N.eqb (Users.id x) u) eqn:K; simpl; [exact IH|].
    rewrite K. exact IH.
  - reflexivity.
  - intros r' Hin. destruct (Forall2_In_r _ _ _ r' Hf Hin) as (r & Hr & Hres).
    destruct Hres as (_ & Hu & _). rewrite Hu. apply filter_In in Hr.
    destruct Hr as [Hr Ha]. intros K. rewrite (Hown r Hr K) in Ha. discriminate.
  - intros v Hin. apply filter_In in Hin. destruct Hin as [Hin Hu].
    apply filter_In in Hin. destruct Hin as [Hin _].
    split; [|exact Hin]. apply negb_true_iff, N.eqb_neq in Hu. exact Hu.
  - intros r' Hin. apply in_map_iff in Hin. destruct Hin as (r & <- & _).
    destruct (eq_opt_uuid (Reports.reporter_id r) u) eqn:K.
    + discriminate.
    + intros K'. rewrite K' in K. simpl in K. rewrite N.eqb_refl in K.
      discriminate.
  - intros r Hin Hr Hq. apply in_map_iff. exists r. split.
    + rewrite Hr. simpl. rewrite N.eqb_refl. reflexivity.
    + apply filter_In. split; [exact Hin|]. apply negb_true_iff.
      apply not_true_iff_false. intros K. apply among_In in K.
      unfold own in K. apply in_map_iff in K. destruct K as (q & Eq & Hq').
      apply filter_In in Hq'. destruct Hq' as [Hq1 Hq2].
      apply N.eqb_eq in Hq2. exact (Hq q Hq1 Hq2 Eq).
Qed.

(** X16.  [DELETE FROM users WHERE id = u], when it succeeds, removes the
    user, the user's posts and the user's votes, and keeps the topics; no
    vote is added.  The user's reports on other users' posts are not
    deleted: they stay, with [reporter_id] NULL. *)
Theorem delete_user_keeps_the_reports_anonymised :
  forall now u d d',
    delete_user now u d = Ok d' ->
    user_exists u d' = false
    /\ topics d' = topics d
    /\ (forall r, In r (posts d') -> Posts.user_id r <> u)
    /\ (forall v, In v (votes d') -> Votes.user_id v <> u /\ In v (votes d))
    /\ (forall r, In r (reports d') -> Reports.reporter_id r <> Some u)
    /\ (forall r,
           In r (reports d) -> Reports.reporter_id r = Some u ->
           (forall q, In q (posts d) -> Posts.user_id q = u ->
                      Posts.id q <> Reports.post_id r) ->
           In (Reports.set_reporter_id None r) (reports d')).
Proof. exact delete_user_Ok. Qed.


(** ** The hot order *)

Section HotOrder.
Local Open Scope R_scope.









End HotOrder.



Lemma all_defined_inv now rows :
  all_defined now rows = Ok tt -> Forall (fun r => 0 < hot_base now r) rows.
Proof.
  induction rows as [|r rows IH]; simpl; [constructor|].
  unfold hot_defined. destruct (hot_base now r <? 0) eqn:E1; [discriminate|].
  destruct (hot_base now r =? 0) eqn:E2; [discriminate|].
  simpl. intros H. constructor; [|exact (IH H)].
  apply Z.ltb_ge in E1. apply Z.eqb_neq in E2. lia.
Qed.

(** X19.  The hot feed can fail, the other two cannot: [rank hot] returns
    the feed exactly when every post was created less than two hours after
    [now] (so always for posts created up to [now]); for a post further in
    the future the score expression raises.  [rank new] and [rank top]
    return for every list of posts. *)
Theorem hot_feed_needs_posts_not_from_the_future :
  forall A now rows,
    ((exists out, rank A hot now rows = Ok out) <->
     Forall (fun r => Posts.created_at r < now + 2 * usec_per_hour) rows)
    /\ (exists out, rank A new now rows = Ok out)
    /\ (exists out, rank A top now rows = Ok out).
Proof.
  intros A now rows. split; [|split; simpl; eauto]. unfold rank. split.
  - intros (out & H). destruct (all_defined now rows) as [[]|e] eqn:E;
      [|discriminate].
    apply all_defined_inv in E. eapply Forall_impl; [|exact E].
    unfold hot_base. simpl. intros r Hr. lia.
  - intros H. rewrite all_defined_Ok; [simpl; eauto|].
    eapply Forall_impl; [|exact H]. unfold hot_base. simpl. intros r Hr. lia.
Qed.

(** ** The vote arrows *)

Lemma in_int4_between (a b c : Z) :
  in_int4 a = true -> in_int4 c = true -> a <= b <= c -> in_int4 b = true.
Proof.
  rewrite !in_int4_spec. lia.
Qed.

(** X20.  A click on an arrow of [VoteButtons] whose [user_vote] prop shows
    the user's recorded vote is always accepted: the up arrow leaves the
    user's vote at 1, or at 0 when it was 1 (and the down arrow likewise
    with -1), and [onVoteChange] receives the new score, which is the old
    one moved by the change of the user's vote.  Without a logged-in user a
    click sends no request.  With a stale prop the call can be refused: the
    prop shows an upvote the ledger does not have, and the up arrow sends 0,
    which is rejected. *)
Theorem vote_click_sets_the_arrow :
  forall now u a pr s d,
    let p := VoteButtons.post_id pr in
    consistent d -> user_exists u d = true -> score p d = Some s ->
    in_int4 (s - 2) = true -> in_int4 (s + 2) = true ->
    (match VoteButtons.user_vote pr with
     | Some v => v
     | None => 0
     end = current_vote u p d ->
     exists d',
       let x := match a with
                | VoteButtons.upvote => if current_vote u p d =? 1 then 0 else 1
                | VoteButtons.downvote =>
                    if current_vote u p d =? -1 then 0 else -1
                end in
       vote_click now (Some u) a pr d
       = (VoteButtons.onVoteChange (s + (x - current_vote u p d)) x, d')
       /\ current_vote u p d' = x /\ score p d' = Some (s + (x - current_vote u p d)))
    /\ vote_click now None a pr d
       = (VoteButtons.tooltip "Login to vote", d)
    /\ (VoteButtons.user_vote pr = Some 1 -> existing_vote u p d = None ->
        vote_click now (Some u) VoteButtons.upvote pr d
        = (VoteButtons.rejected INVALID_INPUT, d)).
Proof.
  intros now u a pr s d p Hc Hu Hs Lo Hi. split; [|split].
  - intros Hpr. unfold vote_click. fold p.
    assert (Hval : VoteButtons.vote_of_click a (VoteButtons.user_vote pr)
                   = match a with
                     | VoteButtons.upvote =>
                         if current_vote u p d =? 1 then 0 else 1
                     | VoteButtons.downvote =>
                         if current_vote u p d =? -1 then 0 else -1
                     end).
    { rewrite <- Hpr. destruct a, (VoteButtons.user_vote pr); reflexivity. }
    rewrite Hval. clear Hval Hpr. unfold current_vote.
    destruct (existing_vote u p d) as [v|] eqn:E.
    + destruct (existing_vote_row u p d v Hc E) as (_ & _ & _ & _ & Hv).
      assert (R1 : in_int4 (s - v) = true)
        by (apply (in_int4_between (s - 2) _ (s + 2)); auto; lia).
      assert (R2 : in_int4 (s - 2 * v) = true)
        by (apply (in_int4_between (s - 2) _ (s + 2)); auto; lia).
      destruct (submitVote_zero now u p v s d Hc E Hs R1)
        as (dz & Ez & _ & Vz & Sz).
      destruct (submitVote_opposite now u p v s d Hc E Hs R2)
        as (do & Eo & _ & Vo & So).
      destruct a, Hv as [-> | ->]; simpl in *.
      * exists do. rewrite Eo, Vo, So. repeat split; f_equal; lia.
      * exists dz. rewrite Ez, Vz, Sz. repeat split; f_equal; lia.
      * exists dz. rewrite Ez, Vz, Sz. repeat split; f_equal; lia.
      * exists do. rewrite Eo, Vo, So. repeat split; f_equal; lia.
    + assert (R1 : in_int4 (s + 1) = true)
        by (apply (in_int4_between (s - 2) _ (s + 2)); auto; lia).
      assert (R2 : in_int4 (s + -1) = true)
        by (apply (in_int4_between (s - 2) _ (s + 2)); auto; lia).
      destruct (submitVote_new now u p 1 s d Hc E Hs Hu (or_intror eq_refl) R1)
        as (d1 & _ & E1 & _ & _ & _ & V1 & S1).
      destruct (submitVote_new now u p (-1) s d Hc E Hs Hu (or_introl eq_refl) R2)
        as (d2 & _ & E2 & _ & _ & _ & V2 & S2).
      destruct a; simpl in *.
      * exists d1. rewrite E1, V1, S1. repeat split; f_equal; lia.
      * exists d2. rewrite E2, V2, S2. repeat split; f_equal; lia.
  - reflexivity.
  - intros Hpr E. unfold vote_click. fold p. rewrite Hpr. simpl.
    unfold submitVote, vote_statement.
    rewrite (find_post_exists _ _ _ Hs), E. reflexivity.
Qed.

(** ** The session on the client *)

(** X21.  A token the server no longer accepts still logs the client in:
    on mount, [AuthProvider] stores whatever body [/api/auth/me] answers
    with, without looking at the status, so after a 401 the [user] of the
    context is the error body, the components take the visitor for logged
    in, the token stays in [localStorage], and every vote sent with the
    headers of [api.js] is refused as unauthenticated. *)
Theorem rejected_token_still_logs_in :
  forall sessions d t,
    t <> EmptyString ->
    sessions ("Bearer " ++ t)%string = None ->
    let s := AuthContext.useEffect (fun h => Some (auth_me sessions d h))
               (AuthContext.initial (Some t)) in
    AuthContext.user s
    = Some (AuthContext.error_body "Not authenticated" "UNAUTHORIZED")
    /\ AuthContext.logged_in s = true
    /\ AuthContext.loading s = false
    /\ AuthContext.token s = Some t
    /\ AuthContext.ok (auth_me sessions d ("Bearer " ++ t)%string) = false
    /\ (forall now p x,
           submitVote now (actor_of sessions (AuthContext.getHeaders s)) p x d
           = (inr UNAUTHORIZED, d)).
Proof.
  intros sessions d t Ht Hs s.
  assert (T : AuthContext.truthy (Some t) = true).
  { simpl. apply negb_true_iff, String.eqb_neq, Ht. }
  assert (E : s = AuthContext.mk_state (Some t)
                    (Some (AuthContext.error_body "Not authenticated"
                                                  "UNAUTHORIZED")) false).
  { subst s. unfold AuthContext.useEffect, AuthContext.initial.
    cbn [AuthContext.token]. rewrite T. unfold auth_me. rewrite Hs.
    reflexivity. }
  rewrite E. repeat split.
  - unfold auth_me. rewrite Hs. reflexivity.
  - intros now p x. unfold AuthContext.getHeaders, AuthContext.getToken.
    cbn [AuthContext.token]. rewrite T. unfold actor_of. simpl.
    simpl in Hs. rewrite Hs. reflexivity.
Qed.



(** ** The post card *)

(** X23.  The post card is static.  A click on any of its buttons (upvote,
    downvote, Comment, Share), or anywhere else, leaves the page as it is:
    no request is sent and nothing shown changes.  And the card never shows
    media: what it renders does not depend on [content.image] or
    [content.video]. *)
Theorem post_card_is_static :
  (forall (w : PostCard.page) (i : nat), PostCard.click i w = w)
  /\ (forall h, PostCard.body h = [])
  /\ (forall data post image video image' video',
         PostCard.render
           (PostCard.mk_props data (PostCard.mk_content post image video))
         = PostCard.render
             (PostCard.mk_props data (PostCard.mk_content post image' video'))).
Proof.
  split; [|split].
  - intros w i. unfold PostCard.click.
    destruct (nth_error _ i) as [h|]; [|reflexivity].
    destruct h; reflexivity.
  - intros h. destruct h; reflexivity.
  - reflexivity.
Qed.

(** ** What a vote does to the feed *)

Lemma StronglySorted_Forall2 {A : Type} (S : A -> A -> Prop)
    (R R' : A -> A -> Prop) (l l' : list A) :
  (forall a a' b b', S a a' -> S b b' -> R a b -> R' a' b') ->
  Forall2 S l l' -> StronglySorted R l -> StronglySorted R' l'.
Proof.
  intros H F. induction F as [|x x' l l' Hx F IH]; intros Hs; [constructor|].
  apply StronglySorted_inv in Hs. destruct Hs as [Hs Hd].
  constructor; [apply IH, Hs|].
  clear IH Hs. induction F as [|y y' l l' Hy F IH]; [constructor|].
  inversion Hd; subst. constructor; [|apply IH; assumption].
  apply (H x x' y y'); assumption.
Qed.

Lemma Forall2_flip {A B : Type} (R : A -> B -> Prop) (l : list A) (l' : list B) :
  Forall2 R l l' -> Forall2 (fun b a => R a b) l' l.
Proof. induction 1; constructor; assumption. Qed.

Lemma submitVote_rescored now actor p x d :
  exists K,
    Forall2 (fun r r' => rescored (K (Posts.id r)) r r')
            (posts d) (posts (snd (submitVote now actor p x d))).
Proof.
  assert (Same : exists K : uuid -> Z,
             Forall2 (fun r r' => rescored (K (Posts.id r)) r r')
                     (posts d) (posts d)).
  { exists (fun _ => 0). apply Forall2_same. intros r. apply rescored_refl. }
  unfold submitVote. destruct actor as [u|]; [|exact Same].
  destruct (negb (post_exists p d)); [exact Same|].
  destruct (vote_statement now u p x d) as [d1|e] eqn:H; [|exact Same].
  destruct (score p d1); [|exact Same].
  apply vote_statement_Ok in H. apply H.
Qed.

Lemma submitVote_same_post now actor p x d :
  Forall2 same_post (posts d) (posts (snd (submitVote now actor p x d))).
Proof.
  destruct (submitVote_rescored now actor p x d) as (K & H).
  eapply Forall2_impl; [|exact H]. simpl.
  intros a b (Hid & Hu & Ht & Hti & Hco & Hca & _).
  unfold same_post. auto 10.
Qed.

Lemma ranking_new_related (A : arithmetic) (t : timestamp)
    (rows rows' out : list Posts.row) :
  Forall2 same_post rows rows' -> ranking A new t rows out ->
  exists out',
    ranking A new t rows' out' /\ Forall2 same_post out out'.
Proof.
  intros F [Hp Hs].
  destruct (Permutation_Forall2 Hp F) as (out' & Hp' & F').
  exists out'. split; [|exact F']. split; [exact Hp'|].
  apply (StronglySorted_Forall2 same_post (descending A new t)
           (descending A new t) out out'); [|exact F'|exact Hs].
  intros a a' b b' Ha Hb. simpl.
  destruct Ha as (_ & _ & _ & _ & _ & Ca). destruct Hb as (_ & _ & _ & _ & _ & Cb).
  rewrite Ca, Cb. auto.
Qed.

Lemma same_post_ids (l l' : list Posts.row) :
  Forall2 same_post l l' -> map Posts.id l' = map Posts.id l.
Proof.
  induction 1 as [|a b l l' (Hid & _) _ IH]; simpl; [reflexivity|].
  rewrite Hid, IH. reflexivity.
Qed.

(** X24.  Votes do not reorder the [new] feed.  Whatever vote request is
    served, accepted or not, the orders [ORDER BY] allows for [new] are the
    same before and after it: each order of the posts after the request is
    an order allowed before it, post by post with the same identifier,
    author, topic, title, content and creation time, and the other way
    round.  Only the order among posts of one creation time, which [ORDER
    BY] leaves open, can differ between two queries. *)
Theorem votes_do_not_reorder_the_new_feed :
  forall A now actor p x d t,
    (forall out',
        ranking A new t (posts (snd (submitVote now actor p x d))) out' ->
        exists out,
          ranking A new t (posts d) out
          /\ map Posts.id out' = map Posts.id out
          /\ Forall2 same_post out out')
    /\ (forall out,
           ranking A new t (posts d) out ->
           exists out',
             ranking A new t (posts (snd (submitVote now actor p x d))) out'
             /\ map Posts.id out' = map Posts.id out
             /\ Forall2 same_post out out').
Proof.
  intros A now actor p x d t.
  pose proof (submitVote_same_post now actor p x d) as F. split.
  - intros out' H.
    assert (F' : Forall2 (fun b a => same_post a b)
                   (posts (snd (submitVote now actor p x d))) (posts d))
      by (apply Forall2_flip, F).
    destruct H as [Hp Hs].
    destruct (Permutation_Forall2 Hp F') as (out & Hp' & G).
    assert (G' : Forall2 same_post out out').
    { apply Forall2_flip in G. exact G. }
    exists out. split; [|split; [apply same_post_ids, G' | exact G']].
    split; [exact Hp'|].
    apply (StronglySorted_Forall2 (fun b a => same_post a b)
             (descending A new t) (descending A new t) out' out);
      [|exact G|exact Hs].
    intros a a' b b' Ha Hb. simpl.
    destruct Ha as (_ & _ & _ & _ & _ & Ca).
    destruct Hb as (_ & _ & _ & _ & _ & Cb).
    rewrite Ca, Cb. auto.
  - intros out H.
    destruct (ranking_new_related A t _ _ out F H) as (out' & H' & G).
    exists out'. split; [exact H'|]. split; [apply same_post_ids, G | exact G].
Qed.

(** ** A deleted post *)

Lemma post_exists_find (p : uuid) (d : db) :
  post_exists p d = false -> find_post p d = None.
Proof.
  unfold post_exists, find_post. intros H.
  destruct (find (fun r => N.eqb (Posts.id r) p) (posts d)) as [r|] eqn:F;
    [|reflexivity].
  apply find_some in F.
  assert (K : existsb (fun r => N.eqb (Posts.id r) p) (posts d) = true)
    by (apply existsb_exists; eauto).
  congruence.
Qed.

(** X25.  A deleted post is gone for every endpoint: after an accepted
    [DELETE /api/posts/:id], a vote on the post, a report of it, an edit and
    a second delete by any logged-in user are all answered
    [POST_NOT_FOUND] and change nothing. *)
Theorem a_deleted_post_is_gone :
  forall now actor p d d',
    deletePost now actor p d = (inl tt, d') ->
    forall now' u,
      (forall x, submitVote now' (Some u) p x d' = (inr POST_NOT_FOUND, d'))
      /\ (forall reason details,
             reportPost now' (Some u) p reason details d'
             = (inr POST_NOT_FOUND, d'))
      /\ (forall ti co,
             updatePost now' (Some u) p ti co d' = (inr POST_NOT_FOUND, d'))
      /\ deletePost now' (Some u) p d' = (inr POST_NOT_FOUND, d').
Proof.
  intros now actor p d d' H now' u.
  assert (Hn : post_exists p d' = false).
  { unfold deletePost in H. destruct (owned_post actor p d); [|discriminate].
    destruct (delete_post now p d) as [d1|] eqn:E; [|discriminate].
    inversion H; subst d1. apply (delete_post_others now p d d' E). }
  pose proof (post_exists_find p d' Hn) as Hf.
  repeat split.
  - intros x. unfold submitVote. rewrite Hn. reflexivity.
  - intros reason details. unfold reportPost. rewrite Hn. reflexivity.
  - intros ti co. unfold updatePost, owned_post. rewrite Hf. reflexivity.
  - unfold deletePost, owned_post. rewrite Hf. reflexivity.
Qed.

(** ** Foreign keys into [users] and [topics] *)

(** Rows that come from old rows with the same references, or are new with
    references that exist, keep the foreign keys. *)
Lemma references_transfer (d d' : db) :
  users d' = users d -> topics d' = topics d ->
  (forall r', In r' (posts d') ->
     (exists r, In r (posts d) /\ Posts.user_id r' = Posts.user_id r
                /\ Posts.topic_id r' = Posts.topic_id r)
     \/ (user_exists (Posts.user_id r') d = true /\ topic_referenced r' d = true)) ->
  (forall v', In v' (votes d') ->
     (exists v, In v (votes d) /\ Votes.user_id v' = Votes.user_id v)
     \/ user_exists (Votes.user_id v') d = true) ->
  (forall r', In r' (reports d') ->
     (exists r, In r (reports d) /\ Reports.reporter_id r' = Reports.reporter_id r)
     \/ reporter_referenced r' d = true) ->
  references_hold d -> references_hold d'.
Proof.
  intros Hu Ht Hp Hv Hr [H1 H2 H3 H4].
  rewrite Forall_forall in H1, H2, H3, H4.
  constructor; apply Forall_forall.
  - intros r' Hin. unfold user_exists. rewrite Hu. fold (user_exists (Posts.user_id r') d).
    destruct (Hp r' Hin) as [(r & Hr0 & E1 & _)|[K _]]; [|exact K].
    rewrite E1. apply H1, Hr0.
  - intros r' Hin. unfold topic_referenced. rewrite Ht.
    fold (topic_referenced r' d).
    destruct (Hp r' Hin) as [(r & Hr0 & _ & E2)|[_ K]]; [|exact K].
    unfold topic_referenced. rewrite E2. apply (H2 r Hr0).
  - intros v' Hin. unfold user_exists. rewrite Hu.
    fold (user_exists (Votes.user_id v') d).
    destruct (Hv v' Hin) as [(v & Hv0 & E)|K]; [|exact K].
    rewrite E. apply H3, Hv0.
  - intros r' Hin. unfold reporter_referenced, user_exists. rewrite Hu.
    fold (user_exists). fold (reporter_referenced r' d).
    destruct (Hr r' Hin) as [(r & Hr0 & E)|K]; [|exact K].
    unfold reporter_referenced. rewrite E. apply (H4 r Hr0).
Qed.

Lemma rescored_rows_come_from (rows rows' : list Posts.row) :
  (exists K, Forall2 (fun r r' => rescored (K (Posts.id r)) r r') rows rows') ->
  forall r', In r' rows' ->
    exists r, In r rows /\ Posts.user_id r' = Posts.user_id r
              /\ Posts.topic_id r' = Posts.topic_id r.
Proof.
  intros (K & H) r' Hin.
  destruct (Forall2_In_r _ _ _ r' H Hin) as (r & Hr & Hres).
  exists r. destruct Hres as (_ & E1 & E2 & _). auto.
Qed.

Lemma insert_vote_user now u p x d d' :
  insert_vote now u p x d = Ok d' -> user_exists u d = true.
Proof.
  unfold insert_vote. intros H.
  destruct (negb (Votes.vote_type_check x)); [discriminate|].
  destruct (existsb _ (votes d)); [discriminate|].
  destruct (existsb (Votes.by_user_post u p) (votes d)); [discriminate|].
  destruct (user_exists u d); [reflexivity | discriminate].
Qed.

Lemma vote_statement_references now u p x d d' :
  references_hold d -> vote_statement now u p x d = Ok d' ->
  references_hold d'.
Proof.
  intros Hc H.
  pose proof (vote_statement_frame _ _ _ _ _ _ H) as (Hu & Ht & Hr & _ & _).
  pose proof (vote_statement_Ok _ _ _ _ _ _ H) as [_ HK].
  apply (references_transfer d d' Hu Ht); [| | |exact Hc].
  - intros r' Hin. left. apply (rescored_rows_come_from _ _ HK r' Hin).
  - intros v' Hin. unfold vote_statement in H.
    destruct (existing_vote u p d) as [existing|].
    + assert (D : forall d0, delete_votes now (Votes.by_user_post u p) d = Ok d0 ->
                             In v' (votes d0) ->
                             exists v, In v (votes d)
                                       /\ Votes.user_id v' = Votes.user_id v).
      { intros d0 H0 Hin0. apply delete_votes_Ok in H0. destruct H0 as [E _].
        rewrite E in Hin0. apply filter_In in Hin0. exists v'. tauto. }
      destruct (x =? existing); [left; eapply D; eauto|].
      destruct (x =? 0); [left; eapply D; eauto|].
      apply update_votes_Ok in H. destruct H as [E _]. rewrite E in Hin.
      apply in_map_iff in Hin. destruct Hin as (v & Ev & Hv). left. exists v.
      split; [exact Hv|]. rewrite <- Ev.
      destruct (Votes.by_user_post u p v); reflexivity.
    + pose proof (insert_vote_user _ _ _ _ _ _ H) as Hex.
      apply insert_vote_Ok in H. destruct H as (_ & _ & E & _).
      rewrite E in Hin. apply in_app_or in Hin. destruct Hin as [Hin|[<-|[]]].
      * left. exists v'. auto.
      * right. exact Hex.
  - intros r' Hin. left. exists r'. rewrite Hr in Hin. auto.
Qed.

Lemma insert_post_references now u t ti co d d' :
  references_hold d -> insert_post now u t ti co d = Ok d' ->
  references_hold d'.
Proof.
  intros Hc H.
  assert (K : user_exists u d = true
              /\ existsb (fun r => eq_opt_uuid t (Topics.id r)) (topics d) = true).
  { unfold insert_post in H.
    destruct (negb (Posts.not_null _)); [discriminate|].
    destruct (negb (_ && _)); [discriminate|].
    destruct (post_exists _ d); [discriminate|].
    destruct (user_exists u d); [|discriminate].
    destruct (existsb _ (topics d)); [auto | discriminate]. }
  apply insert_post_Ok in H. subst d'.
  apply (references_transfer d); try reflexivity; [| | |exact Hc].
  - intros r' Hin. simpl in Hin. apply in_app_or in Hin.
    destruct Hin as [Hin|[<-|[]]].
    + left. exists r'. auto.
    + right. exact K.
  - intros v' Hin. left. exists v'. auto.
  - intros r' Hin. left. exists r'. auto.
Qed.

Lemma update_post_references now p ti co d d' :
  references_hold d -> update_post now p ti co d = Ok d' ->
  references_hold d'.
Proof.
  intros Hc H. apply update_post_Ok in H. destruct H as [-> _].
  apply (references_transfer d); try reflexivity; [| | |exact Hc].
  - intros r' Hin. simpl in Hin. apply in_map_iff in Hin.
    destruct Hin as (r & E & Hr). left. exists r. split; [exact Hr|].
    rewrite <- E. destruct (N.eqb (Posts.id r) p); auto.
  - intros v' Hin. left. exists v'. auto.
  - intros r' Hin. left. exists r'. auto.
Qed.

Lemma delete_post_references now p d d' :
  references_hold d -> delete_post now p d = Ok d' ->
  references_hold d'.
Proof.
  intros Hc H. rewrite delete_post_cascades in H. inversion H.
  apply (references_transfer d); try reflexivity; [| | |exact Hc]; simpl.
  - intros r' Hin. apply filter_In in Hin. left. exists r'. tauto.
  - intros v' Hin. apply filter_In in Hin. left. exists v'. tauto.
  - intros r' Hin. apply filter_In in Hin. left. exists r'. tauto.
Qed.

Lemma insert_report_references now u p reason details d d' :
  references_hold d -> insert_report now u p reason details d = Ok d' ->
  references_hold d'.
Proof.
  intros Hc H. apply insert_report_Ok in H.
  destruct H as (_ & _ & _ & Hu & _ & ->).
  apply (references_transfer d); try reflexivity; [| | |exact Hc]; simpl.
  - intros r' Hin. left. exists r'. auto.
  - intros v' Hin. left. exists v'. auto.
  - intros r' Hin. apply in_app_or in Hin. destruct Hin as [Hin|[<-|[]]].
    + left. exists r'. auto.
    + right. exact Hu.
Qed.

Lemma delete_votes_references now cond d d' :
  references_hold d -> delete_votes now cond d = Ok d' ->
  references_hold d'.
Proof.
  intros Hc H. pose proof (delete_votes_Ok _ _ _ _ H) as [E HK].
  unfold delete_votes in H. apply bind_Ok in H.
  destruct H as (posts' & _ & H). inversion H as [E']. rewrite <- E' in *.
  apply (references_transfer d); try reflexivity; [| | |exact Hc]; simpl.
  - intros r' Hin. left. apply (rescored_rows_come_from _ _ HK r' Hin).
  - intros v' Hin. apply filter_In in Hin. left. exists v'. tauto.
  - intros r' Hin. left. exists r'. auto.
Qed.

Lemma delete_posts_references now ps d d' :
  references_hold d -> delete_posts now ps d = Ok d' ->
  references_hold d'.
Proof.
  revert d. induction ps as [|p ps IH]; simpl; intros d Hc H.
  - inversion H; subst; exact Hc.
  - apply bind_Ok in H. destruct H as (d1 & H1 & H2).
    apply (IH d1); [|exact H2]. eapply delete_post_references; eauto.
Qed.

Lemma delete_topic_Ok now t d d' :
  delete_topic now t d = Ok d' ->
  Forall (fun r => Posts.topic_id r <> Some t) (posts d)
  /\ d' = with_topics (filter (fun r => negb (N.eqb (Topics.id r) t)) (topics d)) d.
Proof.
  intros H.
  assert (F : Forall (fun r => Posts.topic_id r <> Some t) (posts d)).
  { apply Forall_forall. intros r Hin Ht.
    rewrite (delete_topic_refused now t d r Hin Ht) in H. discriminate. }
  split; [exact F|]. rewrite (delete_topic_unreferenced now t d F) in H.
  inversion H. reflexivity.
Qed.

Lemma delete_topic_references now t d d' :
  references_hold d -> delete_topic now t d = Ok d' ->
  references_hold d'.
Proof.
  intros [H1 H2 H3 H4] H. apply delete_topic_Ok in H. destruct H as [F ->].
  constructor; try assumption.
  cbn [posts with_topics]. rewrite Forall_forall in *.
  intros r Hin. specialize (H2 r Hin). specialize (F r Hin).
  unfold topic_referenced in *. cbn [topics with_topics].
  apply existsb_exists in H2. destruct H2 as (x & Hx & E).
  apply existsb_exists. exists x. split; [|exact E].
  apply filter_In. split; [exact Hx|]. apply negb_true_iff, N.eqb_neq.
  intros K. destruct (Posts.topic_id r) as [t'|]; [|discriminate].
  simpl in E. apply N.eqb_eq in E. congruence.
Qed.

Lemma user_exists_filter (u u' : uuid) (us : list Users.row) :
  u' <> u ->
  existsb (fun r => N.eqb (Users.id r) u')
          (filter (fun r => negb (N.eqb (Users.id r) u)) us)
  = existsb (fun r => N.eqb (Users.id r) u') us.
Proof.
  intros Hne. induction us as [|x l IH]; simpl; [reflexivity|].
  destruct (N.eqb (Users.id x) u) eqn:E; simpl.
  - rewrite IH. apply N.eqb_eq in E.
    replace (N.eqb (Users.id x) u') with false; [reflexivity|].
    symmetry. apply N.eqb_neq. congruence.
  - rewrite IH. reflexivity.
Qed.

Lemma delete_user_references now u d d' :
  references_hold d -> delete_user now u d = Ok d' ->
  references_hold d'.
Proof.
  intros Hc H.
  pose proof H as H0. unfold delete_user in H0.
  apply bind_Ok in H0. destruct H0 as (d1 & E1 & H0).
  apply bind_Ok in H0. destruct H0 as (d2 & E2 & H0). inversion H0 as [E].
  assert (Hc2 : references_hold d2).
  { eapply delete_votes_references; [|exact E2].
    eapply delete_posts_references; eauto. }
  assert (U2 : users d2 = users d).
  { rewrite delete_posts_cascades in E1. inversion E1 as [K]. clear E1.
    unfold delete_votes in E2. apply bind_Ok in E2.
    destruct E2 as (posts' & _ & E2). inversion E2. subst d1. reflexivity. }
  destruct Hc2 as [K1 K2 K3 K4]. rewrite Forall_forall in K1, K2, K3, K4.
  assert (Keep : forall u', u' <> u ->
            user_exists u' d2 = true ->
            existsb (fun r => N.eqb (Users.id r) u')
              (filter (fun r => negb (N.eqb (Users.id r) u)) (users d2)) = true).
  { intros u' Hne Hex. rewrite user_exists_filter; [exact Hex | exact Hne]. }
  destruct (delete_user_Ok now u d d' H) as (_ & _ & Gp & Gv & _).
  rewrite <- E in Gp, Gv.
  cbn [posts votes with_users with_reports] in Gp, Gv.
  constructor; apply Forall_forall; unfold user_exists, topic_referenced,
    reporter_referenced;
    cbn [users topics posts votes reports with_users with_reports].
  - intros r Hin. apply Keep; [apply Gp, Hin | apply K1, Hin].
  - intros r Hin. apply (K2 r Hin).
  - intros v Hin. apply Keep; [apply Gv, Hin | apply K3, Hin].
  - intros r' Hin. apply in_map_iff in Hin. destruct Hin as (r & Er & Hr).
    specialize (K4 r Hr). unfold reporter_referenced in K4.
    destruct (eq_opt_uuid (Reports.reporter_id r) u) eqn:Q; subst r'.
    + reflexivity.
    + destruct (Reports.reporter_id r) as [u'|]; [|reflexivity].
      simpl in Q. apply N.eqb_neq in Q. apply Keep; [exact Q | exact K4].
Qed.

Lemma serve_references (r : request) (d : db) :
  references_hold d -> references_hold (serve r d).
Proof.
  intros Hc. destruct r; simpl.
  - unfold submitVote. destruct actor; [|exact Hc].
    destruct (negb (post_exists p d)); [exact Hc|].
    destruct (vote_statement _ _ _ _ _) eqn:H; [|exact Hc].
    destruct (score p a); [|exact Hc].
    simpl. eapply vote_statement_references; eauto.
  - unfold createPost. destruct actor; [|exact Hc].
    repeat match goal with
           | |- references_hold (snd (if ?c then _ else _)) =>
               destruct c; [exact Hc|]
           end.
    destruct (insert_post _ _ _ _ _ _) eqn:H; [|exact Hc].
    simpl. eapply insert_post_references; eauto.
  - unfold updatePost. destruct (owned_post actor p d); [|exact Hc].
    destruct (update_post _ _ _ _ _) eqn:H; [|exact Hc].
    simpl. eapply update_post_references; eauto.
  - unfold deletePost. destruct (owned_post actor p d); [|exact Hc].
    destruct (delete_post _ _ _) eqn:H; [|exact Hc].
    simpl. eapply delete_post_references; eauto.
  - unfold reportPost. destruct actor; [|exact Hc].
    repeat match goal with
           | |- references_hold (snd (if ?c then _ else _)) =>
               destruct c; [exact Hc|]
           end.
    destruct (insert_report _ _ _ _ _ _) as [d'|e] eqn:H;
      [|destruct e; exact Hc].
    simpl. eapply insert_report_references; eauto.
  - destruct (delete_topic now t d) eqn:H; [|exact Hc].
    eapply delete_topic_references; eauto.
  - destruct (delete_user now u d) eqn:H; [|exact Hc].
    eapply delete_user_references; eauto.
Qed.

Lemma reachable_references (d : db) : reachable d -> references_hold d.
Proof.
  intros (d0 & rs & (Hp & Hv & Hr) & ->).
  assert (H0 : references_hold d0).
  { constructor; rewrite ?Hp, ?Hv, ?Hr; constructor. }
  clear Hp Hv Hr. revert d0 H0.
  induction rs as [|r rs IH]; intros d0 H0; [exact H0|].
  simpl. apply IH, serve_references, H0.
Qed.

(** X26.  The foreign keys into [users] and [topics] hold in every state the
    API can reach: each post has an owner that exists and a topic that is
    not NULL and exists (no request ever detaches a post from its topic),
    each vote a voter that exists, and each report a reporter that exists
    or is NULL. *)
Theorem posts_keep_an_owner_and_a_topic :
  forall d,
    reachable d ->
    (forall r, In r (posts d) ->
       user_exists (Posts.user_id r) d = true
       /\ exists t, Posts.topic_id r = Some t /\ topic_exists t d = true)
    /\ (forall v, In v (votes d) -> user_exists (Votes.user_id v) d = true)
    /\ (forall r, In r (reports d) ->
          Reports.reporter_id r = None
          \/ exists u, Reports.reporter_id r = Some u /\ user_exists u d = true).
Proof.
  intros d R. destruct (reachable_references d R) as [H1 H2 H3 H4].
  rewrite Forall_forall in H1, H2, H3, H4. split; [|split].
  - intros r Hin. split; [apply H1, Hin|].
    specialize (H2 r Hin). unfold topic_referenced in H2.
    apply existsb_exists in H2. destruct H2 as (x & Hx & E).
    destruct (Posts.topic_id r) as [t|]; [|discriminate].
    exists t. split; [reflexivity|]. unfold topic_exists.
    apply existsb_exists. exists x. split; [exact Hx|].
    simpl in E. rewrite N.eqb_sym. exact E.
  - intros v Hin. apply H3, Hin.
  - intros r Hin. specialize (H4 r Hin). unfold reporter_referenced in H4.
    destruct (Reports.reporter_id r) as [u|]; [right; eauto | left; reflexivity].
Qed.

(** ** At the bounds of INTEGER *)

Lemma update_posts_set_vote_count_Err now e pid rows r e0 :
  find (fun r => N.eqb (Posts.id r) pid) rows = Some r ->
  e (Posts.vote_count r) = Err e0 ->
  update_posts_set_vote_count now e pid rows = Err e0.
Proof.
  induction rows as [|a rows IH]; simpl; [discriminate|].
  destruct (N.eqb (Posts.id a) pid).
  - intros E He. inversion E; subst a. rewrite He. reflexivity.
  - intros E He. simpl. rewrite (IH E He). reflexivity.
Qed.

(** X27.  A first vote that would take the score out of the 32-bit range of
    [vote_count INTEGER] is not recorded: the score update of the trigger
    raises, the statement is undone, and the request is answered with a
    server error; the database is unchanged. *)
Theorem vote_past_the_integer_range_is_refused :
  forall now u p x s d,
    existing_vote u p d = None -> user_exists u d = true ->
    score p d = Some s -> x = -1 \/ x = 1 -> in_int4 (s + x) = false ->
    submitVote now (Some u) p x d = (inr INTERNAL_SERVER_ERROR, d).
Proof.
  intros now u p x s d Hv Hu Hs Hx Hout.
  unfold submitVote, vote_statement.
  rewrite (find_post_exists _ _ _ Hs), Hv. cbn [negb].
  unfold existing_vote in Hv.
  destruct (find _ (votes d)) as [r0|] eqn:Hf; [discriminate|]. clear Hv.
  apply vote_type_check_spec in Hx.
  unfold insert_vote. rewrite Hx. cbn [negb].
  set (NEW := Votes.mk (gen_random_uuid (map Votes.id (votes d))) u p x now).
  assert (Hpk : existsb (fun r => N.eqb (Votes.id r) (Votes.id NEW)) (votes d)
                = false).
  { destruct (existsb _ (votes d)) eqn:E; [|reflexivity].
    apply existsb_exists in E. destruct E as (r & Hr & E).
    apply N.eqb_eq in E. exfalso.
    apply (gen_random_uuid_fresh (map Votes.id (votes d))).
    simpl in E. rewrite <- E. apply in_map. exact Hr. }
  rewrite Hpk.
  assert (Huq : existsb (Votes.by_user_post u p) (votes d) = false).
  { destruct (existsb (Votes.by_user_post u p) (votes d)) eqn:E; [|reflexivity].
    apply existsb_exists in E. destruct E as (r & Hr & E).
    pose proof (find_none _ _ Hf r Hr). congruence. }
  rewrite Huq, Hu, (find_post_exists _ _ _ Hs). cbn [negb].
  unfold score, find_post in Hs.
  destruct (find (fun r => N.eqb (Posts.id r) p) (posts d)) as [r|] eqn:Fp;
    [|discriminate].
  simpl in Hs. inversion Hs as [Hvc].
  assert (T : update_post_vote_count now (INSERT NEW) (posts d)
              = Err numeric_value_out_of_range).
  { unfold update_post_vote_count.
    apply (update_posts_set_vote_count_Err now _ _ _ r); [exact Fp|].
    unfold int4pl, int4. rewrite Hvc. simpl. rewrite Hout. reflexivity. }
  rewrite T. reflexivity.
Qed.


(** ** Instances of the further properties on the small forum *)

Lemma first_vote_is_recorded_witness :
  consistent forum /\ existing_vote 2%N 1%N forum = None
  /\ exists d',
       submitVote 200 (Some 2%N) 1%N 1 forum
       = (inl (mk_vote_response (0 + 1) 1), d').
Proof.
  assert (C : consistent forum) by by_evaluation.
  split; [exact C|]. split; [reflexivity|].
  destruct (first_vote_is_recorded 200 2%N 1%N 1 0 forum) as (d' & E & _);
    [exact C | reflexivity | reflexivity | reflexivity | right; reflexivity
    | reflexivity |].
  exists d'. exact E.
Defined.

Lemma zero_retracts_the_vote_witness :
  consistent forum_upvoted /\ existing_vote 2%N 1%N forum_upvoted = Some 1
  /\ exists d',
       submitVote 300 (Some 2%N) 1%N 0 forum_upvoted
       = (inl (mk_vote_response (1 - 1) 0), d').
Proof.
  assert (C : consistent forum_upvoted) by by_evaluation.
  split; [exact C|]. split; [reflexivity|].
  destruct (zero_retracts_the_vote 300 2%N 1%N 1 1 forum_upvoted)
    as (d' & E & _); [exact C | reflexivity | reflexivity | reflexivity |].
  exists d'. exact E.
Defined.

Lemma zero_without_a_vote_is_refused_witness :
  submitVote 200 (Some 2%N) 1%N 0 forum = (inr INVALID_INPUT, forum).
Proof.
  apply (zero_without_a_vote_is_refused 200 2%N 1%N forum); reflexivity.
Defined.

Lemma vote_request_touches_one_post_and_one_vote_witness :
  users (snd (submitVote 200 (Some 2%N) 1%N 1 forum)) = users forum.
Proof.
  exact (proj1 (vote_request_touches_one_post_and_one_vote
                  200 (Some 2%N) 1%N 1 forum)).
Defined.

Lemma score_is_upvotes_minus_downvotes_witness :
  reachable forum_upvoted
  /\ 1 = upvotes 1%N (votes forum_upvoted) - downvotes 1%N (votes forum_upvoted).
Proof.
  assert (R : reachable forum_upvoted).
  { exists seeded, [first_post; Vote 200 (Some 2%N) 1%N 1].
    repeat split; reflexivity. }
  split; [exact R|].
  apply (proj1 (score_is_upvotes_minus_downvotes forum_upvoted 1%N 1 R eq_refl)).
Defined.

Lemma accepted_vote_moves_score_by_own_change_witness :
  consistent forum_upvoted
  /\ vote_count (mk_vote_response (-1) (-1))
     = 1 + (user_vote (mk_vote_response (-1) (-1))
            - current_vote 2%N 1%N forum_upvoted).
Proof.
  assert (C : consistent forum_upvoted) by by_evaluation.
  split; [exact C|].
  apply (accepted_vote_moves_score_by_own_change 300 2%N 1%N (-1) forum_upvoted
           (mk_vote_response (-1) (-1))
           (snd (submitVote 300 (Some 2%N) 1%N (-1) forum_upvoted)) 1 C);
    reflexivity.
Defined.

Lemma votes_of_two_users_commute_witness :
  consistent forum
  /\ score 1%N (snd (submitVote 300 (Some 2%N) 1%N (-1)
                       (snd (submitVote 200 (Some 1%N) 1%N 1 forum))))
     = score 1%N (snd (submitVote 300 (Some 1%N) 1%N 1
                         (snd (submitVote 200 (Some 2%N) 1%N (-1) forum)))).
Proof.
  assert (C : consistent forum) by by_evaluation.
  split; [exact C|].
  apply (votes_of_two_users_commute 200 300 200 300 1%N 2%N 1%N 1 (-1) forum
           (mk_vote_response 1 1)
           (snd (submitVote 200 (Some 1%N) 1%N 1 forum))
           (mk_vote_response 0 (-1))
           (snd (submitVote 300 (Some 2%N) 1%N (-1)
                   (snd (submitVote 200 (Some 1%N) 1%N 1 forum))))
           (mk_vote_response (-1) (-1))
           (snd (submitVote 200 (Some 2%N) 1%N (-1) forum))
           (mk_vote_response 0 1)
           (snd (submitVote 300 (Some 1%N) 1%N 1
                   (snd (submitVote 200 (Some 2%N) 1%N (-1) forum))))
           C);
    [discriminate | reflexivity | reflexivity | reflexivity | reflexivity].
Defined.

Lemma accepted_vote_stamps_the_post_witness :
  option_map Posts.updated_at
    (find_post 1%N (snd (submitVote 200 (Some 2%N) 1%N 1 forum)))
  = Some 200.
Proof.
  rewrite (accepted_vote_stamps_the_post 200 (Some 2%N) 1%N 1 forum
             (mk_vote_response 1 1)
             (snd (submitVote 200 (Some 2%N) 1%N 1 forum))
             (Posts.mk 1%N 1%N (Some 1%N) "Hello forum"
                       "A first post for everyone" 0 100 100));
    reflexivity.
Defined.


Lemma deletePost_is_for_the_owner_witness :
  post_exists 1%N (snd (deletePost 300 (Some 1%N) 1%N forum_upvoted)) = false
  /\ deletePost 300 (Some 2%N) 1%N forum_upvoted = (inr FORBIDDEN, forum_upvoted).
Proof.
  split.
  - apply (proj1 (proj2 (deletePost_is_for_the_owner
                           300 (Some 1%N) 1%N forum_upvoted))
             (snd (deletePost 300 (Some 1%N) 1%N forum_upvoted))).
    reflexivity.
  - destruct (proj2 (proj2 (deletePost_is_for_the_owner
                              300 (Some 2%N) 1%N forum_upvoted))
                FORBIDDEN forum_upvoted eq_refl) as [_ _].
    reflexivity.
Defined.


Lemma votes_and_reports_reference_posts_witness :
  reachable forum_upvoted
  /\ (forall v, In v (votes forum_upvoted) ->
                post_exists (Votes.post_id v) forum_upvoted = true).
Proof.
  assert (R : reachable forum_upvoted).
  { exists seeded, [first_post; Vote 200 (Some 2%N) 1%N 1].
    repeat split; reflexivity. }
  split; [exact R|].
  apply (proj1 (votes_and_reports_reference_posts forum_upvoted R)).
Defined.

Lemma a_post_is_reported_once_witness :
  exists e,
    reportPost 400 (Some 2%N) 1%N "harassment" None
      (snd (reportPost 300 (Some 2%N) 1%N "spam" None forum))
    = (inr e, snd (reportPost 300 (Some 2%N) 1%N "spam" None forum)).
Proof.
  destruct (proj2 (proj2 (a_post_is_reported_once
                            300 2%N 1%N "spam" None forum
                            (snd (reportPost 300 (Some 2%N) 1%N "spam" None forum))
                            eq_refl))
              400 "harassment"%string None) as (e & E & _).
  exists e. exact E.
Defined.

Lemma create_then_delete_restores_the_database_witness :
  reachable seeded
  /\ deletePost 200 (Some 1%N) 1%N forum = (inl tt, seeded).
Proof.
  assert (R : reachable seeded).
  { exists seeded, []. repeat split; reflexivity. }
  split; [exact R|].
  apply (create_then_delete_restores_the_database
           100 200 (Some 1%N) "Hello forum" "A first post for everyone" 1%N
           seeded 1%N forum R).
  reflexivity.
Defined.

Lemma a_topic_with_posts_cannot_be_deleted_witness :
  posts (serve (DeleteTopic 300 1%N) forum_upvoted) = posts forum_upvoted.
Proof.
  exact (proj2 (proj2 (a_topic_with_posts_cannot_be_deleted
                         300 1%N forum_upvoted))).
Defined.

Lemma delete_user_keeps_the_reports_anonymised_witness :
  exists d',
    delete_user 400 2%N (snd (reportPost 300 (Some 2%N) 1%N "spam" None
                                forum_upvoted)) = Ok d'
    /\ user_exists 2%N d' = false
    /\ map Reports.reporter_id (reports d') = [None].
Proof.
  eexists. split; [vm_compute; reflexivity|]. split.
  - refine (proj1 (delete_user_keeps_the_reports_anonymised
                     400 2%N
                     (snd (reportPost 300 (Some 2%N) 1%N "spam" None
                             forum_upvoted)) _ _)).
    vm_compute. reflexivity.
  - reflexivity.
Defined.



Lemma hot_feed_needs_posts_not_from_the_future_witness :
  exists out, rank exact hot (48 * usec_per_hour) [old_twelve; fresh_ten] = Ok out.
Proof.
  apply (proj1 (hot_feed_needs_posts_not_from_the_future
                  exact (48 * usec_per_hour) [old_twelve; fresh_ten])).
  repeat constructor.
Defined.

Lemma vote_click_sets_the_arrow_witness :
  consistent forum_upvoted
  /\ exists d',
       vote_click 300 (Some 2%N) VoteButtons.upvote
         (VoteButtons.mk_props 1%N 1 (Some 1)) forum_upvoted
       = (VoteButtons.onVoteChange 0 0, d').
Proof.
  assert (C : consistent forum_upvoted) by by_evaluation.
  split; [exact C|].
  destruct (proj1 (vote_click_sets_the_arrow 300 2%N VoteButtons.upvote
                     (VoteButtons.mk_props 1%N 1 (Some 1)) 1 forum_upvoted
                     C eq_refl eq_refl eq_refl eq_refl) eq_refl)
    as (d' & E & _).
  exists d'. exact E.
Defined.

Lemma rejected_token_still_logs_in_witness :
  AuthContext.logged_in
    (AuthContext.useEffect (fun h => Some (auth_me (fun _ => None) forum h))
       (AuthContext.initial (Some "expired"%string))) = true.
Proof.
  apply (rejected_token_still_logs_in (fun _ => None) forum "expired");
    [discriminate | reflexivity].
Defined.


Lemma votes_do_not_reorder_the_new_feed_witness :
  exists out,
    ranking exact new 300 (posts forum_two) out
    /\ map Posts.id out = [2%N; 1%N].
Proof.
  destruct (proj1 (votes_do_not_reorder_the_new_feed
                     exact 200 (Some 2%N) 1%N 1 forum_two 300)
              [Posts.mk 2%N 2%N (Some 1%N) "Second post"
                        "Another post for everyone" 0 150 150;
               Posts.mk 1%N 1%N (Some 1%N) "Hello forum"
                        "A first post for everyone" 1 100 200])
    as (out & H & E & _).
  - split; [apply perm_swap|]. repeat constructor; simpl; lia.
  - exists out. split; [exact H|]. symmetry. exact E.
Defined.

Lemma a_deleted_post_is_gone_witness :
  submitVote 400 (Some 2%N) 1%N 1 (snd (deletePost 300 (Some 1%N) 1%N forum))
  = (inr POST_NOT_FOUND, snd (deletePost 300 (Some 1%N) 1%N forum)).
Proof.
  apply (proj1 (a_deleted_post_is_gone 300 (Some 1%N) 1%N forum
                  (snd (deletePost 300 (Some 1%N) 1%N forum)) eq_refl
                  400 2%N)).
Defined.

Lemma posts_keep_an_owner_and_a_topic_witness :
  reachable forum_upvoted
  /\ (forall v, In v (votes forum_upvoted) ->
                user_exists (Votes.user_id v) forum_upvoted = true).
Proof.
  assert (R : reachable forum_upvoted).
  { exists seeded, [first_post; Vote 200 (Some 2%N) 1%N 1].
    repeat split; reflexivity. }
  split; [exact R|].
  apply (proj1 (proj2 (posts_keep_an_owner_and_a_topic forum_upvoted R))).
Defined.

Lemma vote_past_the_integer_range_is_refused_witness :
  submitVote 200 (Some 2%N) 1%N 1 saturated
  = (inr INTERNAL_SERVER_ERROR, saturated).
Proof.
  apply (vote_past_the_integer_range_is_refused 200 2%N 1%N 1 int4_max saturated);
    [reflexivity | reflexivity | reflexivity | right; reflexivity | reflexivity].
Defined.
